(** * BeyondChats article ingestion: a shallow embedding of the scraper pipeline

    The development follows the TypeScript sources:
    - [models/Article.ts]: word count, reading time, content sanitisation;
    - [services/WebScraperService.ts]: pagination, link discovery, per-article
      extraction and content cleaning;
    - [repositories/ArticleRepository.ts]: persistence over the [articles] table;
    - [controllers/ScraperController.ts] and [scripts/scrapeArticles.ts]: the two
      orchestrators of an ingestion run, and the single-article and statistics
      handlers;
    - [database/connection.ts], [database/migrations.ts] and [database/init.ts]:
      the connection pool, transactions and schema migrations, over the trace
      of the calls made on the database driver.

    JavaScript strings are sequences of UTF-16 code units; they are modelled as
    lists of code units.  Asynchronous, stateful code is written in explicit
    state-passing style, and a rejected promise is an explicit [Throw]. *)

From Stdlib Require Import String Ascii DecimalString.
From Stdlib Require Import List NArith ZArith Lia Bool Arith.
From Stdlib Require Import Sorted Permutation.
Import ListNotations.

Set Implicit Arguments.

(* ------------------------------------------------------------------ *)
(** ** JavaScript strings *)

Module JsString.

(** A string is its sequence of UTF-16 code units. *)
Definition jstring : Type := list N.

(** A source literal made of ASCII characters. *)
Definition lit (s : string) : jstring :=
  map N_of_ascii (list_ascii_of_string s).

Definition jstring_eqb (a b : jstring) : bool :=
  if list_eq_dec N.eq_dec a b then true else false.

(** ECMAScript WhiteSpace and LineTerminator code points: the set matched by
    [\s] and stripped by [String.prototype.trim]. *)
Definition is_space (c : N) : bool :=
  ((9 <=? c) && (c <=? 13)             (* TAB LF VT FF CR *)
   || (c =? 32)                        (* SPACE *)
   || (c =? 160)                       (* NO-BREAK SPACE *)
   || (c =? 5760)                      (* U+1680 *)
   || ((8192 <=? c) && (c <=? 8202))   (* U+2000 .. U+200A *)
   || (c =? 8232) || (c =? 8233)       (* U+2028, U+2029 *)
   || (c =? 8239)                      (* U+202F *)
   || (c =? 8287)                      (* U+205F *)
   || (c =? 12288)                     (* U+3000 *)
   || (c =? 65279))%N.                 (* U+FEFF *)

(** [\w]: the characters [A-Za-z0-9_]. *)
Definition is_word (c : N) : bool :=
  ((48 <=? c) && (c <=? 57)
   || (65 <=? c) && (c <=? 90)
   || (c =? 95)
   || (97 <=? c) && (c <=? 122))%N.

Definition is_digit (c : N) : bool := ((48 <=? c) && (c <=? 57))%N.

Fixpoint dropWhile (p : N -> bool) (s : jstring) : jstring :=
  match s with
  | [] => []
  | c :: s' => if p c then dropWhile p s' else s
  end.

Definition trimStart (s : jstring) : jstring := dropWhile is_space s.
Definition trimEnd (s : jstring) : jstring := rev (dropWhile is_space (rev s)).

(** [s.trim()] *)
Definition trim (s : jstring) : jstring := trimEnd (trimStart s).

(** [s.startsWith(p)] *)
Fixpoint startsWith (s p : jstring) : bool :=
  match p, s with
  | [], _ => true
  | _ :: _, [] => false
  | a :: p', c :: s' => (a =? c)%N && startsWith s' p'
  end.

(** [s.includes(p)] *)
Fixpoint includes (s p : jstring) : bool :=
  startsWith s p ||
  match s with
  | [] => false
  | _ :: s' => includes s' p
  end.

(** [s.substring(0, n)] *)
Definition substring0 (n : nat) (s : jstring) : jstring := firstn n s.

(** A string is truthy when it is not empty. *)
Definition truthy (s : jstring) : bool :=
  match s with [] => false | _ :: _ => true end.

(** [a || b] on strings. *)
Definition or_else (a b : jstring) : jstring := if truthy a then a else b.

(** [s.split(sep)] for a separator [sep] of one code unit. *)
Fixpoint splitChar (sep : N) (s : jstring) : list jstring :=
  match s with
  | [] => [[]]
  | c :: s' =>
      if (c =? sep)%N then [] :: splitChar sep s'
      else
        match splitChar sep s' with
        | piece :: rest => (c :: piece) :: rest
        | [] => [[c]]
        end
  end.

End JsString.
Export JsString.

(* ------------------------------------------------------------------ *)
(** ** JavaScript arrays *)

Module JsArray.

(** [arr.sort(cmp)]: a stable sort; [cmp a b < 0] puts [a] first. *)
Section Sort.
Variable A : Type.
Variable cmp : A -> A -> Z.

Fixpoint insertSorted (x : A) (l : list A) : list A :=
  match l with
  | [] => [x]
  | y :: l' => if (cmp y x <? 0)%Z then y :: insertSorted x l' else x :: l
  end.

Definition sortBy (l : list A) : list A := fold_right insertSorted [] l.
End Sort.

End JsArray.
Export JsArray.

(* ------------------------------------------------------------------ *)
(** ** JavaScript numbers *)

Module JsNumber.

(** The Number values that a non-negative integer numeral can denote: an
    integer that is a double, or [Infinity]. *)
Inductive Number : Type :=
| Finite (n : N)
| Infinity.

(** The Number nearest to an integer.  Integers below 2^53 are Numbers; from
    there on the 53 leading bits are kept and the rest is rounded to the
    nearest, a tie going to the even neighbour; what rounds to 2^1024 or
    more is [Infinity]. *)
Definition nearestNumber (n : N) : Number :=
  if (n <? 2 ^ 53)%N then Finite n
  else
    let shift := (N.log2 n - 52)%N in
    let q := N.shiftr n shift in
    let r := (n - N.shiftl q shift)%N in
    let half := N.shiftl 1 (shift - 1) in
    let q' := if (half <? r)%N || ((r =? half)%N && N.odd q)
              then (q + 1)%N else q in
    let v := N.shiftl q' shift in
    if (2 ^ 1024 <=? v)%N then Infinity else Finite v.

(** [b - a] as a sort comparator uses it: only the sign matters, and the
    subtraction of two Numbers has the sign of the exact difference.
    [Infinity - Infinity] is [NaN], which [sort] takes for 0. *)
Definition subtract (b a : Number) : Z :=
  match b, a with
  | Finite x, Finite y => (Z.of_N x - Z.of_N y)%Z
  | Infinity, Finite _ => 1%Z
  | Finite _, Infinity => (-1)%Z
  | Infinity, Infinity => 0%Z
  end.

End JsNumber.
Export JsNumber.

(* ------------------------------------------------------------------ *)
(** ** Regular expressions *)

Module RegExp.

(** The fragment of ECMAScript patterns used by the sources.  A [Class] is a
    one-character matcher (a literal, an escape such as [\s], or a bracket
    class); [Star] is the greedy [*]; [NotAhead] is [(?!...)]; [WordBoundary] is
    [\b]. *)
Inductive regex : Type :=
| Empty
| Class (p : N -> bool)
| Seq (r1 r2 : regex)
| Alt (r1 r2 : regex)
| Star (r : regex)
| NotAhead (r : regex)
| WordBoundary.

(** A matcher state is the code unit before the current position (for [\b])
    and the input that is left. *)
Definition mstate : Type := (option N * jstring)%type.
Definition cont : Type := option N -> jstring -> option mstate.

Definition is_word_at (c : option N) : bool :=
  match c with Some c => is_word c | None => false end.

(** The iterations of a greedy [*]: one more iteration is tried first, and
    an iteration that consumes nothing is rejected, so that the number of
    iterations is bounded by the input length. *)
Fixpoint star_iter (step : option N -> jstring -> cont -> option mstate)
  (k : cont) (n : nat) (prev : option N) (s : jstring) {struct n}
  : option mstate :=
  match n with
  | O => k prev s
  | S n' =>
      match step prev s
              (fun p' s' =>
                 if length s' <? length s then star_iter step k n' p' s'
                 else None)
      with
      | Some m => Some m
      | None => k prev s
      end
  end.

(** Backtracking matcher in continuation-passing style, as the ECMAScript
    semantics has it. *)
Fixpoint run (r : regex) (prev : option N) (s : jstring) (k : cont)
  {struct r} : option mstate :=
  match r with
  | Empty => k prev s
  | Class p =>
      match s with
      | c :: s' => if p c then k (Some c) s' else None
      | [] => None
      end
  | Seq r1 r2 => run r1 prev s (fun p' s' => run r2 p' s' k)
  | Alt r1 r2 =>
      match run r1 prev s k with
      | Some m => Some m
      | None => run r2 prev s k
      end
  | Star r1 => star_iter (run r1) k (S (length s)) prev s
  | NotAhead r1 =>
      match run r1 prev s (fun p' s' => Some (p', s')) with
      | Some _ => None
      | None => k prev s
      end
  | WordBoundary =>
      if xorb (is_word_at prev) (is_word_at (hd_error s))
      then k prev s else None
  end.

(** A match attempt anchored at the current position. *)
Definition matchAt (r : regex) (prev : option N) (s : jstring)
  : option mstate :=
  run r prev s (fun p' s' => Some (p', s')).

(** [/\s/.test]-style search: does the pattern match somewhere? *)
Fixpoint testFrom (r : regex) (prev : option N) (s : jstring) : bool :=
  match matchAt r prev s with
  | Some _ => true
  | None =>
      match s with
      | [] => false
      | c :: s' => testFrom r (Some c) s'
      end
  end.

Definition test (r : regex) (s : jstring) : bool := testFrom r None s.

(** [s.match(/r/)?.[0]]: the text of the leftmost match. *)
Fixpoint execFrom (r : regex) (prev : option N) (s : jstring)
  : option jstring :=
  match matchAt r prev s with
  | Some (_, rest) => Some (firstn (length s - length rest) s)
  | None =>
      match s with
      | [] => None
      | c :: s' => execFrom r (Some c) s'
      end
  end.

Definition exec (r : regex) (s : jstring) : option jstring :=
  execFrom r None s.

(** [s.replace(/r/g, rep)] for a replacement text without [$] patterns. *)
Fixpoint replaceLoop (fuel : nat) (r : regex) (rep : jstring)
  (prev : option N) (s : jstring) : jstring :=
  match fuel with
  | O => s
  | S fuel' =>
      match matchAt r prev s with
      | Some (p', rest) =>
          if length rest <? length s
          then rep ++ replaceLoop fuel' r rep p' rest
          else (* empty match: the scan resumes one code unit further *)
            match s with
            | [] => rep
            | c :: s' => rep ++ c :: replaceLoop fuel' r rep (Some c) s'
            end
      | None =>
          match s with
          | [] => []
          | c :: s' => c :: replaceLoop fuel' r rep (Some c) s'
          end
      end
  end.

Definition replaceAll (r : regex) (rep : jstring) (s : jstring) : jstring :=
  replaceLoop (S (length s)) r rep None s.

(** [s.split(/r/)] without a limit.  [piece] is the text between the end of
    the previous separator and the current position. *)
Fixpoint splitLoop (fuel : nat) (r : regex) (prev : option N)
  (piece : jstring) (s : jstring) : list jstring :=
  match fuel with
  | O => [piece ++ s]
  | S fuel' =>
      match s with
      | [] => [piece]
      | c :: s' =>
          match matchAt r prev s with
          | Some (p', rest) =>
              if (length rest =? length s) && negb (truthy piece)
              then splitLoop fuel' r (Some c) (piece ++ [c]) s'
              else piece :: splitLoop fuel' r p' [] rest
          | None => splitLoop fuel' r (Some c) (piece ++ [c]) s'
          end
      end
  end.

Definition split (r : regex) (s : jstring) : list jstring :=
  match s with
  | [] => match matchAt r None [] with Some _ => [] | None => [[]] end
  | _ :: _ => splitLoop (S (2 * length s)) r None [] s
  end.

(** *** Pattern constructors *)

Definition chr (a : ascii) : regex := Class (N.eqb (N_of_ascii a)).

(** A literal character under the [i] flag: two code units match when their
    canonical (upper-case) forms agree, and no code unit above 127 folds to an
    ASCII letter. *)
Definition upcase (c : N) : N :=
  if ((97 <=? c) && (c <=? 122))%N then (c - 32)%N else c.

Definition chr_i (a : ascii) : regex :=
  Class (fun c => (upcase c =? upcase (N_of_ascii a))%N).

Definition plus (r : regex) : regex := Seq r (Star r).

Fixpoint seq_of (f : ascii -> regex) (l : list ascii) : regex :=
  match l with
  | [] => Empty
  | [a] => f a
  | a :: l' => Seq (f a) (seq_of f l')
  end.

(** The literal text [s]. *)
Definition text (s : string) : regex := seq_of chr (list_ascii_of_string s).
(** The literal text [s] under the [i] flag. *)
Definition text_i (s : string) : regex := seq_of chr_i (list_ascii_of_string s).

Definition space : regex := Class is_space.
Definition word : regex := Class is_word.
Definition digit : regex := Class is_digit.
Definition not_chr (a : ascii) : regex :=
  Class (fun c => negb (c =? N_of_ascii a)%N).

End RegExp.

(* ------------------------------------------------------------------ *)
(** ** JSON *)

Module JSON.

(** A JSON value.  A number is kept as its numeral, and the members of an
    object as they are written. *)
#[warnings="-register-all"] Inductive Json : Type :=
| JNull
| JBool (b : bool)
| JNumber (numeral : jstring)
| JString (s : jstring)
| JArray (items : list Json)
| JObject (members : list (jstring * Json)).

(** JSON white space: TAB, LF, CR and SPACE. *)
Definition is_ws (c : N) : bool :=
  ((c =? 9) || (c =? 10) || (c =? 13) || (c =? 32))%N.

Definition skipWs (s : jstring) : jstring := dropWhile is_ws s.

Fixpoint takeWhile (p : N -> bool) (s : jstring) : jstring :=
  match s with
  | [] => []
  | c :: s' => if p c then c :: takeWhile p s' else []
  end.

(** *** JSON.parse *)

Definition hexValue (c : N) : option N :=
  if is_digit c then Some (c - 48)%N
  else if ((97 <=? c) && (c <=? 102))%N then Some (c - 87)%N
  else if ((65 <=? c) && (c <=? 70))%N then Some (c - 55)%N
  else None.

(** The character that follows a backslash, other than [u]. *)
Definition unescape (c : N) : option N :=
  if (c =? 34)%N then Some 34%N            (* quote *)
  else if (c =? 92)%N then Some 92%N       (* backslash *)
  else if (c =? 47)%N then Some 47%N       (* slash *)
  else if (c =? 98)%N then Some 8%N        (* b: backspace *)
  else if (c =? 102)%N then Some 12%N      (* f: form feed *)
  else if (c =? 110)%N then Some 10%N      (* n: line feed *)
  else if (c =? 114)%N then Some 13%N      (* r: carriage return *)
  else if (c =? 116)%N then Some 9%N       (* t: tab *)
  else None.

Definition prepend (c : N) (r : jstring * jstring) : jstring * jstring :=
  (c :: fst r, snd r).

(** A string after its opening quote: the characters up to the closing
    quote, and the text that follows it. *)
Fixpoint stringBody (s : jstring) : option (jstring * jstring) :=
  match s with
  | [] => None
  | c :: s1 =>
      if (c =? 34)%N then Some ([], s1)
      else if (c =? 92)%N then
        match s1 with
        | [] => None
        | e :: s2 =>
            if (e =? 117)%N then
              match s2 with
              | h1 :: h2 :: h3 :: h4 :: s3 =>
                  match hexValue h1, hexValue h2, hexValue h3, hexValue h4 with
                  | Some a, Some b, Some c', Some d =>
                      option_map (prepend (((a * 16 + b) * 16 + c') * 16 + d)%N)
                        (stringBody s3)
                  | _, _, _, _ => None
                  end
              | _ => None
              end
            else
              match unescape e with
              | Some x => option_map (prepend x) (stringBody s2)
              | None => None
              end
        end
      else if (c <? 32)%N then None
      else option_map (prepend c) (stringBody s1)
  end.

(** A run of digits that is not empty. *)
Definition digits (s : jstring) : option (jstring * jstring) :=
  match takeWhile is_digit s with
  | [] => None
  | ds => Some (ds, dropWhile is_digit s)
  end.

(** A numeral: an optional minus sign; a zero, or digits that do not start
    with a zero; an optional fraction, a point and digits; an optional
    exponent, [e] or [E], an optional sign and digits. *)
Definition numeral (s : jstring) : option (jstring * jstring) :=
  let (sign, s1) :=
    match s with
    | c :: s' => if (c =? 45)%N then ([c], s') else ([], s)
    | [] => ([], s)
    end in
  let whole :=
    match s1 with
    | c :: s2 => if (c =? 48)%N then Some ([c], s2) else digits s1
    | [] => None
    end in
  match whole with
  | None => None
  | Some (int, s2) =>
      let fraction :=
        match s2 with
        | c :: s3 =>
            if (c =? 46)%N then
              match digits s3 with
              | Some (ds, s4) => Some (c :: ds, s4)
              | None => None
              end
            else Some ([], s2)
        | [] => Some ([], s2)
        end in
      match fraction with
      | None => None
      | Some (frac, s3) =>
          let exponent :=
            match s3 with
            | c :: s4 =>
                if ((c =? 101) || (c =? 69))%N then
                  let (esign, s5) :=
                    match s4 with
                    | d :: s' =>
                        if ((d =? 43) || (d =? 45))%N then ([d], s') else ([], s4)
                    | [] => ([], s4)
                    end in
                  match digits s5 with
                  | Some (ds, s6) => Some (c :: esign ++ ds, s6)
                  | None => None
                  end
                else Some ([], s3)
            | [] => Some ([], s3)
            end in
          match exponent with
          | None => None
          | Some (exp, s4) => Some (sign ++ int ++ frac ++ exp, s4)
          end
      end
  end.

(** The elements of an array after the first bracket, up to the closing
    bracket; [parse] reads one value. *)
Fixpoint elements (parse : jstring -> option (Json * jstring)) (n : nat)
  (s : jstring) : option (list Json * jstring) :=
  match n with
  | O => None
  | S n' =>
      match parse s with
      | None => None
      | Some (v, rest) =>
          match skipWs rest with
          | c :: rest' =>
              if (c =? 44)%N then
                match elements parse n' rest' with
                | Some (vs, rest'') => Some (v :: vs, rest'')
                | None => None
                end
              else if (c =? 93)%N then Some ([v], rest')
              else None
          | [] => None
          end
      end
  end.

(** The members of an object after the brace, up to the closing brace. *)
Fixpoint members (parse : jstring -> option (Json * jstring)) (n : nat)
  (s : jstring) : option (list (jstring * Json) * jstring) :=
  match n with
  | O => None
  | S n' =>
      match skipWs s with
      | q :: s1 =>
          if (q =? 34)%N then
            match stringBody s1 with
            | None => None
            | Some (key, s2) =>
                match skipWs s2 with
                | colon :: s3 =>
                    if (colon =? 58)%N then
                      match parse s3 with
                      | None => None
                      | Some (v, rest) =>
                          match skipWs rest with
                          | c :: rest' =>
                              if (c =? 44)%N then
                                match members parse n' rest' with
                                | Some (ms, rest'') => Some ((key, v) :: ms, rest'')
                                | None => None
                                end
                              else if (c =? 125)%N then Some ([(key, v)], rest')
                              else None
                          | [] => None
                          end
                      end
                    else None
                | [] => None
                end
            end
          else None
      | [] => None
      end
  end.

(** A value, with the blanks before it, and the text that follows it. *)
Fixpoint value (fuel : nat) (s : jstring) : option (Json * jstring) :=
  match fuel with
  | O => None
  | S fuel' =>
      match skipWs s with
      | [] => None
      | c :: s1 =>
          if (c =? 34)%N then
            match stringBody s1 with
            | Some (str, rest) => Some (JString str, rest)
            | None => None
            end
          else if (c =? 91)%N then
            match skipWs s1 with
            | d :: rest =>
                if (d =? 93)%N then Some (JArray [], rest)
                else
                  match elements (value fuel') fuel' s1 with
                  | Some (vs, rest') => Some (JArray vs, rest')
                  | None => None
                  end
            | [] => None
            end
          else if (c =? 123)%N then
            match skipWs s1 with
            | d :: rest =>
                if (d =? 125)%N then Some (JObject [], rest)
                else
                  match members (value fuel') fuel' s1 with
                  | Some (ms, rest') => Some (JObject ms, rest')
                  | None => None
                  end
            | [] => None
            end
          else if startsWith (c :: s1) (lit "null")
          then Some (JNull, skipn 4 (c :: s1))
          else if startsWith (c :: s1) (lit "true")
          then Some (JBool true, skipn 4 (c :: s1))
          else if startsWith (c :: s1) (lit "false")
          then Some (JBool false, skipn 5 (c :: s1))
          else
            match numeral (c :: s1) with
            | Some (n, rest) => Some (JNumber n, rest)
            | None => None
            end
      end
  end.

(** [JSON.parse(text)]; [None] stands for the [SyntaxError] that is thrown
    when [text] is no JSON text. *)
Definition parse (text : jstring) : option Json :=
  match value (S (length text)) text with
  | Some (v, rest) =>
      match skipWs rest with
      | [] => Some v
      | _ :: _ => None
      end
  | None => None
  end.

(** *** JSON.stringify of an array of strings *)

Definition hexDigit (d : N) : N := if (d <? 10)%N then (48 + d)%N else (87 + d)%N.

(** The escape [\uXXXX] of a code unit, in lower-case digits. *)
Definition unicodeEscape (c : N) : jstring :=
  [92; 117; hexDigit (c / 4096); hexDigit ((c / 256) mod 16);
   hexDigit ((c / 16) mod 16); hexDigit (c mod 16)]%N.

Definition isHighSurrogate (c : N) : bool := ((55296 <=? c) && (c <=? 56319))%N.
Definition isLowSurrogate (c : N) : bool := ((56320 <=? c) && (c <=? 57343))%N.

(** The text for a code unit that is no surrogate. *)
Definition escapeUnit (c : N) : jstring :=
  if (c =? 8)%N then [92; 98]%N
  else if (c =? 9)%N then [92; 116]%N
  else if (c =? 10)%N then [92; 110]%N
  else if (c =? 12)%N then [92; 102]%N
  else if (c =? 13)%N then [92; 114]%N
  else if (c =? 34)%N then [92; 34]%N
  else if (c =? 92)%N then [92; 92]%N
  else if (c <? 32)%N then unicodeEscape c
  else [c].

(** The characters between the quotes: a surrogate pair is written as it
    is, a surrogate that stands alone is escaped. *)
Fixpoint quoteBody (s : jstring) : jstring :=
  match s with
  | [] => []
  | c :: s' =>
      if isHighSurrogate c then
        match s' with
        | d :: s'' =>
            if isLowSurrogate d then c :: d :: quoteBody s''
            else unicodeEscape c ++ quoteBody s'
        | [] => unicodeEscape c
        end
      else if isLowSurrogate c then unicodeEscape c ++ quoteBody s'
      else escapeUnit c ++ quoteBody s'
  end.

Definition quote (s : jstring) : jstring := 34%N :: quoteBody s ++ [34%N].

(** [items.join(sep)] *)
Fixpoint join (sep : jstring) (items : list jstring) : jstring :=
  match items with
  | [] => []
  | [x] => x
  | x :: rest => x ++ sep ++ join sep rest
  end.

(** [JSON.stringify(items)] for an array of strings. *)
Definition stringify (items : list jstring) : jstring :=
  91%N :: join [44%N] (map quote items) ++ [93%N].

(** [String(items)] for an array of strings: [items.join(',')]. *)
Definition toText (items : list jstring) : jstring := join [44%N] items.

End JSON.

(* ------------------------------------------------------------------ *)
(** ** models/Article.ts *)

Module Article.
Import RegExp JSON.

Record Article : Type := {
  id : jstring;
  title : jstring;
  content : jstring;
  url : jstring;
  scrapedDate : N;
  enhancedContent : option jstring;
  isEnhanced : bool;
  wordCount : N;
  readingTime : N;
  tags : Json;
  createdAt : N;
  updatedAt : N
}.

Record CreateArticleData : Type := {
  new_title : jstring;
  new_content : jstring;
  new_url : jstring;
  new_tags : option (list jstring)
}.

(** [UpdateArticleData]: a field that is [undefined] is [None]. *)
Record UpdateArticleData : Type := {
  upd_title : option jstring;
  upd_content : option jstring;
  upd_enhancedContent : option jstring;
  upd_tags : option (list jstring)
}.

(** [/\s+/] *)
Definition re_spaces : regex := plus space.

(** [content.trim().split(/\s+/).filter(word => word.length > 0).length] *)
Definition calculateWordCount (content : jstring) : N :=
  N.of_nat
    (length (filter (fun w => 0 <? length w) (split re_spaces (trim content)))).

(** [Math.ceil(wordCount / 200)].  The quotient of two integers this small is
    computed without rounding across an integer, so the ceiling is the exact
    one. *)
Definition calculateReadingTime (wordCount : N) : N :=
  (if wordCount mod 200 =? 0 then wordCount / 200 else wordCount / 200 + 1)%N.

(** The pattern [open \b [^<]* (?: (?!close) < [^<]* )* close] under the [gi]
    flags (written here with blanks between its parts), where [open] is
    [<script] or [<iframe] and [close] the matching end tag. *)
Definition re_block (open close : string) : regex :=
  Seq (text_i open)
    (Seq WordBoundary
       (Seq (Star (not_chr "<"))
          (Seq (Star (Seq (NotAhead (text_i close))
                        (Seq (chr_i "<") (Star (not_chr "<")))))
             (text_i close)))).

Definition re_script : regex := re_block "<script" "</script>".
Definition re_iframe : regex := re_block "<iframe" "</iframe>".
(** [/javascript:/gi] *)
Definition re_javascript : regex := text_i "javascript:".
(** [/on\w+\s*=/gi] *)
Definition re_handler : regex :=
  Seq (text_i "on") (Seq (plus word) (Seq (Star space) (chr_i "="))).

Definition sanitizeArticleContent (content : jstring) : jstring :=
  trim
    (replaceAll re_handler []
       (replaceAll re_javascript []
          (replaceAll re_iframe []
             (replaceAll re_script [] content)))).

End Article.


(* ------------------------------------------------------------------ *)
(** ** Results of fallible operations *)

Module Outcome.

(** What a rejected promise carries. *)
Inductive Exn : Type :=
| JsError (message : string)          (* [new Error(message)] *)
| SyntaxError (message : string)      (* thrown by [JSON.parse] *)
| DbError (code : string)             (* an error raised by the database driver *)
| BrowserError (what : string).       (* an error raised by the browser driver *)

Inductive result (A : Type) : Type :=
| Ok (a : A)
| Throw (e : Exn).

Arguments Ok {A} a.
Arguments Throw {A} e.

End Outcome.
Export Outcome.

(* ------------------------------------------------------------------ *)
(** ** The rendered pages and the capabilities taken from libraries *)

Module Dom.

Record Element : Type := {
  attrs : list (string * jstring);
  textContent : option jstring;
  innerHTML : jstring
}.

(** [el.getAttribute(name)] *)
Fixpoint lookupAttr (name : string) (l : list (string * jstring))
  : option jstring :=
  match l with
  | [] => None
  | (k, v) :: l' => if String.eqb k name then Some v else lookupAttr name l'
  end.

Definition getAttribute (el : Element) (name : string) : option jstring :=
  lookupAttr name (attrs el).

(** A rendered page answers selector queries: [querySelectorAll] gives the
    matching elements in document order.  [rejects sel] tells that a driver
    call with this selector ([page.$], [page.$$eval]) rejects, and
    [evaluateRejects] that [page.evaluate] does. *)
Record Page : Type := {
  querySelectorAll : string -> list Element;
  rejects : string -> bool;
  evaluateRejects : bool;
  documentTitle : jstring
}.

Definition querySelector (page : Page) (sel : string) : option Element :=
  hd_error (querySelectorAll page sel).

(** What the browser driver does with a tab: whether [browser.newPage()],
    [page.setUserAgent(...)], [page.setViewport(...)] and [page.close()]
    resolve. *)
Record Tab : Type := {
  opens : bool;
  acceptsUserAgent : bool;
  acceptsViewport : bool;
  closes : bool
}.

(** The world outside: whether the browser launches, what happens to the tab
    that is opened for a URL, what navigating to a URL renders ([None]: the
    navigation rejects), and whether [browser.close()] resolves.  The
    answers are those of one request: a call that is repeated within it gets
    the same answer. *)
Record World : Type := {
  launches : bool;
  tab : jstring -> Tab;
  navigate : jstring -> option Page;
  closesBrowser : bool
}.

(** Library capabilities used by the scraper. *)
Record Externals : Type := {
  (** [cheerio.load(html)], removal of the elements matching the given
      selector list, then [$.text()] *)
  htmlToText : string -> jstring -> jstring;
  (** [String.prototype.toLowerCase] *)
  toLowerCase : jstring -> jstring;
  (** [new URL(href, base).toString()]; [None] when the constructor throws *)
  resolveUrl : jstring -> jstring -> option jstring
}.

End Dom.
Export Dom.

(* ------------------------------------------------------------------ *)
(** ** services/WebScraperService.ts *)

Module WebScraperService.
Import RegExp Article.

(** A double-quoted CSS attribute value. *)
Definition q (s : string) : string :=
  let dq := String (ascii_of_nat 34) EmptyString in
  (dq ++ s ++ dq)%string.

Definition baseUrl : jstring := lit "https://beyondchats.com/blogs".

(** [this.browser]: is a browser instance held? *)
Record Service : Type := { browser : bool }.

(** [[...new Set(links)]]: a [Set] keeps its elements in insertion order. *)
Definition setAdd (seen : list jstring) (x : jstring) : list jstring :=
  if existsb (jstring_eqb x) seen then seen else seen ++ [x].

Definition uniq (l : list jstring) : list jstring := fold_left setAdd l [].

(** The integer that a run of decimal digits denotes. *)
Definition parseDigits (s : jstring) : N :=
  fold_left (fun acc c => if is_digit c then (10 * acc + (c - 48))%N else acc)
    s 0%N.

(** [parseInt] of a run of decimal digits: the Number nearest to the integer
    that it denotes. *)
Definition parseInt (s : jstring) : Number := nearestNumber (parseDigits s).

(** [/\d+/] *)
Definition re_digits : regex := plus digit.

Section Service.
Variable ext : Externals.
Variable world : World.

Definition initBrowser (st : Service) : Service * result unit :=
  if browser st then (st, Ok tt)
  else if launches world then ({| browser := true |}, Ok tt)
  else (st, Throw (BrowserError "launch")).

(** [closeBrowser]: when [browser.close()] rejects, the rejection goes to
    the caller and [this.browser] stays set. *)
Definition closeBrowser (st : Service) : Service * result unit :=
  if browser st then
    if closesBrowser world then ({| browser := false |}, Ok tt)
    else (st, Throw (BrowserError "browser.close"))
  else (st, Ok tt).

(** *** findLastPage *)

Definition paginationSelectors : list string :=
  [ ("a[aria-label=" ++ q "Last page" ++ "]")%string;
    ".pagination a:last-child"%string;
    ".page-numbers:last-child"%string;
    ("a[title*=" ++ q "last" ++ "]")%string;
    ("a[title*=" ++ q "Last" ++ "]")%string ].

(** [href.startsWith('http') ? href : new URL(href, this.baseUrl).toString()] *)
Definition absolutize (href : jstring) : option jstring :=
  if startsWith href (lit "http") then Some href
  else resolveUrl ext href baseUrl.

(** The loop over [paginationSelectors]; anything thrown while a selector is
    tried is swallowed and the next selector is tried. *)
Fixpoint lastPageControl (page : Page) (sels : list string)
  : option jstring :=
  match sels with
  | [] => None
  | sel :: rest =>
      if rejects page sel then lastPageControl page rest
      else
        match querySelector page sel with
        | Some el =>
            match getAttribute el "href" with
            | Some href =>
                if truthy href then
                  match absolutize href with
                  | Some u => Some u
                  | None => lastPageControl page rest
                  end
                else lastPageControl page rest
            | None => lastPageControl page rest
            end
        | None => lastPageControl page rest
        end
  end.

Record PageLink : Type := {
  link_href : option jstring;
  link_text : option jstring
}.

Definition pageLinkOf (el : Element) : PageLink :=
  {| link_href := getAttribute el "href";
     link_text := option_map trim (textContent el) |}.

Definition text_or_empty (t : option jstring) : jstring :=
  match t with Some t => t | None => [] end.

(** [item.href && /\d+/.test(item.text || '')] *)
Definition isNumbered (item : PageLink) : bool :=
  match link_href item with
  | Some h => truthy h && test re_digits (text_or_empty (link_text item))
  | None => false
  end.

(** [parseInt(a.text?.match(/\d+/)?.[0] || '0')] *)
Definition pageNumber (item : PageLink) : Number :=
  match link_text item with
  | Some t =>
      match exec re_digits t with
      | Some m => parseInt (or_else m (lit "0"))
      | None => parseInt (lit "0")
      end
  | None => parseInt (lit "0")
  end.

(** [(a, b) => numB - numA] *)
Definition byPageNumberDesc (a b : PageLink) : Z :=
  subtract (pageNumber b) (pageNumber a).

Definition pageLinkSelector : string := ("a[href*=" ++ q "page" ++ "]")%string.

Definition pageNumbers (page : Page) : list PageLink :=
  sortBy byPageNumberDesc
    (filter isNumbered (map pageLinkOf (querySelectorAll page pageLinkSelector))).

Definition findLastPage (page : Page) : option jstring :=
  match lastPageControl page paginationSelectors with
  | Some u => Some u
  | None =>
      if rejects page pageLinkSelector then None
      else
        match pageNumbers page with
        | item :: _ =>
            match link_href item with
            | Some h => absolutize h
            | None => resolveUrl ext (lit "null") baseUrl
            end
        | [] => None
        end
  end.

(** *** extractArticleLinks *)

Definition articleSelectors : list string :=
  [ ("article a[href*=" ++ q "/blog" ++ "]")%string;
    ".blog-post a"%string;
    ".post-title a"%string;
    ("h2 a[href*=" ++ q "/blog" ++ "]")%string;
    ("h3 a[href*=" ++ q "/blog" ++ "]")%string;
    ".entry-title a"%string;
    ("a[href*=" ++ q "/blogs/" ++ "]")%string ].

Definition siteOrigin : jstring := lit "https://www.beyondchats.com".

Definition isBlogHref (h : option jstring) : bool :=
  match h with
  | Some h => truthy h && includes h (lit "/blog")
  | None => false
  end.

Definition toAbsolute (h : option jstring) : jstring :=
  match h with
  | Some h => if startsWith h (lit "http") then h else siteOrigin ++ h
  | None => siteOrigin ++ lit "null"
  end.

(** The callback of [page.$$eval(selector, ...)]. *)
Definition foundLinks (els : list Element) : list jstring :=
  map toAbsolute
    (filter isBlogHref (map (fun el => getAttribute el "href") els)).

Fixpoint firstStrategy (page : Page) (sels : list string) : list jstring :=
  match sels with
  | [] => []
  | sel :: rest =>
      if rejects page sel then firstStrategy page rest
      else
        let found := foundLinks (querySelectorAll page sel) in
        if 0 <? length found then found else firstStrategy page rest
  end.

Definition extractArticleLinks (page : Page) : list jstring :=
  uniq (firstStrategy page articleSelectors).

(** *** scrapeArticleContent *)

Definition titleSelectors : list string :=
  [ "h1"; ".post-title"; ".entry-title"; ".article-title"; "title" ]%string.

Definition contentSelectors : list string :=
  [ ".post-content"; ".entry-content"; ".article-content"; ".blog-content";
    "main article"; ".content" ]%string.

Definition dateSelectors : list string :=
  [ "time[datetime]"%string; ".post-date"%string; ".published"%string;
    ".entry-date"%string; ("[class*=" ++ q "date" ++ "]")%string ].

Record ArticleData : Type := {
  ad_title : jstring;
  ad_content : jstring;
  ad_publishedDate : option jstring
}.

(** The title loop: the first selector whose element has a non-blank text
    gives the title; otherwise the title stays empty. *)
Fixpoint firstTitle (page : Page) (sels : list string) : jstring :=
  match sels with
  | [] => []
  | sel :: rest =>
      match querySelector page sel with
      | Some el =>
          match option_map trim (textContent el) with
          | Some t => if truthy t then t else firstTitle page rest
          | None => firstTitle page rest
          end
      | None => firstTitle page rest
      end
  end.

(** The content loop assigns [content] for every selector that finds an
    element and stops at the first non-blank one. *)
Fixpoint firstContent (page : Page) (sels : list string) (content : jstring)
  : jstring :=
  match sels with
  | [] => content
  | sel :: rest =>
      match querySelector page sel with
      | Some el =>
          let content' :=
            or_else (innerHTML el)
              (or_else (text_or_empty (textContent el)) []) in
          if truthy (trim content') then content'
          else firstContent page rest content'
      | None => firstContent page rest content
      end
  end.

(** [a || b] where [a] may be [null]. *)
Definition or_opt (a b : option jstring) : option jstring :=
  match a with
  | Some x => if truthy x then a else b
  | None => b
  end.

Fixpoint firstDate (page : Page) (sels : list string)
  (publishedDate : option jstring) : option jstring :=
  match sels with
  | [] => publishedDate
  | sel :: rest =>
      match querySelector page sel with
      | Some el =>
          let d :=
            or_opt (getAttribute el "datetime")
              (or_opt (getAttribute el "content")
                 (or_opt (option_map trim (textContent el)) None)) in
          match d with
          | Some _ => d
          | None => firstDate page rest d
          end
      | None => firstDate page rest publishedDate
      end
  end.

(** The function run inside the page by [page.evaluate]. *)
Definition evaluateArticle (page : Page) : ArticleData :=
  let title := firstTitle page titleSelectors in
  let content := firstContent page contentSelectors [] in
  let publishedDate := firstDate page dateSelectors None in
  {| ad_title := or_else title (or_else (documentTitle page) (lit "Untitled"));
     ad_content := or_else content [];
     ad_publishedDate := publishedDate |}.

(** *** cleanArticleContent *)

Definition unwantedSelectors : string :=
  "script, style, nav, header, footer, aside, .advertisement, .ads"%string.

(** [/\n\s*\n/] *)
Definition re_blank_lines : regex := Seq (chr "010") (Seq (Star space) (chr "010")).

(** The whitespace clean-up applied to the extracted text. *)
Definition normalizeWhitespace (t : jstring) : jstring :=
  trim
    (replaceAll re_blank_lines (lit (String "010" (String "010" EmptyString)))
       (replaceAll re_spaces (lit " ") t)).

Definition cleanArticleContent (content : jstring) : jstring :=
  normalizeWhitespace (htmlToText ext unwantedSelectors content).

(** *** extractTags *)

Definition commonTags : list jstring :=
  map lit
    [ "ai"; "chatbot"; "automation"; "customer service"; "technology";
      "business"; "marketing"; "support"; "communication"; "digital";
      "innovation"; "software"; "platform"; "solution"; "analytics" ]%string.

Definition extractTags (title content : jstring) : list jstring :=
  let text := toLowerCase ext (title ++ lit " " ++ content) in
  filter (fun tag => includes text tag) commonTags.

(** The minimum length of a cleaned article body. *)
Definition minContentLength : nat := 100.
(** The longest title the [title] column takes. *)
Definition maxTitleLength : nat := 500.

(** Validation, cleaning and assembly of the candidate, once the page has
    been evaluated. *)
Definition candidateOf (url : jstring) (articleData : ArticleData)
  : option CreateArticleData :=
  if negb (truthy (ad_title articleData))
     || negb (truthy (ad_content articleData))
  then None
  else
    let cleanContent := cleanArticleContent (ad_content articleData) in
    if length cleanContent <? minContentLength then None
    else
      Some {| new_title := substring0 maxTitleLength (ad_title articleData);
              new_content := cleanContent;
              new_url := url;
              new_tags :=
                Some (extractTags (ad_title articleData) cleanContent) |}.

(** The [try] block of [scrapeArticleContent] once the tab is open, with its
    [catch]: every failure is turned into [null]. *)
Definition extractArticle (url : jstring) : option CreateArticleData :=
  if acceptsUserAgent (tab world url) then
    match navigate world url with
    | None => None
    | Some page =>
        if evaluateRejects page then None
        else candidateOf url (evaluateArticle page)
    end
  else None.

(** [scrapeArticleContent]: a failure to launch the browser or to open the
    tab is caught as well, with no tab to close; otherwise the [finally]
    block closes the tab, and when [page.close()] rejects, this rejection
    takes the place of the result. *)
Definition scrapeArticleContent (st : Service) (url : jstring)
  : Service * result (option CreateArticleData) :=
  match initBrowser st with
  | (st', Throw _) => (st', Ok None)
  | (st', Ok _) =>
      if opens (tab world url) then
        if closes (tab world url) then (st', Ok (extractArticle url))
        else (st', Throw (BrowserError "page.close"))
      else (st', Ok None)
  end.

(** [scrapeArticle]: the single-URL entry point; what it catches it throws
    again. *)
Definition scrapeArticle (st : Service) (url : jstring)
  : Service * result (option CreateArticleData) :=
  scrapeArticleContent st url.

(** *** scrapeOldestArticles *)

(** How many links of the last page are scraped. *)
Definition articlesPerRun : nat := 5.

Fixpoint scrapeEach (st : Service) (links : list jstring)
  (scrapedArticles : list CreateArticleData)
  : Service * list CreateArticleData :=
  match links with
  | [] => (st, scrapedArticles)
  | link :: rest =>
      match scrapeArticleContent st link with
      | (st', Ok (Some article)) =>
          scrapeEach st' rest (scrapedArticles ++ [article])
      | (st', Ok None) => scrapeEach st' rest scrapedArticles
      | (st', Throw _) => scrapeEach st' rest scrapedArticles
      end
  end.

(** The page shown after the optional jump to the last listing page. *)
Definition listingPage (page : Page) : result Page :=
  match findLastPage page with
  | Some lastPageUrl =>
      if truthy lastPageUrl && negb (jstring_eqb lastPageUrl baseUrl) then
        match navigate world lastPageUrl with
        | Some page' => Ok page'
        | None => Throw (BrowserError "goto")
        end
      else Ok page
  | None => Ok page
  end.

(** The [try] block of [scrapeOldestArticles] once the tab is open. *)
Definition scrapeListing (st : Service)
  : Service * result (list CreateArticleData) :=
  if negb (acceptsUserAgent (tab world baseUrl))
  then (st, Throw (BrowserError "page.setUserAgent"))
  else if negb (acceptsViewport (tab world baseUrl))
  then (st, Throw (BrowserError "page.setViewport"))
  else
    match navigate world baseUrl with
    | None => (st, Throw (BrowserError "goto"))
    | Some page =>
        match listingPage page with
        | Throw e => (st, Throw e)
        | Ok page' =>
            let articleLinks := extractArticleLinks page' in
            let linksToScrape := firstn articlesPerRun articleLinks in
            let (st2, scrapedArticles) := scrapeEach st linksToScrape [] in
            (st2, Ok scrapedArticles)
        end
    end.

(** [scrapeOldestArticles]: what the [try] block throws is thrown again, and
    the [finally] block closes the tab when one was opened; when
    [page.close()] rejects, this rejection takes the place of the outcome. *)
Definition scrapeOldestArticles (st : Service)
  : Service * result (list CreateArticleData) :=
  match initBrowser st with
  | (st1, Throw e) => (st1, Throw e)
  | (st1, Ok _) =>
      if opens (tab world baseUrl) then
        let (st2, outcome) := scrapeListing st1 in
        if closes (tab world baseUrl) then (st2, outcome)
        else (st2, Throw (BrowserError "page.close"))
      else (st1, Throw (BrowserError "browser.newPage"))
  end.

End Service.

(** *** checkRobotsTxt *)

Section Robots.
Variable ext : Externals.
(** [axios.get(url, { timeout: 5000 })] and the read of [response.data] as
    text: [None] when the request rejects or the body is no string. *)
Variable httpGet : jstring -> option jstring.

(** Whatever is thrown inside is caught and answered with [true]. *)
Definition checkRobotsTxt (baseUrl : jstring) : bool :=
  match resolveUrl ext (lit "/robots.txt") baseUrl with
  | None => true
  | Some robotsUrl =>
      match httpGet robotsUrl with
      | None => true
      | Some data =>
          let robotsContent := toLowerCase ext data in
          let userAgentSection := includes robotsContent (lit "user-agent: *") in
          let disallowAll := includes robotsContent (lit "disallow: /") in
          if userAgentSection && disallowAll then false else true
      end
  end.

End Robots.
End WebScraperService.

(* ------------------------------------------------------------------ *)
(** ** repositories/ArticleRepository.ts over the [articles] table *)

Module ArticleRepository.
Import Article JSON.

(** A row of [articles], with the columns of the [CREATE TABLE] statement.
    The [tags] column holds a JSON document, written from the text of
    [JSON.stringify(tags)]; it is represented by the array of strings that
    the document is, and [None] is [NULL]. *)
Record Row : Type := {
  row_id : jstring;
  row_title : jstring;
  row_content : jstring;
  row_url : jstring;
  scraped_date : N;
  enhanced_content : option jstring;
  is_enhanced : bool;
  word_count : N;
  reading_time : N;
  row_tags : option (list jstring);
  created_at : N;
  updated_at : N
}.

Record Database : Type := {
  articles : list Row;
  clock : N                 (* [CURRENT_TIMESTAMP] *)
}.

(** What the database server and its driver decide: on an insert, the value
    of [DEFAULT (UUID())] for the new row and the [insertId] that the driver
    reports for the statement; on a read, whether a JSON column is handed
    over as its text ([jsonStrings]: the option of that name of the driver,
    or a server that keeps such a column as text) or as the decoded value,
    which is what the driver does with the options of [connection.ts].
    [syntaxMessage] is the message of the [SyntaxError] that [JSON.parse]
    throws on a text. *)
Record Engine : Type := {
  uuid : Database -> jstring;
  reportedInsertId : Database -> N;
  jsonStrings : bool;
  syntaxMessage : jstring -> string
}.

Record ResultSetHeader : Type := {
  insertId : N;
  affectedRows : N
}.

(** [n.toString()] *)
Definition toString (n : N) : jstring :=
  lit (DecimalString.NilEmpty.string_of_uint (N.to_uint n)).

Section Repository.
Variable engine : Engine.

(** The row built by
    [INSERT INTO articles (title, content, url, word_count, reading_time, tags)],
    the other columns taking their defaults. *)
Definition newRow (db : Database) (title content url : jstring)
  (wordCount readingTime : N) (tags : list jstring) : Row :=
  {| row_id := uuid engine db;
     row_title := title;
     row_content := content;
     row_url := url;
     scraped_date := clock db;
     enhanced_content := None;
     is_enhanced := false;
     word_count := wordCount;
     reading_time := readingTime;
     row_tags := Some tags;
     created_at := clock db;
     updated_at := clock db |}.

(** [id] is the primary key and [url] is declared [UNIQUE]: a row that
    repeats either is refused. *)
Definition conflicts (row r : Row) : bool :=
  jstring_eqb (row_id r) (row_id row) || jstring_eqb (row_url r) (row_url row).

Definition executeInsert (db : Database) (row : Row)
  : Database * result ResultSetHeader :=
  if existsb (conflicts row) (articles db)
  then (db, Throw (DbError "ER_DUP_ENTRY"))
  else
    ({| articles := articles db ++ [row]; clock := clock db |},
     Ok {| insertId := reportedInsertId engine db; affectedRows := 1 |}).

(** What [row.tags] is for a document that is an array of strings: the text
    of the document, or the array itself.  (A server renders the text with
    blanks after the commas, which [JSON.parse] skips.) *)
Inductive Handed : Type :=
| AsText (text : jstring)
| AsArray (items : list jstring).

Definition handed (items : list jstring) : Handed :=
  if jsonStrings engine then AsText (stringify items) else AsArray items.

(** [JSON.parse(row.tags)]: an argument that is no string is turned into one
    first, an array into its items joined by commas. *)
Definition parseTags (h : Handed) : result Json :=
  let text := match h with AsText t => t | AsArray items => toText items end in
  match JSON.parse text with
  | Some v => Ok v
  | None => Throw (SyntaxError (syntaxMessage engine text))
  end.

(** [row.tags ? JSON.parse(row.tags) : []]: [null] is falsy, a string is
    falsy when it is empty, and an array is truthy. *)
Definition tagsOf (row : Row) : result Json :=
  match row_tags row with
  | None => Ok (JArray [])
  | Some items =>
      match handed items with
      | AsText t => if truthy t then parseTags (AsText t) else Ok (JArray [])
      | AsArray l => parseTags (AsArray l)
      end
  end.

Definition mapRowToArticle (row : Row) : result Article :=
  match tagsOf row with
  | Throw e => Throw e
  | Ok parsed =>
      Ok {| id := row_id row;
            title := row_title row;
            content := row_content row;
            url := row_url row;
            scrapedDate := scraped_date row;
            enhancedContent :=
              match enhanced_content row with
              | Some e => if truthy e then Some e else None
              | None => None
              end;
            isEnhanced := is_enhanced row;
            wordCount := word_count row;
            readingTime := reading_time row;
            tags := parsed;
            createdAt := created_at row;
            updatedAt := updated_at row |}
  end.

(** [results.length === 0 ? null : this.mapRowToArticle(results[0])] *)
Definition firstArticle (results : list Row) : result (option Article) :=
  match results with
  | [] => Ok None
  | row :: _ =>
      match mapRowToArticle row with
      | Ok a => Ok (Some a)
      | Throw e => Throw e
      end
  end.

(** [results.map(row => this.mapRowToArticle(row))]: the first row that
    cannot be mapped ends the mapping with its error. *)
Fixpoint mapRows (results : list Row) : result (list Article) :=
  match results with
  | [] => Ok []
  | row :: rest =>
      match mapRowToArticle row with
      | Throw e => Throw e
      | Ok a =>
          match mapRows rest with
          | Throw e => Throw e
          | Ok l => Ok (a :: l)
          end
      end
  end.

(** [SELECT ... WHERE id = ?] *)
Definition findById (db : Database) (id : jstring)
  : Database * result (option Article) :=
  (db, firstArticle (filter (fun r => jstring_eqb (row_id r) id) (articles db))).

(** [SELECT ... WHERE url = ?] *)
Definition findByUrl (db : Database) (url : jstring)
  : Database * result (option Article) :=
  (db, firstArticle (filter (fun r => jstring_eqb (row_url r) url) (articles db))).

(** [SELECT ... ORDER BY created_at DESC LIMIT ? OFFSET ?]; rows created at
    the same instant come in table order. *)
Definition findAll (db : Database) (limit offset : nat)
  : Database * result (list Article) :=
  (db, mapRows
         (firstn limit
            (skipn offset
               (sortBy
                  (fun a b => (Z.of_N (created_at b) - Z.of_N (created_at a))%Z)
                  (articles db))))).


(** The parameters that [create] binds to its [INSERT] statement, as the row
    they make. *)
Definition insertedRow (db : Database) (data : CreateArticleData) : Row :=
  let sanitizedContent := sanitizeArticleContent (new_content data) in
  let wordCount := calculateWordCount sanitizedContent in
  let readingTime := calculateReadingTime wordCount in
  newRow db (trim (new_title data)) sanitizedContent (new_url data)
    wordCount readingTime
    (match new_tags data with Some t => t | None => [] end).

Definition create (db : Database) (data : CreateArticleData)
  : Database * result Article :=
  match executeInsert db (insertedRow db data) with
  | (db', Throw e) => (db', Throw e)
  | (db', Ok header) =>
      if (insertId header =? 0)%N
      then (db', Throw (JsError "Failed to create article - no ID returned"))
      else
        match findById db' (toString (insertId header)) with
        | (db'', Throw e) => (db'', Throw e)
        | (db'', Ok None) =>
            (db'', Throw (JsError "Failed to retrieve created article"))
        | (db'', Ok (Some createdArticle)) => (db'', Ok createdArticle)
        end
  end.

(** *** update *)

(** An entry of the [SET] list of an [UPDATE articles] statement, with the
    parameter bound to it. *)
Inductive Assignment : Type :=
| SetTitle (v : jstring)                 (* [title = ?] *)
| SetContent (v : jstring)               (* [content = ?] *)
| SetWordCount (v : N)                   (* [word_count = ?] *)
| SetReadingTime (v : N)                 (* [reading_time = ?] *)
| SetEnhancedContent (v : jstring)       (* [enhanced_content = ?] *)
| SetIsEnhanced (v : bool)               (* [is_enhanced = ?] *)
| SetTags (v : list jstring)             (* [tags = ?] *)
| SetUpdatedAtNow.                       (* [updated_at = CURRENT_TIMESTAMP] *)

Definition assign (db : Database) (r : Row) (a : Assignment) : Row :=
  {| row_id := row_id r;
     row_title := match a with SetTitle v => v | _ => row_title r end;
     row_content := match a with SetContent v => v | _ => row_content r end;
     row_url := row_url r;
     scraped_date := scraped_date r;
     enhanced_content :=
       match a with SetEnhancedContent v => Some v | _ => enhanced_content r end;
     is_enhanced := match a with SetIsEnhanced v => v | _ => is_enhanced r end;
     word_count := match a with SetWordCount v => v | _ => word_count r end;
     reading_time := match a with SetReadingTime v => v | _ => reading_time r end;
     row_tags := match a with SetTags v => Some v | _ => row_tags r end;
     created_at := created_at r;
     updated_at := match a with SetUpdatedAtNow => clock db | _ => updated_at r end |}.

(** [WHERE id = ?] *)
Definition hasId (id : jstring) (r : Row) : bool := jstring_eqb (row_id r) id.

(** [UPDATE articles SET ... WHERE id = ?].  The driver reports the number of
    rows that the [WHERE] clause matched as [affectedRows]. *)
Definition executeUpdate (db : Database) (updates : list Assignment)
  (id : jstring) : Database * result ResultSetHeader :=
  ({| articles :=
        map (fun r => if hasId id r then fold_left (assign db) updates r else r)
          (articles db);
      clock := clock db |},
   Ok {| insertId := 0;
         affectedRows := N.of_nat (length (filter (hasId id) (articles db))) |}).

(** The [updates] and [params] arrays that [update] fills from the fields
    that are defined. *)
Definition updatesOf (data : UpdateArticleData) : list Assignment :=
  (match upd_title data with
   | Some title => [SetTitle (trim title)]
   | None => []
   end)
  ++ (match upd_content data with
      | Some content =>
          let sanitizedContent := sanitizeArticleContent content in
          let wordCount := calculateWordCount sanitizedContent in
          let readingTime := calculateReadingTime wordCount in
          [SetContent sanitizedContent; SetWordCount wordCount;
           SetReadingTime readingTime]
      | None => []
      end)
  ++ (match upd_enhancedContent data with
      | Some enhancedContent =>
          [SetEnhancedContent enhancedContent; SetIsEnhanced true]
      | None => []
      end)
  ++ (match upd_tags data with
      | Some tags => [SetTags tags]
      | None => []
      end).

Definition update (db : Database) (id : jstring) (data : UpdateArticleData)
  : Database * result (option Article) :=
  let updates := updatesOf data in
  if (length updates =? 0)%nat
  then (db, Throw (JsError "No fields to update"))
  else
    match executeUpdate db (updates ++ [SetUpdatedAtNow]) id with
    | (db', Throw e) => (db', Throw e)
    | (db', Ok header) =>
        if (affectedRows header =? 0)%N then (db', Ok None)
        else findById db' id
    end.

(** *** delete *)

(** [DELETE FROM articles WHERE id = ?] *)
Definition executeDelete (db : Database) (id : jstring)
  : Database * result ResultSetHeader :=
  ({| articles := filter (fun r => negb (hasId id r)) (articles db);
      clock := clock db |},
   Ok {| insertId := 0;
         affectedRows := N.of_nat (length (filter (hasId id) (articles db))) |}).

Definition delete (db : Database) (id : jstring) : Database * result bool :=
  match executeDelete db id with
  | (db', Throw e) => (db', Throw e)
  | (db', Ok header) => (db', Ok (0 <? affectedRows header)%N)
  end.

(** *** findUnenhanced *)

(** [SELECT ... WHERE is_enhanced = FALSE ORDER BY created_at ASC LIMIT ?];
    rows created at the same instant come in table order. *)
Definition findUnenhanced (db : Database) (limit : nat)
  : Database * result (list Article) :=
  (db, mapRows
         (firstn limit
            (sortBy
               (fun a b => (Z.of_N (created_at a) - Z.of_N (created_at b))%Z)
               (filter (fun r => negb (is_enhanced r)) (articles db))))).

End Repository.
End ArticleRepository.

(* ------------------------------------------------------------------ *)
(** ** database/connection.ts *)

Module Connection.

(** The calls made on the database driver. *)
Inductive Call : Type :=
| CreatePool                                        (* [mysql.createPool] *)
| GetConnection                                     (* [pool.getConnection()] *)
| Ping                                              (* [connection.ping()] *)
| Release                                           (* [connection.release()] *)
| Execute (query : jstring) (params : list jstring) (* [execute(query, params)] *)
| BeginTransaction
| Commit
| Rollback
| EndPool.                                          (* [pool.end()] *)

(** A call that was made, and whether it succeeded. *)
Definition Entry : Type := (Call * bool)%type.

(** The database server and the driver in front of it: which call succeeds
    after the calls made so far, and the rows (their first column) that a
    successful query returns. *)
Record Driver : Type := {
  succeeds : list Entry -> Call -> bool;
  rowsOf : list Entry -> jstring -> list jstring
}.

(** The module state: is the variable [pool] set, and the calls made on the
    driver so far. *)
Record Process : Type := {
  pool : bool;
  trace : list Entry
}.

(** A call that may reject. *)
Definition perform (drv : Driver) (c : Call) (p : Process) : Process * bool :=
  let ok := succeeds drv (trace p) c in
  ({| pool := pool p; trace := trace p ++ [(c, ok)] |}, ok).

(** A synchronous call that does not throw. *)
Definition note (c : Call) (p : Process) : Process :=
  {| pool := pool p; trace := trace p ++ [(c, true)] |}.

(** The error that a rejected call carries. *)
Definition rejected (c : Call) : Exn :=
  DbError
    match c with
    | CreatePool => "createPool"
    | GetConnection => "getConnection"
    | Ping => "ping"
    | Release => "release"
    | Execute _ _ => "execute"
    | BeginTransaction => "beginTransaction"
    | Commit => "commit"
    | Rollback => "rollback"
    | EndPool => "end"
    end.

Definition notInitialized : Exn :=
  JsError "Database not initialized. Call initializeDatabase() first.".

(** [initializeDatabase()]: the variable [pool] is assigned before the
    connection is tested. *)
Definition initializeDatabase (drv : Driver) (p : Process)
  : Process * result unit :=
  if pool p then (p, Ok tt)
  else
    let p1 := note CreatePool {| pool := true; trace := trace p |} in
    match perform drv GetConnection p1 with
    | (p2, false) => (p2, Throw (rejected GetConnection))
    | (p2, true) =>
        match perform drv Ping p2 with
        | (p3, false) => (p3, Throw (rejected Ping))
        | (p3, true) => (note Release p3, Ok tt)
        end
    end.

(** [getDatabase()] *)
Definition getDatabase (p : Process) : result unit :=
  if pool p then Ok tt else Throw notInitialized.

(** [executeQuery(query, params)] *)
Definition executeQuery (drv : Driver) (query : jstring) (params : list jstring)
  (p : Process) : Process * result (list jstring) :=
  match getDatabase p with
  | Throw e => (p, Throw e)
  | Ok _ =>
      match perform drv (Execute query params) p with
      | (p1, true) => (p1, Ok (rowsOf drv (trace p) query))
      | (p1, false) => (p1, Throw (rejected (Execute query params)))
      end
  end.

(** [executeTransaction(callback)].  The connection is acquired outside the
    [try] block; [catch] rolls back and rethrows, [finally] releases. *)
Definition executeTransaction (T : Type) (drv : Driver)
  (callback : Process -> Process * result T) (p : Process)
  : Process * result T :=
  match getDatabase p with
  | Throw e => (p, Throw e)
  | Ok _ =>
      match perform drv GetConnection p with
      | (p1, false) => (p1, Throw (rejected GetConnection))
      | (p1, true) =>
          let caught (q : Process) (error : Exn) : Process * result T :=
            match perform drv Rollback q with
            | (q1, true) => (note Release q1, Throw error)
            | (q1, false) => (note Release q1, Throw (rejected Rollback))
            end in
          match perform drv BeginTransaction p1 with
          | (p2, false) => caught p2 (rejected BeginTransaction)
          | (p2, true) =>
              match callback p2 with
              | (p3, Throw e) => caught p3 e
              | (p3, Ok result) =>
                  match perform drv Commit p3 with
                  | (p4, false) => caught p4 (rejected Commit)
                  | (p4, true) => (note Release p4, Ok result)
                  end
              end
          end
      end
  end.

(** [closeDatabase()] *)
Definition closeDatabase (drv : Driver) (p : Process) : Process * result unit :=
  if pool p then
    match perform drv EndPool p with
    | (p1, true) => ({| pool := false; trace := trace p1 |}, Ok tt)
    | (p1, false) => (p1, Throw (rejected EndPool))
    end
  else (p, Ok tt).

(** [checkDatabaseHealth()]: every failure is answered with [false]. *)
Definition checkDatabaseHealth (drv : Driver) (p : Process) : Process * bool :=
  match getDatabase p with
  | Throw _ => (p, false)
  | Ok _ =>
      match perform drv GetConnection p with
      | (p1, false) => (p1, false)
      | (p1, true) =>
          match perform drv Ping p1 with
          | (p2, false) => (p2, false)
          | (p2, true) => (note Release p2, true)
          end
      end
  end.

End Connection.

(* ------------------------------------------------------------------ *)
(** ** database/migrations.ts and database/init.ts *)

Module Migrations.
Import Connection.

Record Migration : Type := {
  version : jstring;
  description : jstring;
  sql : jstring
}.

Definition createTableQuery : jstring :=
  lit "
    CREATE TABLE IF NOT EXISTS migrations (
      id INT AUTO_INCREMENT PRIMARY KEY,
      version VARCHAR(50) NOT NULL UNIQUE,
      description VARCHAR(255) NOT NULL,
      executed_at TIMESTAMP DEFAULT CURRENT_TIMESTAMP,
      INDEX idx_version (version)
    )
  ".

Definition selectVersions : jstring :=
  lit "SELECT version FROM migrations ORDER BY executed_at".

Definition insertVersion : jstring :=
  lit "INSERT INTO migrations (version, description) VALUES (?, ?)".

Definition createMigrationsTable (drv : Driver) (p : Process)
  : Process * result unit :=
  match executeQuery drv createTableQuery [] p with
  | (p1, Ok _) => (p1, Ok tt)
  | (p1, Throw e) => (p1, Throw e)
  end.

(** A query that fails is answered with the empty list. *)
Definition getExecutedMigrations (drv : Driver) (p : Process)
  : Process * list jstring :=
  match executeQuery drv selectVersions [] p with
  | (p1, Ok results) => (p1, results)
  | (p1, Throw _) => (p1, [])
  end.

(** [migration.sql.split(';').filter(stmt => stmt.trim())] *)
Definition statementsOf (sql : jstring) : list jstring :=
  filter (fun stmt => truthy (trim stmt)) (splitChar 59 sql).

(** The loop [for (const statement of statements)] on the connection. *)
Fixpoint executeStatements (drv : Driver) (statements : list jstring)
  (c : Process) : Process * result unit :=
  match statements with
  | [] => (c, Ok tt)
  | statement :: rest =>
      if truthy (trim statement) then
        match perform drv (Execute statement []) c with
        | (c1, true) => executeStatements drv rest c1
        | (c1, false) => (c1, Throw (rejected (Execute statement [])))
        end
      else executeStatements drv rest c
  end.

(** The callback that [executeMigration] hands to [executeTransaction]. *)
Definition migrationBody (drv : Driver) (migration : Migration) (c : Process)
  : Process * result unit :=
  match executeStatements drv (statementsOf (sql migration)) c with
  | (c1, Throw e) => (c1, Throw e)
  | (c1, Ok _) =>
      let record :=
        Execute insertVersion [version migration; description migration] in
      match perform drv record c1 with
      | (c2, true) => (c2, Ok tt)
      | (c2, false) => (c2, Throw (rejected record))
      end
  end.

Definition executeMigration (drv : Driver) (migration : Migration)
  (p : Process) : Process * result unit :=
  executeTransaction drv (migrationBody drv migration) p.

Definition schemaVersion : jstring := lit "001_initial_schema".

(** [loadSchemaMigration()]; [schemaFile] is the text of [schema.sql], [None]
    when the file cannot be read. *)
Definition loadSchemaMigration (schemaFile : option jstring)
  : result Migration :=
  match schemaFile with
  | Some sql =>
      Ok {| version := schemaVersion;
            description :=
              lit "Create initial database schema with articles, references, and enhancement_requests tables";
            sql := sql |}
  | None => Throw (JsError "readFile")
  end.

(** The loop [for (const migration of migrations)]. *)
Fixpoint runPending (drv : Driver) (executedMigrations : list jstring)
  (migrations : list Migration) (p : Process) : Process * result unit :=
  match migrations with
  | [] => (p, Ok tt)
  | migration :: rest =>
      if negb (existsb (jstring_eqb (version migration)) executedMigrations)
      then
        match executeMigration drv migration p with
        | (p1, Throw e) => (p1, Throw e)
        | (p1, Ok _) => runPending drv executedMigrations rest p1
        end
      else runPending drv executedMigrations rest p
  end.

Definition runMigrations (drv : Driver) (schemaFile : option jstring)
  (p : Process) : Process * result unit :=
  match createMigrationsTable drv p with
  | (p1, Throw e) => (p1, Throw e)
  | (p1, Ok _) =>
      let (p2, executedMigrations) := getExecutedMigrations drv p1 in
      match loadSchemaMigration schemaFile with
      | Throw e => (p2, Throw e)
      | Ok migration => runPending drv executedMigrations [migration] p2
      end
  end.

(** [availableMigrations.every(version => executedMigrations.includes(version))] *)
Definition checkMigrationStatus (drv : Driver) (p : Process) : Process * bool :=
  let (p1, executedMigrations) := getExecutedMigrations drv p in
  (p1,
   forallb (fun version => existsb (jstring_eqb version) executedMigrations)
     [schemaVersion]).

(** [initializeDatabaseSetup()] of database/init.ts.  [configCheck] is the
    outcome of [validateDatabaseConfig()]. *)
Definition initializeDatabaseSetup (configCheck : result unit) (drv : Driver)
  (schemaFile : option jstring) (p : Process) : Process * result unit :=
  match configCheck with
  | Throw e => (p, Throw e)
  | Ok _ =>
      match initializeDatabase drv p with
      | (p1, Throw e) => (p1, Throw e)
      | (p1, Ok _) => runMigrations drv schemaFile p1
      end
  end.

(** [shutdownDatabase()] *)
Definition shutdownDatabase (drv : Driver) (p : Process)
  : Process * result unit :=
  closeDatabase drv p.

End Migrations.

(* ------------------------------------------------------------------ *)
(** ** The two orchestrators of an ingestion run *)

Module Orchestration.
Import Article WebScraperService.

(** The repository as the orchestrators see it. *)
Record Repository (Store : Type) : Type := {
  repo_findByUrl : Store -> jstring -> Store * result (option Article);
  repo_create : Store -> CreateArticleData -> Store * result Article;
  repo_findAll : Store -> nat -> nat -> Store * result (list Article)
}.

(** [error instanceof Error ? error.message : 'Unknown error'] *)
Definition messageOf (e : Exn) : string :=
  match e with
  | JsError m => m
  | SyntaxError m => m
  | DbError code => code
  | BrowserError what => what
  end.

(** The log lines written while articles are stored. *)
Inductive LogEntry : Type :=
| ArticleAlreadyExists (what : jstring)
| SavedArticle (title : jstring)
| ErrorSavingArticle (title : jstring) (e : Exn).

Definition isAlreadyExists (l : LogEntry) : bool :=
  match l with ArticleAlreadyExists _ => true | _ => false end.

Definition isSavedArticle (l : LogEntry) : bool :=
  match l with SavedArticle _ => true | _ => false end.

Definition isErrorSaving (l : LogEntry) : bool :=
  match l with ErrorSavingArticle _ _ => true | _ => false end.

End Orchestration.

(** *** controllers/ScraperController.ts *)

Module ScraperController.
Import Article JSON WebScraperService Orchestration.

Record ErrorDetail : Type := {
  err_title : jstring;
  err_url : jstring;
  err_error : string
}.

Record ArticleSummary : Type := {
  sum_id : jstring;
  sum_title : jstring;
  sum_url : jstring;
  sum_wordCount : N;
  sum_readingTime : N;
  sum_tags : Json;
  sum_createdAt : N
}.

Definition summarize (a : Article) : ArticleSummary :=
  {| sum_id := id a; sum_title := title a; sum_url := url a;
     sum_wordCount := wordCount a; sum_readingTime := readingTime a;
     sum_tags := tags a; sum_createdAt := createdAt a |}.

(** The [data] object of the 200 response. *)
Record RunData : Type := {
  scraped : N;
  saved : N;
  errors : N;
  data_articles : list ArticleSummary;
  errorDetails : list ErrorDetail
}.

Record Response : Type := {
  status : N;
  success : bool;
  data : option RunData;
  error : option string
}.

(** What handling a request leaves behind: the service and the store after
    it, the lines logged while storing, and the response sent. *)
Record Handled (Store : Type) : Type := {
  service_after : Service;
  store_after : Store;
  logged : list LogEntry;
  response : Response
}.

(** The response of [scrapeSingleArticle]. *)
Record ArticleResponse : Type := {
  art_status : N;
  art_success : bool;
  art_message : string;
  art_data : option ArticleSummary;
  art_error : option string
}.

(** What handling a single-article request leaves behind. *)
Record Answered (Store : Type) : Type := {
  browser_after : Service;
  articles_after : Store;
  answer : ArticleResponse
}.

(** The [data] object of the statistics response. *)
Record Stats : Type := {
  totalArticles : N;
  unenhancedCount : N;
  lastScrapedAt : option N
}.

Record StatsResponse : Type := {
  stats_status : N;
  stats_success : bool;
  stats_data : option Stats;
  stats_error : option string
}.

Section Controller.
Variable ext : Externals.
Variable world : World.
Variable Store : Type.
Variable repo : Repository Store.

(** The state threaded through the storing loop. *)
Record Tally : Type := {
  store : Store;
  savedArticles : list Article;
  errorList : list ErrorDetail;
  log : list LogEntry
}.

Definition recordError (t : Tally) (s : Store) (articleData : CreateArticleData)
  (e : Exn) : Tally :=
  {| store := s;
     savedArticles := savedArticles t;
     errorList :=
       errorList t ++
       [ {| err_title := new_title articleData;
            err_url := new_url articleData;
            err_error := messageOf e |} ];
     log := log t ++ [ErrorSavingArticle (new_title articleData) e] |}.

(** One iteration of [for (const articleData of scrapedArticles)]. *)
Definition storeOne (t : Tally) (articleData : CreateArticleData) : Tally :=
  match repo_findByUrl repo (store t) (new_url articleData) with
  | (s1, Throw e) => recordError t s1 articleData e
  | (s1, Ok (Some existingArticle)) =>
      {| store := s1;
         savedArticles := savedArticles t ++ [existingArticle];
         errorList := errorList t;
         log := log t ++ [ArticleAlreadyExists (new_url articleData)] |}
  | (s1, Ok None) =>
      match repo_create repo s1 articleData with
      | (s2, Ok savedArticle) =>
          {| store := s2;
             savedArticles := savedArticles t ++ [savedArticle];
             errorList := errorList t;
             log := log t ++ [SavedArticle (title savedArticle)] |}
      | (s2, Throw e) => recordError t s2 articleData e
      end
  end.

Definition storeAll (s : Store) (scrapedArticles : list CreateArticleData)
  : Tally :=
  fold_left storeOne scrapedArticles
    {| store := s; savedArticles := []; errorList := []; log := [] |}.

Definition lengthOf (A : Type) (l : list A) : N := N.of_nat (length l).

(** [scrapeOldestArticles(req, res)].  [robotsAllowed] is the constant
    [true], so the 403 branch is dead.  The [catch] block calls
    [closeBrowser] inside a [try] of its own, which only logs what that call
    throws. *)
Definition scrapeOldestArticles (st : Service) (s : Store) : Handled Store :=
  let failed (st' : Service) (s' : Store) (lg : list LogEntry) (e : Exn) :=
    {| service_after := fst (closeBrowser world st'); store_after := s';
       logged := lg;
       response :=
         {| status := 500; success := false; data := None;
            error := Some (messageOf e) |} |} in
  match WebScraperService.scrapeOldestArticles ext world st with
  | (st1, Throw e) => failed st1 s [] e
  | (st1, Ok scrapedArticles) =>
      if (length scrapedArticles =? 0)%nat then
        {| service_after := st1; store_after := s; logged := [];
           response :=
             {| status := 404; success := false; data := None;
                error := None |} |}
      else
        let t := storeAll s scrapedArticles in
        match closeBrowser world st1 with
        | (st2, Throw e) => failed st2 (store t) (log t) e
        | (st2, Ok _) =>
            {| service_after := st2; store_after := store t;
               logged := log t;
               response :=
                 {| status := 200; success := true;
                    data :=
                      Some {| scraped := lengthOf scrapedArticles;
                              saved := lengthOf (savedArticles t);
                              errors := lengthOf (errorList t);
                              data_articles := map summarize (savedArticles t);
                              errorDetails := errorList t |};
                    error := None |} |}
        end
  end.

(** [new URL(url)] does not throw. *)
Variable parsesAsUrl : jstring -> bool.

(** [scrapeSingleArticle(req, res)].  [url] is [req.body.url] when it is a
    string, and [None] when the field is missing or holds something else.
    The [catch] block calls [closeBrowser] inside a [try] of its own. *)
Definition scrapeSingleArticle (st : Service) (s : Store) (url : option jstring)
  : Answered Store :=
  let badRequest (message : string) :=
    {| browser_after := st; articles_after := s;
       answer := {| art_status := 400; art_success := false;
                    art_message := message; art_data := None;
                    art_error := None |} |} in
  let failed (st' : Service) (s' : Store) (e : Exn) :=
    {| browser_after := fst (closeBrowser world st'); articles_after := s';
       answer := {| art_status := 500; art_success := false;
                    art_message := "Internal server error during article scraping";
                    art_data := None; art_error := Some (messageOf e) |} |} in
  match url with
  | None => badRequest "URL is required and must be a string"%string
  | Some url =>
      if negb (truthy url) then badRequest "URL is required and must be a string"%string
      else if negb (parsesAsUrl url) then badRequest "Invalid URL format"%string
      else
        match repo_findByUrl repo s url with
        | (s1, Throw e) => failed st s1 e
        | (s1, Ok (Some existingArticle)) =>
            {| browser_after := st; articles_after := s1;
               answer := {| art_status := 200; art_success := true;
                            art_message := "Article already exists in database";
                            art_data := Some (summarize existingArticle);
                            art_error := None |} |}
        | (s1, Ok None) =>
            match scrapeArticle ext world st url with
            | (st1, Throw e) => failed st1 s1 e
            | (st1, Ok None) =>
                {| browser_after := st1; articles_after := s1;
                   answer :=
                     {| art_status := 404; art_success := false;
                        art_message :=
                          "Could not extract article content from the provided URL";
                        art_data := None; art_error := None |} |}
            | (st1, Ok (Some scrapedArticle)) =>
                match repo_create repo s1 scrapedArticle with
                | (s2, Throw e) => failed st1 s2 e
                | (s2, Ok savedArticle) =>
                    match closeBrowser world st1 with
                    | (st2, Throw e) => failed st2 s2 e
                    | (st2, Ok _) =>
                        {| browser_after := st2; articles_after := s2;
                           answer :=
                             {| art_status := 201; art_success := true;
                                art_message :=
                                  "Article scraped and saved successfully";
                                art_data := Some (summarize savedArticle);
                                art_error := None |} |}
                    end
                end
            end
        end
  end.

(** [articleRepository.count()] *)
Variable countArticles : Store -> Store * result N.

(** [getScrapingStats(req, res)] *)
Definition getScrapingStats (s : Store) : Store * StatsResponse :=
  match countArticles s with
  | (s1, Ok totalArticles) =>
      (s1, {| stats_status := 200; stats_success := true;
              stats_data := Some {| totalArticles := totalArticles;
                                    unenhancedCount := 0;
                                    lastScrapedAt := None |};
              stats_error := None |})
  | (s1, Throw e) =>
      (s1, {| stats_status := 500; stats_success := false; stats_data := None;
              stats_error := Some (messageOf e) |})
  end.

End Controller.
End ScraperController.

(** *** scripts/scrapeArticles.ts *)

Module ScrapeArticlesScript.
Import Article JSON WebScraperService Orchestration.

(** The counters of the summary line. *)
Record Summary : Type := {
  savedCount : N;
  skippedCount : N;
  errorCount : N
}.

(** How [main] ends: it returns, or the process exits with a code before the
    [finally] block runs. *)
Inductive Ending : Type :=
| Returned
| Exited (code : N).

Record Run : Type := {
  ending : Ending;
  found : option N;               (* "Found n articles to process" *)
  summary : option Summary        (* "Summary: ..." *)
}.

Record Finished (Store : Type) : Type := {
  service_after : Service;
  store_after : Store;
  run : Run
}.

Section Script.
Variable ext : Externals.
Variable world : World.
Variable Store : Type.
Variable repo : Repository Store.
(** The outcome of [initializeDatabaseSetup()]. *)
Variable databaseSetup : result unit.

Record Counters : Type := {
  store : Store;
  counts : Summary;
  log : list LogEntry
}.

Definition bump_saved (c : Summary) : Summary :=
  {| savedCount := savedCount c + 1; skippedCount := skippedCount c;
     errorCount := errorCount c |}.
Definition bump_skipped (c : Summary) : Summary :=
  {| savedCount := savedCount c; skippedCount := skippedCount c + 1;
     errorCount := errorCount c |}.
Definition bump_error (c : Summary) : Summary :=
  {| savedCount := savedCount c; skippedCount := skippedCount c;
     errorCount := errorCount c + 1 |}.

(** One iteration of [for (const articleData of scrapedArticles)]. *)
Definition storeOne (t : Counters) (articleData : CreateArticleData)
  : Counters :=
  match repo_findByUrl repo (store t) (new_url articleData) with
  | (s1, Throw e) =>
      {| store := s1; counts := bump_error (counts t);
         log := log t ++ [ErrorSavingArticle (new_title articleData) e] |}
  | (s1, Ok (Some existingArticle)) =>
      {| store := s1; counts := bump_skipped (counts t);
         log := log t ++ [ArticleAlreadyExists (new_title articleData)] |}
  | (s1, Ok None) =>
      match repo_create repo s1 articleData with
      | (s2, Ok savedArticle) =>
          {| store := s2; counts := bump_saved (counts t);
             log := log t ++ [SavedArticle (title savedArticle)] |}
      | (s2, Throw e) =>
          {| store := s2; counts := bump_error (counts t);
             log := log t ++ [ErrorSavingArticle (new_title articleData) e] |}
      end
  end.

Definition storeAll (s : Store) (scrapedArticles : list CreateArticleData)
  : Counters :=
  fold_left storeOne scrapedArticles
    {| store := s;
       counts := {| savedCount := 0; skippedCount := 0; errorCount := 0 |};
       log := [] |}.

(** [article.tags.join(', ')] is a call: it throws a [TypeError] unless the
    tags are an array. *)
Definition hasJoin (a : Article) : bool :=
  match tags a with
  | JArray _ => true
  | _ => false
  end.

(** The [catch] block: [process.exit(1)] ends the process before the
    [finally] block runs. *)
Definition exited (st : Service) (s : Store) (n : option N)
  (c : option Summary) : Finished Store :=
  {| service_after := st; store_after := s;
     run := {| ending := Exited 1; found := n; summary := c |} |}.

(** The [finally] block closes the browser; when that call rejects, the
    rejection of [main()] is caught at the call site, which exits with code 1
    as well. *)
Definition finished (st : Service) (s : Store) (n : option N)
  (c : option Summary) : Finished Store :=
  match closeBrowser world st with
  | (st', Ok _) =>
      {| service_after := st'; store_after := s;
         run := {| ending := Returned; found := n; summary := c |} |}
  | (st', Throw _) => exited st' s n c
  end.

(** [main()].  [checkRobotsTxt] never throws and its answer only adds a
    warning to the log. *)
Definition main (st : Service) (s : Store) : Finished Store :=
  match databaseSetup with
  | Throw _ => exited st s None None
  | Ok _ =>
      match WebScraperService.scrapeOldestArticles ext world st with
      | (st1, Throw _) => exited st1 s None None
      | (st1, Ok scrapedArticles) =>
          if (length scrapedArticles =? 0)%nat then finished st1 s None None
          else
            let t := storeAll s scrapedArticles in
            let n := Some (N.of_nat (length scrapedArticles)) in
            let c := Some (counts t) in
            if (0 <? savedCount (counts t))%N then
              match repo_findAll repo (store t) 10 0 with
              | (s', Ok allArticles) =>
                  if forallb hasJoin
                       (firstn (N.to_nat (savedCount (counts t))) allArticles)
                  then finished st1 s' n c
                  else exited st1 s' n c
              | (s', Throw _) => exited st1 s' n c
              end
            else finished st1 (store t) n c
      end
  end.

End Script.
End ScrapeArticlesScript.

(* ------------------------------------------------------------------ *)
(** ** Reference notions that the properties are stated with *)

Module Spec.
Import Article JSON WebScraperService.

(** The whitespace-separated non-empty words of a text, in order; [cur] is
    the word being read. *)
Fixpoint wordsFrom (cur : jstring) (s : jstring) : list jstring :=
  match s with
  | [] => if truthy cur then [cur] else []
  | c :: s' =>
      if is_space c
      then (if truthy cur then cur :: wordsFrom [] s' else wordsFrom [] s')
      else wordsFrom (cur ++ [c]) s'
  end.

Definition words (s : jstring) : list jstring := wordsFrom [] s.

Definition isBlank (s : jstring) : bool := forallb is_space s.

(** Every run of whitespace replaced by one space; [inSpace] tells that the
    previous code unit was whitespace. *)
Fixpoint collapseFrom (inSpace : bool) (s : jstring) : jstring :=
  match s with
  | [] => []
  | c :: s' =>
      if is_space c
      then (if inSpace then collapseFrom true s' else 32%N :: collapseFrom true s')
      else c :: collapseFrom false s'
  end.

(** The only whitespace is single spaces between other code units. *)
Fixpoint singleSpaced (afterSpace : bool) (s : jstring) : bool :=
  match s with
  | [] => true
  | c :: s' =>
      if is_space c
      then (c =? 32)%N && negb afterSpace && singleSpaced true s'
      else singleSpaced false s'
  end.

(** The first occurrence of every element, in order of appearance. *)
Fixpoint firstOccurrences (l : list jstring) : list jstring :=
  match l with
  | [] => []
  | x :: l' =>
      x :: filter (fun y => negb (jstring_eqb y x)) (firstOccurrences l')
  end.

(** An absolute URL starts with a scheme, a letter followed by letters,
    digits, [+], [-] or [.], and a colon (RFC 3986). *)
Definition is_alpha (c : N) : bool :=
  ((65 <=? c) && (c <=? 90) || (97 <=? c) && (c <=? 122))%N.

Definition is_scheme_char (c : N) : bool :=
  is_alpha c || is_digit c || (c =? 43)%N || (c =? 45)%N || (c =? 46)%N.

Definition isAbsoluteUrl (u : jstring) : bool :=
  match u with
  | c :: u' =>
      is_alpha c &&
      match dropWhile is_scheme_char u' with
      | d :: _ => (d =? 58)%N
      | [] => false
      end
  | [] => false
  end.

(** A string of UTF-16 code units. *)
Definition codeUnits (s : jstring) : Prop := Forall (fun c => (c < 65536)%N) s.

(** The greatest integer below which every integer is a Number. *)
Definition maxSafeInteger : N := 9007199254740991.

(** The order of Numbers. *)
Definition Number_le (a b : Number) : Prop :=
  match a, b with
  | Finite x, Finite y => (x <= y)%N
  | _, Infinity => True
  | Infinity, Finite _ => False
  end.

(** The number of words of a text. *)
Definition countWords (s : jstring) : N := N.of_nat (length (words s)).

(** [minutes] is the ceiling of [n / 200]. *)
Definition ceilingOver200 (n minutes : N) : Prop :=
  (n <= 200 * minutes /\ forall m, n <= 200 * m -> minutes <= m)%N.

(** The derived columns of a row agree with its content. *)
Definition rowCounted (r : ArticleRepository.Row) : Prop :=
  ArticleRepository.word_count r = countWords (ArticleRepository.row_content r)
  /\ ceilingOver200 (ArticleRepository.word_count r)
       (ArticleRepository.reading_time r).


(** How many lines of a log are of a given kind. *)
Definition countLines (kind : Orchestration.LogEntry -> bool)
  (log : list Orchestration.LogEntry) : N :=
  N.of_nat (length (filter kind log)).

Definition createdCount := countLines Orchestration.isSavedArticle.
Definition duplicateCount := countLines Orchestration.isAlreadyExists.
Definition failedCount := countLines Orchestration.isErrorSaving.

Definition lines (kind : Orchestration.LogEntry -> bool)
  (log : list Orchestration.LogEntry) : nat :=
  length (filter kind log).

(** Every candidate seen by the controller lands in exactly one of its two
    lists and leaves one line in the log; [n] candidates have been seen. *)
Definition balanced (Store : Type) (t : ScraperController.Tally Store)
  (n : nat) : Prop :=
  length (ScraperController.log t) = n
  /\ length (ScraperController.savedArticles t)
     = lines Orchestration.isSavedArticle (ScraperController.log t)
       + lines Orchestration.isAlreadyExists (ScraperController.log t)
  /\ length (ScraperController.errorList t)
     = lines Orchestration.isErrorSaving (ScraperController.log t)
  /\ n = lines Orchestration.isSavedArticle (ScraperController.log t)
         + lines Orchestration.isAlreadyExists (ScraperController.log t)
         + lines Orchestration.isErrorSaving (ScraperController.log t).

(** The counters of the script after [n] candidates. *)
Definition tallied (Store : Type) (t : ScrapeArticlesScript.Counters Store)
  (n : nat) : Prop :=
  (N.of_nat n
   = ScrapeArticlesScript.savedCount (ScrapeArticlesScript.counts t)
     + ScrapeArticlesScript.skippedCount (ScrapeArticlesScript.counts t)
     + ScrapeArticlesScript.errorCount (ScrapeArticlesScript.counts t))%N
  /\ ScrapeArticlesScript.skippedCount (ScrapeArticlesScript.counts t)
     = N.of_nat (lines Orchestration.isAlreadyExists
                   (ScrapeArticlesScript.log t))
  /\ ScrapeArticlesScript.savedCount (ScrapeArticlesScript.counts t)
     = N.of_nat (lines Orchestration.isSavedArticle
                   (ScrapeArticlesScript.log t))
  /\ ScrapeArticlesScript.errorCount (ScrapeArticlesScript.counts t)
     = N.of_nat (lines Orchestration.isErrorSaving
                   (ScrapeArticlesScript.log t)).

(** The continuation that accepts a match where it ends. *)
Definition accept : RegExp.cont := fun p s => Some (p, s).

(** Is [y] absent from [acc]? *)
Definition notIn (acc : list jstring) (y : jstring) : bool :=
  negb (existsb (jstring_eqb y) acc).

(** The [href] attributes that mention [/blog], of the elements in document
    order. *)
Fixpoint blogHrefs (els : list Element) : list jstring :=
  match els with
  | [] => []
  | el :: rest =>
      match getAttribute el "href" with
      | Some h =>
          if includes h (lit "/blog") then h :: blogHrefs rest
          else blogHrefs rest
      | None => blogHrefs rest
      end
  end.

(** An [href] that starts with [http] as it is, any other behind the site
    origin. *)
Definition withOrigin (h : jstring) : jstring :=
  if startsWith h (lit "http") then h else siteOrigin ++ h.

(** The strategy of a selector comes up empty: the query rejects, or no
    element that it matches has an [href] that mentions [/blog]. *)
Definition comesUpEmpty (page : Page) (sel : string) : Prop :=
  rejects page sel = true \/ blogHrefs (querySelectorAll page sel) = [].

(** The comparator [(a, b) => key(b) - key(a)]. *)
Definition descending (A : Type) (key : A -> Number) (a b : A) : Z :=
  subtract (key b) (key a).

(** The head of a list is one of its greatest elements. *)
Definition headIsMax (A : Type) (key : A -> Number) (l : list A) : Prop :=
  match l with
  | [] => True
  | h :: _ => forall y, In y l -> Number_le (key y) (key h)
  end.

(** The candidate that a link yields, as a list of at most one element. *)
Definition candidatesAt (ext : Externals) (world : World) (st : Service)
  (link : jstring) : list Article.CreateArticleData :=
  match snd (scrapeArticleContent ext world st link) with
  | Ok (Some article) => [article]
  | _ => []
  end.

(** The page links that carry a number, in document order. *)
Definition numberedLinks (page : Page) : list PageLink :=
  filter isNumbered (map pageLinkOf (querySelectorAll page pageLinkSelector)).

(** The integer written by the run of decimal digits at the start of a
    text. *)
Fixpoint digitsValue (acc : N) (s : jstring) : N :=
  match s with
  | [] => acc
  | c :: s' =>
      if is_digit c then digitsValue (10 * acc + (c - 48))%N s' else acc
  end.

(** The number that a text shows: the integer written by its first run of
    decimal digits. *)
Fixpoint shownNumber (s : jstring) : option N :=
  match s with
  | [] => None
  | c :: s' => if is_digit c then Some (digitsValue 0 s) else shownNumber s'
  end.

(** The number that the text of an element shows. *)
Definition pageShown (el : Element) : option N :=
  match textContent el with
  | Some t => shownNumber t
  | None => None
  end.

(** The elements matched by the page-link selector that have an [href] and
    whose text shows a number, in document order. *)
Definition numberedElements (page : Page) : list Element :=
  filter
    (fun el =>
       match getAttribute el "href", pageShown el with
       | Some h, Some _ => truthy h
       | _, _ => false
       end)
    (querySelectorAll page pageLinkSelector).

(** *** Notions for the repository *)

(** An operation on the [articles] table: a call of the repository, or the
    passing of time. *)
Inductive Operation : Type :=
| Create (data : Article.CreateArticleData)
| Update (id : jstring) (data : Article.UpdateArticleData)
| Delete (id : jstring)
| Tick (now : N).

Definition applyOperation (engine : ArticleRepository.Engine)
  (db : ArticleRepository.Database) (op : Operation)
  : ArticleRepository.Database :=
  match op with
  | Create data => fst (ArticleRepository.create engine db data)
  | Update id data => fst (ArticleRepository.update engine db id data)
  | Delete id => fst (ArticleRepository.delete db id)
  | Tick now =>
      {| ArticleRepository.articles := ArticleRepository.articles db;
         ArticleRepository.clock := now |}
  end.

(** The table has no two rows with the same id or the same URL, and the
    derived columns of every row agree with its content. *)
Definition wellKept (db : ArticleRepository.Database) : Prop :=
  NoDup (map ArticleRepository.row_id (ArticleRepository.articles db))
  /\ NoDup (map ArticleRepository.row_url (ArticleRepository.articles db))
  /\ Forall rowCounted (ArticleRepository.articles db).

(** The row that the [UPDATE] statement of [update] leaves in place of [r]. *)
Definition updated (db : ArticleRepository.Database)
  (data : Article.UpdateArticleData) (r : ArticleRepository.Row)
  : ArticleRepository.Row :=
  fold_left (ArticleRepository.assign db)
    (ArticleRepository.updatesOf data ++ [ArticleRepository.SetUpdatedAtNow]) r.

(** The rows that are not enhanced, in table order. *)
Definition unenhancedRows (db : ArticleRepository.Database)
  : list ArticleRepository.Row :=
  filter (fun r => negb (ArticleRepository.is_enhanced r))
    (ArticleRepository.articles db).


(** The article that a row is mapped to when its tags are read as
    [parsed]. *)
Definition articleOf (r : ArticleRepository.Row) (parsed : Json)
  : Article.Article :=
  {| Article.id := ArticleRepository.row_id r;
     Article.title := ArticleRepository.row_title r;
     Article.content := ArticleRepository.row_content r;
     Article.url := ArticleRepository.row_url r;
     Article.scrapedDate := ArticleRepository.scraped_date r;
     Article.enhancedContent :=
       match ArticleRepository.enhanced_content r with
       | Some e => if truthy e then Some e else None
       | None => None
       end;
     Article.isEnhanced := ArticleRepository.is_enhanced r;
     Article.wordCount := ArticleRepository.word_count r;
     Article.readingTime := ArticleRepository.reading_time r;
     Article.tags := parsed;
     Article.createdAt := ArticleRepository.created_at r;
     Article.updatedAt := ArticleRepository.updated_at r |}.

(** The tags of a row are strings of code units. *)
Definition tagsWellFormed (r : ArticleRepository.Row) : Prop :=
  forall items, ArticleRepository.row_tags r = Some items ->
                Forall codeUnits items.

(** The tags of a row, joined by commas, are no JSON text. *)
Definition tagsUnreadable (r : ArticleRepository.Row) : Prop :=
  exists items, ArticleRepository.row_tags r = Some items
                /\ JSON.parse (toText items) = None.

(** The first row of the table with the URL of a candidate. *)
Definition rowOfUrl (db : ArticleRepository.Database)
  (c : Article.CreateArticleData) : option ArticleRepository.Row :=
  find (fun r => jstring_eqb (ArticleRepository.row_url r) (Article.new_url c))
    (ArticleRepository.articles db).

(** What [findByUrl] makes of the first row with the URL of a candidate. *)
Definition readAs (engine : ArticleRepository.Engine)
  (db : ArticleRepository.Database) (c : Article.CreateArticleData)
  (res : result Article.Article) : Prop :=
  exists r, rowOfUrl db c = Some r
            /\ ArticleRepository.mapRowToArticle engine r = res.


(** *** Notions for texts *)

(** [a] is [b] with some code units left out. *)
Inductive Subsequence : jstring -> jstring -> Prop :=
| sub_nil : Subsequence [] []
| sub_keep (c : N) (a b : jstring) :
    Subsequence a b -> Subsequence (c :: a) (c :: b)
| sub_drop (c : N) (a b : jstring) : Subsequence a b -> Subsequence a (c :: b).

(** A list of strings with some of them left out. *)
Inductive Sublist : list jstring -> list jstring -> Prop :=
| sublist_nil : Sublist [] []
| sublist_keep (x : jstring) (a b : list jstring) :
    Sublist a b -> Sublist (x :: a) (x :: b)
| sublist_drop (x : jstring) (a b : list jstring) :
    Sublist a b -> Sublist a (x :: b).

(** A code unit other than [<], [:] and [=]. *)
Definition plainChar (c : N) : Prop := c <> 60%N /\ c <> 58%N /\ c <> 61%N.

(** A character below the letters, which the [i] flag leaves alone. *)
Definition punctuation (a : ascii) : Prop := (N_of_ascii a < 65)%N.

(** [P] holds of a text and of every text that is left of it after some of
    its first code units. *)
Fixpoint everywhere (P : jstring -> Prop) (s : jstring) : Prop :=
  P s /\ match s with
         | [] => True
         | _ :: s' => everywhere P s'
         end.

(** No match of [r] starts where [s] starts. *)
Definition noMatchAt (r : RegExp.regex) (s : jstring) : Prop :=
  forall prev, RegExp.matchAt r prev s = None.


(** Every answer of a continuation satisfies [Q]. *)
Definition answers (Q : jstring -> RegExp.mstate -> Prop) (k : RegExp.cont)
  : Prop :=
  forall p s m, k p s = Some m -> Q s m.

(** [pieces.join(sep)] for a separator of one code unit. *)
Fixpoint joinWith (sep : N) (l : list jstring) : jstring :=
  match l with
  | [] => []
  | [x] => x
  | x :: rest => x ++ sep :: joinWith sep rest
  end.

(** *** Notions for the calls on the database driver *)

Definition isAcquire (e : Connection.Entry) : bool :=
  match e with (Connection.GetConnection, true) => true | _ => false end.
Definition isRelease (e : Connection.Entry) : bool :=
  match e with (Connection.Release, _) => true | _ => false end.
Definition isCommit (e : Connection.Entry) : bool :=
  match e with (Connection.Commit, true) => true | _ => false end.
Definition isRollback (e : Connection.Entry) : bool :=
  match e with (Connection.Rollback, _) => true | _ => false end.

(** The connections handed out, the connections given back, the transactions
    committed and the roll-backs attempted in a trace. *)
Definition acquired (t : list Connection.Entry) : nat :=
  length (filter isAcquire t).
Definition released (t : list Connection.Entry) : nat :=
  length (filter isRelease t).
Definition committed (t : list Connection.Entry) : nat :=
  length (filter isCommit t).
Definition rolledBack (t : list Connection.Entry) : nat :=
  length (filter isRollback t).

(** A transaction body that only runs statements on the connection it is
    given: it takes and returns no connection and ends no transaction. *)
Definition runsStatements (T : Type)
  (callback : Connection.Process -> Connection.Process * result T) : Prop :=
  forall q,
    Connection.pool (fst (callback q)) = Connection.pool q
    /\ acquired (Connection.trace (fst (callback q)))
       = acquired (Connection.trace q)
    /\ released (Connection.trace (fst (callback q)))
       = released (Connection.trace q)
    /\ committed (Connection.trace (fst (callback q)))
       = committed (Connection.trace q)
    /\ rolledBack (Connection.trace (fst (callback q)))
       = rolledBack (Connection.trace q).

(** The trace entry of a statement that was run. *)
Definition sent (statement : jstring) : Connection.Entry :=
  (Connection.Execute statement [], true).

(** A driver all of whose calls succeed. *)
Definition reliable (drv : Connection.Driver) : Prop :=
  forall t c, Connection.succeeds drv t c = true.

(** The migration that [loadSchemaMigration] makes of the text of
    [schema.sql]. *)
Definition schemaMigration (sql : jstring) : Migrations.Migration :=
  {| Migrations.version := Migrations.schemaVersion;
     Migrations.description :=
       lit "Create initial database schema with articles, references, and enhancement_requests tables";
     Migrations.sql := sql |}.




End Spec.

(* ------------------------------------------------------------------ *)
(** ** Concrete pages, libraries and engines used to exercise the code *)

Module Scenario.
Import RegExp Article WebScraperService ArticleRepository Orchestration.

(** A start or end tag: [<], an optional [/], a letter, and everything up to
    the next [>]. *)
Definition re_tag : regex :=
  Seq (chr "<")
    (Seq (Alt (chr "/") Empty)
       (Seq (Class Spec.is_alpha) (Seq (Star (not_chr ">")) (chr ">")))).

(** Modelled from the spec: the HTML-to-text capability of the content
    cleaner (the cheerio library, which is not a source of this repository),
    on markup that holds no script, style, navigation or advertisement
    element: tags are dropped and the character references for [<], [>] and
    [&] are decoded. *)
Definition textOfHtml (sel : string) (html : jstring) : jstring :=
  replaceAll (text "&amp;") (lit "&")
    (replaceAll (text "&gt;") (lit ">")
       (replaceAll (text "&lt;") (lit "<")
          (replaceAll re_tag [] html))).

(** Lower-casing of ASCII text. *)
Definition asciiLower (s : jstring) : jstring :=
  map (fun c => if ((65 <=? c) && (c <=? 90))%N then (c + 32)%N else c) s.

(** URL resolution of a reference that starts with a slash: the origin of
    the base followed by the reference. *)
Definition resolveAtOrigin (href base : jstring) : option jstring :=
  if startsWith href (lit "/") then Some (lit "https://beyondchats.com" ++ href)
  else None.

Definition externals : Externals :=
  {| htmlToText := textOfHtml;
     toLowerCase := asciiLower;
     resolveUrl := resolveAtOrigin |}.

(** The message of a [SyntaxError]: a stand-in for the text of the JavaScript
    engine, which no code of the repository reads. *)
Definition unexpected (text : jstring) : string :=
  match text with
  | [] => "Unexpected end of JSON input"
  | _ :: _ => "Unexpected token in JSON"
  end.

(** An engine that numbers the rows and reports the number as [insertId],
    and that hands a JSON column over as its text. *)
Definition countingEngine : Engine :=
  {| uuid := fun db => toString (N.of_nat (S (length (articles db))));
     reportedInsertId := fun db => N.of_nat (S (length (articles db)));
     jsonStrings := true;
     syntaxMessage := unexpected |}.

(** An engine for the [id VARCHAR(36) DEFAULT (UUID())] column and the
    options of [connection.ts]: no auto-increment value, so the reported
    [insertId] is 0, and a JSON column is handed over decoded. *)
Definition uuidEngine : Engine :=
  {| uuid := fun db => lit "uuid-" ++ toString (N.of_nat (length (articles db)));
     reportedInsertId := fun _ => 0%N;
     jsonStrings := false;
     syntaxMessage := unexpected |}.

Definition element (attributes : list (string * jstring)) (txt html : string)
  : Element :=
  {| attrs := attributes; textContent := Some (lit txt); innerHTML := lit html |}.

Fixpoint lookupSelector (sel : string) (l : list (string * list Element))
  : list Element :=
  match l with
  | [] => []
  | (k, els) :: l' => if String.eqb k sel then els else lookupSelector sel l'
  end.

Definition page (title : string) (l : list (string * list Element)) : Page :=
  {| querySelectorAll := fun sel => lookupSelector sel l;
     rejects := fun _ => false;
     evaluateRejects := false;
     documentTitle := lit title |}.

Fixpoint lookupPage (url : jstring) (l : list (jstring * Page)) : option Page :=
  match l with
  | [] => None
  | (k, p) :: l' => if jstring_eqb k url then Some p else lookupPage url l'
  end.

(** A tab on which every call resolves. *)
Definition steady : Tab :=
  {| opens := true; acceptsUserAgent := true; acceptsViewport := true;
     closes := true |}.

(** A world in which every call of the browser driver resolves and the
    listed pages are served. *)
Definition web (l : list (jstring * Page)) : World :=
  {| launches := true;
     tab := fun _ => steady;
     navigate := fun url => lookupPage url l;
     closesBrowser := true |}.

Definition anchor (href txt : string) : Element :=
  element [("href"%string, lit href)] txt txt.

Definition sampleBody : string :=
  "Chatbots answer customers at any hour of the day and they hand the hard questions over to a human agent when it is needed."%string.

(** An article page with a heading and a body of 122 characters. *)
Definition articlePage : Page :=
  page "First post | BeyondChats"
    [ ("h1"%string, [element [] " First post " "First post"]);
      (".post-content"%string,
       [element [] sampleBody ("<p>" ++ sampleBody ++ "</p>")%string]) ].

(** A listing page: one article link, no pagination. *)
Definition listing : Page :=
  page "Blogs"
    [ (("article a[href*=" ++ q "/blog" ++ "]")%string,
       [anchor "/blogs/first-post" "First post"]) ].

Definition firstPostUrl : jstring :=
  lit "https://www.beyondchats.com/blogs/first-post".

Definition blog : World :=
  web [ (baseUrl, listing); (firstPostUrl, articlePage) ].

(** A listing page without any link: nothing to scrape. *)
Definition emptyBlog : World := web [ (baseUrl, page "Blogs" []) ].

Definition emptyDb : Database := {| articles := []; clock := 0 |}.

Definition repository (engine : Engine) : Repository Database :=
  {| repo_findByUrl := ArticleRepository.findByUrl engine;
     repo_create := ArticleRepository.create engine;
     repo_findAll := ArticleRepository.findAll engine |}.

Definition idle : Service := {| browser := false |}.


(** A candidate whose content carries a script block. *)
Definition candidate : CreateArticleData :=
  {| new_title := lit " First post ";
     new_content := lit "<script>track(1, 2, 3)</script> hello   world ";
     new_url := firstPostUrl;
     new_tags := Some [lit "ai"] |}.

(** A listing whose only article link is a relative reference that starts
    with the letters [http]. *)
Definition oddListing : Page :=
  page "Blogs"
    [ (("article a[href*=" ++ q "/blog" ++ "]")%string,
       [anchor "httpdocs/blog/post" "Post"]) ].

(** A listing whose second strategy finds a link outside [/blog] and whose
    third strategy finds a blog link. *)
Definition strayListing : Page :=
  page "Blogs"
    [ (".blog-post a"%string, [anchor "/articles/x" "X"]);
      (".post-title a"%string, [anchor "/blog/y" "Y"; anchor "/blog/y" "Y"]) ].

(** A listing with numbered page links and no last-page control. *)
Definition pagedListing : Page :=
  page "Blogs"
    [ (pageLinkSelector,
       [ anchor "/blogs/page/2/" "2";
         anchor "/blogs/page/14/" " 14 ";
         anchor "/blogs/page/3/" "Page 3";
         anchor "/blogs/page/about/" "About" ]) ].

(** A listing whose page links show numbers from [2 ^ 53] on. *)
Definition hugeListing : Page :=
  page "Blogs"
    [ (pageLinkSelector,
       [ anchor "/blogs/page/9007199254740992/" "9007199254740992";
         anchor "/blogs/page/9007199254740993/" "9007199254740993" ]) ].

(** Markup whose text spells a tag with character references. *)
Definition escapedMarkup : jstring := lit "<p>&lt;b&gt;bold&lt;/b&gt;   text</p>".

(** The state of the database after a first run over [blog]. *)
Definition storeAfterFirstRun : Database :=
  ScraperController.store_after
    (ScraperController.scrapeOldestArticles externals blog
       (repository countingEngine) idle emptyDb).

(** A page with the heading of a draft and a body of five characters. *)
Definition draftPage : Page :=
  page "Draft"
    [ ("h1"%string, [element [] "Untitled Draft" "Untitled Draft"]);
      (".post-content"%string, [element [] "12345" "12345"]) ].

Definition draftUrl : jstring := lit "https://www.beyondchats.com/blogs/draft".

(** A page without any title element and without a document title. *)
Definition bare : Page :=
  page "" [ (".post-content"%string, [element [] sampleBody sampleBody]) ].

Definition bareUrl : jstring := lit "https://www.beyondchats.com/blogs/bare".

Definition drafts : World := web [ (draftUrl, draftPage); (bareUrl, bare) ].

(** A listing with six article links, each leading to an article page. *)
Definition postNames : list string := ["a"; "b"; "c"; "d"; "e"; "f"]%string.

Definition postUrl (name : string) : jstring :=
  lit ("https://www.beyondchats.com/blogs/post-" ++ name)%string.

Definition sixPosts : World :=
  web ((baseUrl,
        page "Blogs"
          [ (("article a[href*=" ++ q "/blog" ++ "]")%string,
             map (fun name => anchor ("/blogs/post-" ++ name)%string name)
               postNames) ])
       :: map (fun name => (postUrl name, articlePage)) postNames).

(** The same listing in a world where the tab of every article page
    cannot be closed. *)
Definition brokenPosts : World :=
  {| launches := true;
     tab := fun url =>
              if jstring_eqb url baseUrl then steady
              else {| opens := true; acceptsUserAgent := true;
                      acceptsViewport := true; closes := false |};
     navigate := navigate sixPosts;
     closesBrowser := true |}.

(** Markup without character references. *)
Definition plainMarkup : jstring := lit "<p>hello   <b>world</b></p>  ".

(** The table after [candidate] has been created in the empty table. *)
Definition storedDb : Database :=
  fst (ArticleRepository.create countingEngine emptyDb candidate).

(** The row of [storedDb]. *)
Definition storedRow : Row := insertedRow countingEngine emptyDb candidate.

(** An update of the content alone. *)
Definition revision : UpdateArticleData :=
  {| upd_title := None;
     upd_content := Some (lit "<script>x()</script> fresh   text ");
     upd_enhancedContent := None;
     upd_tags := None |}.

(** An update that brings the enhanced content. *)
Definition enhancement : UpdateArticleData :=
  {| upd_title := None;
     upd_content := None;
     upd_enhancedContent := Some (lit "Chatbots, explained.");
     upd_tags := None |}.

(** A script element split by a script element. *)
Definition nestedScript : jstring :=
  lit "<scr<script></script>ipt>alert(1)</script>".


(** A database server that accepts every call; the migrations table is
    empty. *)
Definition freshServer : Connection.Driver :=
  {| Connection.succeeds := fun _ _ => true;
     Connection.rowsOf := fun _ _ => [] |}.

(** A database server that accepts every call and holds the record of the
    schema migration. *)
Definition migratedServer : Connection.Driver :=
  {| Connection.succeeds := fun _ _ => true;
     Connection.rowsOf := fun _ _ => [Migrations.schemaVersion] |}.

(** A process whose pool is set and that has made no call yet. *)
Definition ready : Connection.Process :=
  {| Connection.pool := true; Connection.trace := [] |}.

(** A schema of two statements, with an empty statement between them. *)
Definition twoTables : jstring :=
  lit "CREATE TABLE a (x INT); ;CREATE TABLE b (y INT);".

(** A transaction body of one statement. *)
Definition oneStatement (drv : Connection.Driver) (c : Connection.Process)
  : Connection.Process * result unit :=
  Migrations.executeStatements drv [lit "DELETE FROM migrations"] c.


(** A database server whose connections do not answer a ping. *)
Definition deafServer : Connection.Driver :=
  {| Connection.succeeds :=
       fun _ c => match c with Connection.Ping => false | _ => true end;
     Connection.rowsOf := fun _ _ => [] |}.

(** A process that has not set its pool. *)
Definition fresh : Connection.Process :=
  {| Connection.pool := false; Connection.trace := [] |}.


End Scenario.

Unset Implicit Arguments.

(* ------------------------------------------------------------------ *)
(** * Properties *)

(** The whitespace test is kept folded while goals are simplified. *)
Arguments is_space : simpl never.

Module StringFacts.
Import Spec.

Lemma dropWhile_length (p : N -> bool) (s : jstring) :
  length (dropWhile p s) <= length s.
Proof.
  induction s as [|c s IH]; simpl; [lia|].
  destruct (p c); simpl; lia.
Qed.

Lemma dropWhile_idem (p : N -> bool) (s : jstring) :
  dropWhile p (dropWhile p s) = dropWhile p s.
Proof.
  induction s as [|c s IH]; simpl; [reflexivity|].
  destruct (p c) eqn:E; [exact IH|].
  simpl. now rewrite E.
Qed.

Lemma dropWhile_all (p : N -> bool) (s : jstring) :
  forallb p s = true -> dropWhile p s = [].
Proof.
  induction s as [|c s IH]; simpl; [reflexivity|].
  destruct (p c); simpl; [exact IH|discriminate].
Qed.

(** A string is its prefix up to the last non-blank code unit followed by
    blanks. *)
Lemma trimEnd_split (s : jstring) :
  exists w, s = trimEnd s ++ w /\ forallb is_space w = true.
Proof.
  unfold trimEnd.
  assert (H : forall r : jstring,
             exists w, r = w ++ dropWhile is_space r /\ forallb is_space w = true).
  { induction r as [|c r IH]; simpl.
    - exists []. auto.
    - destruct (is_space c) eqn:E.
      + destruct IH as [w [Hw Hb]]. exists (c :: w). simpl.
        rewrite E, Hb. split; [now f_equal|reflexivity].
      + exists []. auto. }
  destruct (H (rev s)) as [w [Hw Hb]].
  exists (rev w). split.
  - rewrite <- (rev_involutive s) at 1. rewrite Hw at 1.
    now rewrite rev_app_distr.
  - rewrite forallb_forall in *. intros x Hx. apply Hb. now apply in_rev.
Qed.

Lemma trimEnd_nil_or_last (s : jstring) :
  trimEnd s = [] \/ exists u c, trimEnd s = u ++ [c] /\ is_space c = false.
Proof.
  unfold trimEnd.
  assert (H : forall r : jstring,
             dropWhile is_space r = [] \/
             exists c u, dropWhile is_space r = c :: u /\ is_space c = false).
  { induction r as [|c r IH]; simpl; [now left|].
    destruct (is_space c) eqn:E; [exact IH|].
    right. now exists c, r. }
  destruct (H (rev s)) as [-> | [c [u [-> Hc]]]]; [now left|].
  right. exists (rev u), c. simpl. auto.
Qed.

End StringFacts.

(* ------------------------------------------------------------------ *)
(** ** JSON texts *)

Module JSONFacts.
Import JSON Spec StringFacts WebScraperService.

Lemma hexValue_hexDigit (d : N) : (d < 16)%N -> hexValue (hexDigit d) = Some d.
Proof.
  intros H. unfold hexDigit, hexValue, is_digit.
  destruct (d <? 10)%N eqn:E.
  - apply N.ltb_lt in E.
    assert (E1 : (48 <=? 48 + d)%N = true) by (apply N.leb_le; lia).
    assert (E2 : (48 + d <=? 57)%N = true) by (apply N.leb_le; lia).
    rewrite E1, E2. cbn [andb]. f_equal. lia.
  - apply N.ltb_ge in E.
    assert (E2 : (87 + d <=? 57)%N = false) by (apply N.leb_gt; lia).
    rewrite E2, andb_false_r.
    assert (E3 : (97 <=? 87 + d)%N = true) by (apply N.leb_le; lia).
    assert (E4 : (87 + d <=? 102)%N = true) by (apply N.leb_le; lia).
    rewrite E3, E4. cbn [andb]. f_equal. lia.
Qed.

Lemma hex_digits_value (c : N) :
  (c < 65536)%N ->
  ((((c / 4096) * 16 + (c / 256) mod 16) * 16 + (c / 16) mod 16) * 16
   + c mod 16 = c)%N.
Proof.
  intros H.
  pose proof (N.div_mod c 16 ltac:(discriminate)) as H1.
  pose proof (N.div_mod (c / 16) 16 ltac:(discriminate)) as H2.
  pose proof (N.div_mod (c / 256) 16 ltac:(discriminate)) as H3.
  rewrite (N.Div0.div_div c 16 16) in H2. change (16 * 16)%N with 256%N in H2.
  rewrite (N.Div0.div_div c 256 16) in H3. change (256 * 16)%N with 4096%N in H3.
  lia.
Qed.

Lemma stringBody_unicodeEscape (c : N) (rest : jstring) :
  (c < 65536)%N ->
  stringBody (unicodeEscape c ++ rest)
  = option_map (prepend c) (stringBody rest).
Proof.
  intros H. unfold unicodeEscape. cbn [app stringBody].
  change (92 =? 34)%N with false. change (92 =? 92)%N with true.
  change (117 =? 117)%N with true. cbv iota.
  assert (H4 : (c / 4096 < 16)%N)
    by (apply N.Div0.div_lt_upper_bound; lia).
  rewrite (hexValue_hexDigit _ H4).
  rewrite !hexValue_hexDigit by (apply N.mod_lt; discriminate).
  now rewrite hex_digits_value.
Qed.

Lemma stringBody_plain (c : N) (rest : jstring) :
  (c =? 34)%N = false -> (c =? 92)%N = false -> (c <? 32)%N = false ->
  stringBody (c :: rest) = option_map (prepend c) (stringBody rest).
Proof. intros H1 H2 H3. cbn [stringBody]. now rewrite H1, H2, H3. Qed.

Lemma stringBody_escapeUnit (c : N) (rest : jstring) :
  (c < 65536)%N ->
  stringBody (escapeUnit c ++ rest)
  = option_map (prepend c) (stringBody rest).
Proof.
  intros H. unfold escapeUnit.
  destruct (c =? 8)%N eqn:E8; [apply N.eqb_eq in E8; now subst|].
  destruct (c =? 9)%N eqn:E9; [apply N.eqb_eq in E9; now subst|].
  destruct (c =? 10)%N eqn:E10; [apply N.eqb_eq in E10; now subst|].
  destruct (c =? 12)%N eqn:E12; [apply N.eqb_eq in E12; now subst|].
  destruct (c =? 13)%N eqn:E13; [apply N.eqb_eq in E13; now subst|].
  destruct (c =? 34)%N eqn:E34; [apply N.eqb_eq in E34; now subst|].
  destruct (c =? 92)%N eqn:E92; [apply N.eqb_eq in E92; now subst|].
  destruct (c <? 32)%N eqn:E32.
  - now apply stringBody_unicodeEscape.
  - now apply stringBody_plain.
Qed.

Lemma surrogate_plain (c : N) :
  isHighSurrogate c = true \/ isLowSurrogate c = true ->
  (c =? 34)%N = false /\ (c =? 92)%N = false /\ (c <? 32)%N = false.
Proof.
  unfold isHighSurrogate, isLowSurrogate.
  intros [H|H]; apply andb_true_iff in H; destruct H as [H1 H2];
    apply N.leb_le in H1, H2;
    repeat split; try (apply N.eqb_neq; lia); apply N.ltb_ge; lia.
Qed.

(** What [stringify] writes between the quotes reads back as the string. *)
Lemma stringBody_quoteBody (n : nat) :
  forall s rest,
    length s <= n -> codeUnits s ->
    stringBody (quoteBody s ++ 34%N :: rest) = Some (s, rest).
Proof.
  induction n as [|n IH]; intros s rest Hn Hs.
  - destruct s; [reflexivity|simpl in Hn; lia].
  - destruct s as [|c s]; [reflexivity|].
    inversion Hs as [|? ? Hc Hs']; subst.
    assert (Hlen : length s <= n) by (simpl in Hn; lia).
    cbn [quoteBody].
    destruct (isHighSurrogate c) eqn:Eh.
    + destruct s as [|d s].
      * rewrite (stringBody_unicodeEscape c _ Hc). reflexivity.
      * destruct (isLowSurrogate d) eqn:El.
        -- inversion Hs' as [|? ? Hd Hs'']; subst.
           destruct (surrogate_plain c (or_introl Eh)) as (C1 & C2 & C3).
           destruct (surrogate_plain d (or_intror El)) as (D1 & D2 & D3).
           cbn [app]. rewrite (stringBody_plain c _ C1 C2 C3).
           rewrite (stringBody_plain d _ D1 D2 D3).
           rewrite IH; [reflexivity|simpl in Hlen; lia|exact Hs''].
        -- rewrite <- app_assoc, (stringBody_unicodeEscape c _ Hc).
           rewrite (IH (d :: s) rest Hlen Hs'). reflexivity.
    + destruct (isLowSurrogate c) eqn:El.
      * rewrite <- app_assoc, (stringBody_unicodeEscape c _ Hc).
        rewrite (IH s rest Hlen Hs'). reflexivity.
      * rewrite <- app_assoc, (stringBody_escapeUnit c _ Hc).
        rewrite (IH s rest Hlen Hs'). reflexivity.
Qed.

Lemma value_quote (fuel : nat) (s rest : jstring) :
  codeUnits s ->
  value (S fuel) (quote s ++ rest) = Some (JString s, rest).
Proof.
  intros Hs. unfold quote. cbn [value app skipWs dropWhile].
  change (is_ws 34) with false. cbv iota. change (34 =? 34)%N with true.
  cbv iota. rewrite <- app_assoc. cbn [app].
  now rewrite (stringBody_quoteBody (length s) s rest (le_n _) Hs).
Qed.

(** The elements written by [stringify] read back as the strings. *)
Lemma elements_join (items : list jstring) :
  Forall codeUnits items ->
  forall x fuel n rest,
    codeUnits x -> length items < n ->
    elements (value (S fuel)) n
      (join [44%N] (map quote (x :: items)) ++ 93%N :: rest)
    = Some (map JString (x :: items), rest).
Proof.
  induction 1 as [|y items Hy Hitems IH]; intros x fuel n rest Hx Hn.
  - destruct n as [|n]; [lia|]. cbn [map join elements].
    rewrite (value_quote fuel x _ Hx). cbn [skipWs dropWhile].
    change (is_ws 93) with false. cbv iota.
    change (93 =? 44)%N with false. change (93 =? 93)%N with true. reflexivity.
  - destruct n as [|n]; [lia|].
    change (join [44%N] (map quote (x :: y :: items)))
      with (quote x ++ [44%N] ++ join [44%N] (map quote (y :: items))).
    rewrite <- !app_assoc. cbn [elements].
    rewrite (value_quote fuel x _ Hx). cbn [app skipWs dropWhile].
    change (is_ws 44) with false. cbv iota. change (44 =? 44)%N with true.
    cbv iota. rewrite (IH y fuel n rest Hy); [reflexivity|].
    simpl in Hn. lia.
Qed.

Lemma length_join_quote (items : list jstring) :
  length items <= length (join [44%N] (map quote items)).
Proof.
  induction items as [|x items IH]; [apply le_n|].
  destruct items as [|y items].
  - cbn [map join]. unfold quote. simpl. lia.
  - change (join [44%N] (map quote (x :: y :: items)))
      with (quote x ++ [44%N] ++ join [44%N] (map quote (y :: items))).
    rewrite !length_app. unfold quote at 1. simpl length in *. lia.
Qed.

Lemma value_array (fuel : nat) (s1 : jstring) (d : N) (rest : jstring) :
  skipWs s1 = d :: rest -> (d =? 93)%N = false ->
  value (S fuel) (91%N :: s1)
  = match elements (value fuel) fuel s1 with
    | Some (vs, rest') => Some (JArray vs, rest')
    | None => None
    end.
Proof.
  intros Hs Hd. cbn [value skipWs dropWhile].
  change (is_ws 91) with false. cbv iota.
  change (91 =? 34)%N with false. change (91 =? 91)%N with true. cbv iota.
  fold (skipWs s1). now rewrite Hs, Hd.
Qed.

(** [JSON.parse(JSON.stringify(items))] is the array of the strings. *)
Lemma parse_stringify (items : list jstring) :
  Forall codeUnits items ->
  parse (stringify items) = Some (JArray (map JString items)).
Proof.
  intros H. unfold parse, stringify.
  destruct items as [|x items]; [reflexivity|].
  inversion H as [|? ? Hx Hitems]; subst.
  set (text := 91%N :: join [44%N] (map quote (x :: items)) ++ [93%N]).
  assert (Hlen : length items + 3 <= length text).
  { unfold text. pose proof (length_join_quote (x :: items)) as L.
    cbn [length]. rewrite length_app. simpl length in *. lia. }
  destruct (length text) as [|fuel] eqn:Et; [lia|].
  destruct fuel as [|fuel]; [lia|].
  unfold text.
  assert (Hd : exists t, join [44%N] (map quote (x :: items)) ++ [93%N]
                         = 34%N :: t).
  { destruct items; eexists; reflexivity. }
  destruct Hd as [t Hd].
  rewrite (value_array (S (S fuel)) _ 34 t); [|now rewrite Hd|reflexivity].
  rewrite (elements_join items Hitems x (S fuel) (S (S fuel)) [] Hx);
    [reflexivity|lia].
Qed.

(** *** Texts that are no JSON *)

Lemma parse_empty : parse [] = None.
Proof. reflexivity. Qed.

Lemma numeral_letter (c : N) (s : jstring) :
  (c =? 45)%N = false -> is_digit c = false -> numeral (c :: s) = None.
Proof.
  intros H1 H2. unfold numeral. rewrite H1.
  assert (H3 : (c =? 48)%N = false).
  { apply N.eqb_neq. intros ->. discriminate H2. }
  rewrite H3. unfold digits. cbn [takeWhile]. now rewrite H2.
Qed.

(** A text that starts with a letter other than [n], [t] and [f]. *)
Lemma parse_word (c : N) (s : jstring) :
  is_alpha c = true -> c <> 110%N -> c <> 116%N -> c <> 102%N ->
  parse (c :: s) = None.
Proof.
  intros Ha Hn Ht Hf. unfold parse.
  assert (Hr : (65 <= c <= 90 \/ 97 <= c <= 122)%N).
  { unfold is_alpha in Ha. apply orb_true_iff in Ha.
    destruct Ha as [Ha|Ha]; apply andb_true_iff in Ha; destruct Ha as [H1 H2];
      apply N.leb_le in H1, H2; lia. }
  assert (Hws : is_ws c = false).
  { unfold is_ws. repeat (apply orb_false_iff; split); apply N.eqb_neq; lia. }
  cbn [value skipWs dropWhile]. rewrite Hws.
  assert (E : forall k, (k < 65 \/ 90 < k < 97 \/ 122 < k \/ k = 110 \/ k = 116
                         \/ k = 102)%N -> (c =? k)%N = false).
  { intros k Hk. apply N.eqb_neq. lia. }
  rewrite (E 34%N), (E 91%N), (E 123%N) by lia.
  cbn [startsWith lit list_ascii_of_string map].
  change (N_of_ascii "n") with 110%N. change (N_of_ascii "t") with 116%N.
  change (N_of_ascii "f") with 102%N.
  rewrite !(N.eqb_sym _ c), (E 110%N), (E 116%N), (E 102%N) by lia.
  cbn [andb]. rewrite numeral_letter; [reflexivity|apply E; lia|].
  unfold is_digit. apply andb_false_iff. right. apply N.leb_gt. lia.
Qed.

(** A text that starts with [t] and does not go on with [r]. *)
Lemma parse_t_word (d : N) (s : jstring) :
  d <> 114%N -> parse (116%N :: d :: s) = None.
Proof.
  intros Hd. unfold parse. cbn [value skipWs dropWhile].
  change (is_ws 116) with false. cbv iota.
  change (116 =? 34)%N with false. change (116 =? 91)%N with false.
  change (116 =? 123)%N with false. cbv iota.
  cbn [startsWith lit list_ascii_of_string map].
  change (N_of_ascii "n" =? 116)%N with false.
  change (N_of_ascii "t" =? 116)%N with true.
  change (N_of_ascii "f" =? 116)%N with false.
  change (N_of_ascii "r") with 114%N.
  assert (E : (114 =? d)%N = false) by (apply N.eqb_neq; congruence).
  rewrite E. cbn [andb]. now rewrite numeral_letter.
Qed.

Lemma toText_cons (x : jstring) (items : list jstring) :
  exists tail, toText (x :: items) = x ++ tail.
Proof.
  unfold toText. destruct items as [|y items].
  - exists []. cbn. now rewrite app_nil_r.
  - exists ([44%N] ++ join [44%N] (y :: items)). reflexivity.
Qed.


(** No text that starts with a term of the tag vocabulary is JSON. *)
Lemma vocabulary_is_no_json (x tail : jstring) :
  In x commonTags -> parse (x ++ tail) = None.
Proof.
  unfold commonTags. cbn [map In]. intros H.
  repeat (destruct H as [<-|H];
          [first [ apply parse_word; [reflexivity|discriminate..]
                 | apply parse_t_word; discriminate ]|]).
  destruct H.
Qed.

(** The tags that the scraper gives to a candidate, joined by commas, are
    no JSON text. *)
Lemma extracted_tags_are_no_json (ext : Externals) (title content : jstring) :
  parse (toText (extractTags ext title content)) = None.
Proof.
  unfold extractTags.
  destruct (filter _ commonTags) as [|x items] eqn:E; [reflexivity|].
  assert (Hx : In x commonTags).
  { assert (Hin : In x (x :: items)) by now left.
    rewrite <- E in Hin. now apply filter_In in Hin. }
  destruct (toText_cons x items) as [tail ->].
  now apply vocabulary_is_no_json.
Qed.

End JSONFacts.

Module RegExpFacts.
Import RegExp Article Spec StringFacts WebScraperService.

(** The greedy star of a one-character class consumes the longest prefix in
    the class. *)
Lemma star_of_class (step : option N -> jstring -> cont -> option mstate)
  (p : N -> bool) :
  (forall prev k, step prev [] k = None) ->
  (forall prev c s k,
      step prev (c :: s) k = if p c then k (Some c) s else None) ->
  forall n prev s, length s < n ->
    exists p', star_iter step accept n prev s = Some (p', dropWhile p s).
Proof.
  intros Hnil Hcons.
  induction n as [|n IH]; intros prev s Hn; [lia|].
  destruct s as [|c s]; cbn [star_iter dropWhile].
  - rewrite Hnil. now exists prev.
  - rewrite Hcons. destruct (p c) eqn:E.
    + assert (Hlt : (length s <? length (c :: s)) = true)
        by (apply Nat.ltb_lt; simpl; lia).
      rewrite Hlt.
      destruct (IH (Some c) s) as [p' Hp']; [simpl in Hn; lia|].
      exists p'. now rewrite Hp'.
    + now exists prev.
Qed.

Lemma star_class (p : N -> bool) (n : nat) :
  forall prev s, length s < n ->
    exists p', star_iter (run (Class p)) accept n prev s
               = Some (p', dropWhile p s).
Proof. now apply star_of_class. Qed.

Lemma matchAt_spaces_nil prev : matchAt re_spaces prev [] = None.
Proof. reflexivity. Qed.

Lemma matchAt_spaces_other prev c s :
  is_space c = false -> matchAt re_spaces prev (c :: s) = None.
Proof.
  intros E. unfold matchAt, re_spaces, plus, space. simpl. now rewrite E.
Qed.

Lemma matchAt_spaces_space prev c s :
  is_space c = true ->
  exists p', matchAt re_spaces prev (c :: s) = Some (p', dropWhile is_space s).
Proof.
  intros E. unfold matchAt, re_spaces, plus, space.
  cbn [run]. rewrite E.
  apply star_class. lia.
Qed.

Lemma collapseFrom_true_drop (s : jstring) :
  collapseFrom true s = collapseFrom false (dropWhile is_space s).
Proof.
  induction s as [|c s IH]; simpl; [reflexivity|].
  destruct (is_space c) eqn:E; [exact IH|].
  simpl. now rewrite E.
Qed.

(** [s.replace(/\s+/g, ' ')] replaces every run of whitespace by one space. *)
Lemma replace_spaces (fuel : nat) :
  forall prev s, length s < fuel ->
    replaceLoop fuel re_spaces (lit " ") prev s = collapseFrom false s.
Proof.
  induction fuel as [|fuel IH]; intros prev s Hf; [lia|].
  destruct s as [|c s].
  - reflexivity.
  - cbn [replaceLoop].
    destruct (is_space c) eqn:E.
    + destruct (matchAt_spaces_space prev c s E) as [p' ->].
      pose proof (dropWhile_length is_space s) as Hl.
      assert (Hlt : (length (dropWhile is_space s) <? length (c :: s)) = true)
        by (apply Nat.ltb_lt; simpl; lia).
      rewrite Hlt, IH by (simpl in Hf; lia).
      cbn [collapseFrom]. rewrite E. now rewrite collapseFrom_true_drop.
    + rewrite (matchAt_spaces_other prev c s E).
      rewrite IH by (simpl in Hf; lia).
      cbn [collapseFrom]. now rewrite E.
Qed.

Lemma replaceAll_spaces (s : jstring) :
  replaceAll re_spaces (lit " ") s = collapseFrom false s.
Proof. unfold replaceAll. apply replace_spaces. lia. Qed.

(** A text without line feeds has no blank line to squeeze. *)
Lemma replace_blank_lines (rep : jstring) (fuel : nat) :
  forall prev s, (forall c, In c s -> c <> 10%N) ->
    replaceLoop fuel re_blank_lines rep prev s = s.
Proof.
  induction fuel as [|fuel IH]; intros prev s Hs; [reflexivity|].
  destruct s as [|c s]; [reflexivity|].
  cbn [replaceLoop].
  assert (Hm : matchAt re_blank_lines prev (c :: s) = None).
  { unfold matchAt, re_blank_lines, chr. cbn [run].
    destruct (N.eqb_spec (N_of_ascii "010") c) as [Heq|]; [|reflexivity].
    exfalso. apply (Hs c); [now left|]. now rewrite <- Heq. }
  rewrite Hm, IH; [reflexivity|].
  intros d Hd. apply Hs. now right.
Qed.

Lemma collapseFrom_chars (b : bool) (s : jstring) (c : N) :
  In c (collapseFrom b s) -> c = 32%N \/ is_space c = false.
Proof.
  revert b. induction s as [|d s IH]; intros b; simpl; [tauto|].
  destruct (is_space d) eqn:E.
  - destruct b; simpl; [apply IH|].
    intros [<-|H]; [now left|now apply IH in H].
  - simpl. intros [<-|H]; [now right|now apply IH in H].
Qed.

Lemma collapseFrom_no_linefeed (b : bool) (s : jstring) (c : N) :
  In c (collapseFrom b s) -> c <> 10%N.
Proof.
  intros H ->. apply collapseFrom_chars in H.
  destruct H as [H|H]; discriminate.
Qed.

(** The whitespace clean-up of the cleaner, in closed form. *)
Lemma normalizeWhitespace_eq (t : jstring) :
  normalizeWhitespace t = trim (collapseFrom false t).
Proof.
  unfold normalizeWhitespace. rewrite replaceAll_spaces.
  unfold replaceAll. rewrite replace_blank_lines; [reflexivity|].
  intros c. apply collapseFrom_no_linefeed.
Qed.

End RegExpFacts.

Module CleaningFacts.
Import RegExp Article Spec StringFacts RegExpFacts WebScraperService.

Lemma singleSpaced_collapse (s : jstring) :
  forall b, singleSpaced b (collapseFrom b s) = true.
Proof.
  induction s as [|c s IH]; intros b; simpl; [reflexivity|].
  destruct (is_space c) eqn:E.
  - destruct b; [apply IH|].
    simpl. change (is_space 32) with true. cbn. apply IH.
  - simpl. rewrite E. apply IH.
Qed.

Lemma singleSpaced_weaken (s : jstring) :
  singleSpaced true s = true -> singleSpaced false s = true.
Proof.
  destruct s as [|c s]; simpl; [auto|].
  destruct (is_space c); [|auto].
  rewrite andb_false_r. discriminate.
Qed.

Lemma collapse_fixed (s : jstring) :
  forall b, singleSpaced b s = true -> collapseFrom b s = s.
Proof.
  induction s as [|c s IH]; intros b; simpl; [reflexivity|].
  destruct (is_space c) eqn:E.
  - intros H. apply andb_prop in H. destruct H as [H Hs].
    apply andb_prop in H. destruct H as [Hc Hb].
    apply N.eqb_eq in Hc. destruct b; [discriminate|].
    rewrite (IH true Hs). now subst.
  - intros H. now rewrite (IH false H).
Qed.

Lemma singleSpaced_prefix (u w : jstring) :
  forall b, singleSpaced b (u ++ w) = true -> singleSpaced b u = true.
Proof.
  induction u as [|c u IH]; intros b; simpl; [reflexivity|].
  destruct (is_space c).
  - intros H. apply andb_prop in H. destruct H as [H Hs].
    rewrite H. simpl. now apply IH.
  - apply IH.
Qed.

Lemma singleSpaced_dropWhile (s : jstring) :
  forall b, singleSpaced b s = true ->
            singleSpaced false (dropWhile is_space s) = true.
Proof.
  induction s as [|c s IH]; intros b; simpl; [reflexivity|].
  destruct (is_space c) eqn:E.
  - intros H. apply andb_prop in H. destruct H as [_ Hs]. now apply (IH true).
  - intros H. simpl. now rewrite E.
Qed.

Lemma singleSpaced_trim (s : jstring) (b : bool) :
  singleSpaced b s = true -> singleSpaced false (trim s) = true.
Proof.
  intros H. unfold trim.
  destruct (trimEnd_split (trimStart s)) as [w [Hw _]].
  apply singleSpaced_prefix with (w := w). rewrite <- Hw.
  unfold trimStart. now apply singleSpaced_dropWhile with (b := b).
Qed.

Lemma trimEnd_idem (s : jstring) : trimEnd (trimEnd s) = trimEnd s.
Proof.
  unfold trimEnd. now rewrite rev_involutive, dropWhile_idem.
Qed.

Lemma trimStart_trimEnd (y : jstring) :
  dropWhile is_space y = y -> dropWhile is_space (trimEnd y) = trimEnd y.
Proof.
  intros Hy.
  destruct y as [|c y]; [reflexivity|].
  assert (E : is_space c = false).
  { destruct (is_space c) eqn:E; [|reflexivity].
    simpl in Hy. rewrite E in Hy.
    pose proof (dropWhile_length is_space y) as Hl.
    rewrite Hy in Hl. simpl in Hl. lia. }
  destruct (trimEnd_split (c :: y)) as [w [Hw Hb]].
  destruct (trimEnd (c :: y)) as [|d t].
  - simpl in Hw. subst w. simpl in Hb. rewrite E in Hb. discriminate.
  - simpl in Hw. injection Hw as <- _. simpl. now rewrite E.
Qed.

Lemma trim_idem (s : jstring) : trim (trim s) = trim s.
Proof.
  unfold trim at 1 2. unfold trimStart at 1.
  rewrite trimStart_trimEnd.
  - now rewrite trimEnd_idem.
  - unfold trimStart. apply dropWhile_idem.
Qed.

(** The whitespace clean-up is idempotent. *)
Lemma normalizeWhitespace_idem (t : jstring) :
  normalizeWhitespace (normalizeWhitespace t) = normalizeWhitespace t.
Proof.
  rewrite !normalizeWhitespace_eq.
  rewrite (collapse_fixed (trim (collapseFrom false t)) false).
  - apply trim_idem.
  - apply singleSpaced_trim with (b := false). apply singleSpaced_collapse.
Qed.

End CleaningFacts.

Module WordFacts.
Import RegExp Article Spec StringFacts RegExpFacts.

Lemma wordsFrom_dropWhile (s : jstring) :
  wordsFrom [] (dropWhile is_space s) = wordsFrom [] s.
Proof.
  induction s as [|c s IH]; simpl; [reflexivity|].
  destruct (is_space c) eqn:E; [exact IH|].
  simpl. now rewrite E.
Qed.

Lemma wordsFrom_blank (w : jstring) :
  forallb is_space w = true ->
  forall cur, wordsFrom cur w = if truthy cur then [cur] else [].
Proof.
  induction w as [|c w IH]; simpl; intros H cur; [reflexivity|].
  apply andb_prop in H. destruct H as [-> Hw].
  rewrite (IH Hw []). simpl. reflexivity.
Qed.

Lemma wordsFrom_blank_tail (u w : jstring) :
  forallb is_space w = true ->
  forall cur, wordsFrom cur (u ++ w) = wordsFrom cur u.
Proof.
  intros Hw. induction u as [|c u IH]; intros cur; simpl.
  - now apply wordsFrom_blank.
  - destruct (is_space c); [|apply IH].
    now rewrite IH.
Qed.

Lemma words_trim (s : jstring) : words (trim s) = words s.
Proof.
  unfold words, trim.
  destruct (trimEnd_split (trimStart s)) as [w [Hw Hb]].
  rewrite <- (wordsFrom_dropWhile s). fold (trimStart s).
  rewrite Hw at 2. now rewrite wordsFrom_blank_tail.
Qed.

Lemma nonEmpty_truthy (w : jstring) : (0 <? length w) = truthy w.
Proof. now destruct w. Qed.

(** The non-empty pieces of [s.split(/\s+/)] are the words of [s]. *)
Lemma split_spaces_words (fuel : nat) :
  forall prev piece s, length s < fuel ->
    filter (fun w => 0 <? length w) (splitLoop fuel re_spaces prev piece s)
    = wordsFrom piece s.
Proof.
  induction fuel as [|fuel IH]; intros prev piece s Hf; [lia|].
  destruct s as [|c s]; cbn [splitLoop wordsFrom].
  - simpl. rewrite nonEmpty_truthy. now destruct (truthy piece).
  - destruct (is_space c) eqn:E.
    + destruct (matchAt_spaces_space prev c s E) as [p' ->].
      pose proof (dropWhile_length is_space s) as Hl.
      assert (Hne : (length (dropWhile is_space s) =? length (c :: s)) = false)
        by (apply Nat.eqb_neq; simpl; lia).
      rewrite Hne. cbn [andb filter].
      rewrite IH by (simpl in Hf; lia).
      rewrite nonEmpty_truthy, wordsFrom_dropWhile.
      now destruct (truthy piece).
    + rewrite (matchAt_spaces_other prev c s E).
      apply IH. simpl in Hf. lia.
Qed.

(** [calculateWordCount] counts the whitespace-separated non-empty words. *)
Lemma calculateWordCount_words (content : jstring) :
  calculateWordCount content = N.of_nat (length (words content)).
Proof.
  unfold calculateWordCount. f_equal. f_equal.
  rewrite <- (words_trim content).
  destruct (trim content) as [|c t] eqn:Et.
  - reflexivity.
  - unfold split. rewrite split_spaces_words; [reflexivity|lia].
Qed.

Lemma words_blank (s : jstring) : isBlank s = true -> words s = [].
Proof.
  intros H. unfold words. now rewrite (wordsFrom_blank s H []).
Qed.

(** Every word is a non-empty run of code units that are not whitespace. *)
Lemma wordsFrom_wellformed (s : jstring) :
  forall cur, forallb (fun c => negb (is_space c)) cur = true ->
    Forall (fun w => w <> [] /\ forallb (fun c => negb (is_space c)) w = true)
           (wordsFrom cur s).
Proof.
  induction s as [|c s IH]; intros cur Hcur; simpl.
  - destruct cur; simpl; constructor; [|constructor].
    split; [discriminate|assumption].
  - destruct (is_space c) eqn:E.
    + destruct cur as [|d cur]; simpl.
      * now apply IH.
      * constructor; [split; [discriminate|assumption]|now apply IH].
    + apply IH. rewrite forallb_app, Hcur. simpl. now rewrite E.
Qed.

Example words_of_a_sentence :
  words (lit "  hello   world  foo ") = [lit "hello"; lit "world"; lit "foo"]
  /\ calculateWordCount (lit "  hello   world  foo ") = 3%N
  /\ calculateWordCount (lit "") = 0%N
  /\ calculateWordCount (lit "   ") = 0%N
  /\ calculateReadingTime 0 = 0%N
  /\ calculateReadingTime 200 = 1%N
  /\ calculateReadingTime 201 = 2%N.
Proof. repeat split; vm_compute; reflexivity. Qed.

Lemma calculateReadingTime_ceiling (n : N) :
  (n <= 200 * calculateReadingTime n /\
   forall m, n <= 200 * m -> calculateReadingTime n <= m)%N.
Proof.
  unfold calculateReadingTime.
  pose proof (N.div_mod n 200 ltac:(discriminate)) as Hd.
  pose proof (N.mod_lt n 200 ltac:(discriminate)) as Hm.
  generalize dependent (n / 200)%N. intros q Hd.
  generalize dependent (n mod 200)%N. intros r Hd Hm.
  destruct (N.eqb_spec r 0) as [Hz|Hz]; split; try intros m Hle; lia.
Qed.

End WordFacts.

(* ------------------------------------------------------------------ *)
(** ** What sanitising deletes *)

Module SanitizeFacts.
Import RegExp Article Spec StringFacts RegExpFacts CleaningFacts.

(** A property of match results that extends to longer inputs holds of every
    result of the matcher when it holds of the answers of the
    continuation. *)
Section RunInvariant.
Variable Q : jstring -> mstate -> Prop.
Hypothesis Q_cons : forall c s m, Q s m -> Q (c :: s) m.

Lemma star_iter_inv (step : option N -> jstring -> cont -> option mstate) :
  (forall k, answers Q k -> forall prev s m, step prev s k = Some m -> Q s m) ->
  forall k, answers Q k ->
  forall n prev s m, star_iter step k n prev s = Some m -> Q s m.
Proof.
  intros Hstep k Hk. induction n as [|n IH]; intros prev s m H.
  - exact (Hk _ _ _ H).
  - cbn [star_iter] in H.
    destruct (step prev s _) as [m'|] eqn:E.
    + injection H as <-. revert E. apply Hstep.
      intros p' s' m0 H0. destruct (length s' <? length s); [|discriminate].
      exact (IH _ _ _ H0).
    + exact (Hk _ _ _ H).
Qed.

Lemma run_inv (r : regex) :
  forall k, answers Q k -> forall prev s m, run r prev s k = Some m -> Q s m.
Proof.
  induction r as [|p|r1 IH1 r2 IH2|r1 IH1 r2 IH2|r1 IH1|r1 IH1|];
    intros k Hk prev s m H; cbn [run] in H.
  - exact (Hk _ _ _ H).
  - destruct s as [|c s]; [discriminate|]. destruct (p c); [|discriminate].
    apply Q_cons. exact (Hk _ _ _ H).
  - revert H. apply IH1. intros p' s' m' H'. revert H'. apply IH2, Hk.
  - destruct (run r1 prev s k) as [m'|] eqn:E.
    + injection H as <-. revert E. apply IH1, Hk.
    + revert H. apply IH2, Hk.
  - revert H. apply star_iter_inv; [exact IH1|exact Hk].
  - destruct (run r1 prev s _); [discriminate|]. exact (Hk _ _ _ H).
  - destruct (xorb _ _); [|discriminate]. exact (Hk _ _ _ H).
Qed.

End RunInvariant.

Lemma Subsequence_refl (s : jstring) : Subsequence s s.
Proof. induction s; constructor; assumption. Qed.

Lemma Subsequence_trans (a b c : jstring) :
  Subsequence a b -> Subsequence b c -> Subsequence a c.
Proof.
  intros Hab Hbc. revert a Hab.
  induction Hbc as [|x b c Hbc IH|x b c Hbc IH]; intros a Hab.
  - exact Hab.
  - inversion Hab; subst; constructor; auto.
  - constructor. auto.
Qed.

Lemma Subsequence_app_l (pre s : jstring) : Subsequence s (pre ++ s).
Proof. induction pre; simpl; [apply Subsequence_refl|now constructor]. Qed.

Lemma Subsequence_app_r (s w : jstring) : Subsequence s (s ++ w).
Proof.
  induction s as [|c s IH]; simpl.
  - induction w; constructor; assumption.
  - now constructor.
Qed.

Lemma Subsequence_length (a b : jstring) :
  Subsequence a b -> length a <= length b.
Proof. induction 1; simpl; lia. Qed.

Lemma matchAt_suffix (r : regex) (prev : option N) (s : jstring) (m : mstate) :
  matchAt r prev s = Some m -> exists pre, s = pre ++ snd m.
Proof.
  unfold matchAt.
  apply (run_inv (fun s m => exists pre, s = pre ++ snd m)).
  - intros c s0 m0 [pre ->]. now exists (c :: pre).
  - intros p s0 m0 H. injection H as <-. now exists [].
Qed.

Lemma replaceLoop_deletes (r : regex) (fuel : nat) :
  forall prev s, Subsequence (replaceLoop fuel r [] prev s) s.
Proof.
  induction fuel as [|fuel IH]; intros prev s; cbn [replaceLoop].
  - apply Subsequence_refl.
  - destruct (matchAt r prev s) as [[p' rest]|] eqn:E.
    + destruct (length rest <? length s).
      * cbn [app]. apply matchAt_suffix in E. destruct E as [pre E].
        cbn [snd] in E. subst s.
        eapply Subsequence_trans; [apply IH|apply Subsequence_app_l].
      * destruct s as [|c s]; [constructor|]. cbn [app]. constructor. apply IH.
    + destruct s as [|c s]; [constructor|]. constructor. apply IH.
Qed.

Lemma replaceAll_deletes (r : regex) (s : jstring) :
  Subsequence (replaceAll r [] s) s.
Proof. apply replaceLoop_deletes. Qed.

Lemma dropWhile_suffix (p : N -> bool) (s : jstring) :
  exists pre, s = pre ++ dropWhile p s.
Proof.
  induction s as [|c s [pre IH]]; simpl; [now exists []|].
  destruct (p c); [|now exists []]. exists (c :: pre). simpl. now rewrite <- IH.
Qed.

Lemma trim_deletes (s : jstring) : Subsequence (trim s) s.
Proof.
  unfold trim, trimStart.
  destruct (dropWhile_suffix is_space s) as [pre Hs].
  destruct (trimEnd_split (dropWhile is_space s)) as (w & Hw & _).
  apply (Subsequence_trans _ (dropWhile is_space s)).
  - set (t := dropWhile is_space s) in *. clearbody t. clear Hs.
    remember (trimEnd t) as u eqn:Eu. clear Eu. subst t.
    apply Subsequence_app_r.
  - remember (dropWhile is_space s) as t eqn:Et. clear Et Hw. subst s.
    apply Subsequence_app_l.
Qed.

Lemma sanitize_deletes (content : jstring) :
  Subsequence (sanitizeArticleContent content) content.
Proof.
  unfold sanitizeArticleContent.
  eapply Subsequence_trans; [apply trim_deletes|].
  eapply Subsequence_trans; [apply replaceAll_deletes|].
  eapply Subsequence_trans; [apply replaceAll_deletes|].
  eapply Subsequence_trans; [apply replaceAll_deletes|].
  apply replaceAll_deletes.
Qed.

Lemma chr_i_punctuation (a : ascii) (c : N) :
  punctuation a ->
  (upcase c =? upcase (N_of_ascii a))%N = true -> c = N_of_ascii a.
Proof.
  unfold punctuation. intros Ha H. apply N.eqb_eq in H.
  assert (Hu : upcase (N_of_ascii a) = N_of_ascii a).
  { unfold upcase.
    destruct ((97 <=? N_of_ascii a) && (N_of_ascii a <=? 122))%N eqn:E;
      [|reflexivity].
    apply andb_true_iff in E. destruct E as [E1 E2]. apply N.leb_le in E1, E2. lia. }
  rewrite Hu in H. unfold upcase in H.
  destruct ((97 <=? c) && (c <=? 122))%N eqn:E; [|exact H].
  apply andb_true_iff in E. destruct E as [E1 E2]. apply N.leb_le in E1, E2. lia.
Qed.

Lemma run_chr_i_In (a : ascii) (prev : option N) (s : jstring) (k : cont)
  (m : mstate) :
  punctuation a -> run (chr_i a) prev s k = Some m -> In (N_of_ascii a) s.
Proof.
  intros Ha H. unfold chr_i in H. cbn [run] in H.
  destruct s as [|c s]; [discriminate|].
  destruct (upcase c =? upcase (N_of_ascii a))%N eqn:E; [|discriminate].
  left. now apply chr_i_punctuation in E.
Qed.

Lemma run_text_i_In (a : ascii) (l : list ascii) :
  punctuation a -> In a l ->
  forall prev s k m, run (seq_of chr_i l) prev s k = Some m -> In (N_of_ascii a) s.
Proof.
  intros Ha. induction l as [|a0 l IH]; intros Hin prev s k m H; [destruct Hin|].
  destruct l as [|a1 l].
  - destruct Hin as [->|[]]. cbn [seq_of] in H. exact (run_chr_i_In _ _ _ _ _ Ha H).
  - change (seq_of chr_i (a0 :: a1 :: l))
      with (Seq (chr_i a0) (seq_of chr_i (a1 :: l))) in H.
    destruct Hin as [->|Hin].
    + cbn [run] in H. exact (run_chr_i_In _ _ _ _ _ Ha H).
    + cbn [run] in H. unfold chr_i at 1 in H. cbn [run] in H.
      destruct s as [|c s]; [discriminate|].
      destruct (upcase c =? _)%N; [|discriminate].
      right. exact (IH Hin _ _ _ _ H).
Qed.

Lemma run_seq_last (t : N) (r D : regex) :
  (forall k p s m, run D p s k = Some m -> In t s) ->
  forall k prev s m, run (Seq r D) prev s k = Some m -> In t s.
Proof.
  intros HD k prev s m H. cbn [run] in H. revert H.
  apply (run_inv (fun s _ => In t s)).
  - intros c s0 _ H0. now right.
  - intros p s0 m0 H0. exact (HD _ _ _ _ H0).
Qed.

Lemma run_seq_first (t : N) (r D : regex) :
  (forall k p s m, run r p s k = Some m -> In t s) ->
  forall k prev s m, run (Seq r D) prev s k = Some m -> In t s.
Proof.
  intros Hr k prev s m H. cbn [run] in H. exact (Hr _ _ _ _ H).
Qed.

Lemma script_needs_lt (prev : option N) (s : jstring) (m : mstate) :
  matchAt re_script prev s = Some m -> In 60%N s.
Proof.
  unfold matchAt, re_script, re_block. apply run_seq_first.
  intros k p s0 m0. apply (run_text_i_In "<"); [unfold punctuation; cbn; lia|].
  cbn. auto.
Qed.

Lemma iframe_needs_lt (prev : option N) (s : jstring) (m : mstate) :
  matchAt re_iframe prev s = Some m -> In 60%N s.
Proof.
  unfold matchAt, re_iframe, re_block. apply run_seq_first.
  intros k p s0 m0. apply (run_text_i_In "<"); [unfold punctuation; cbn; lia|].
  cbn. auto.
Qed.

Lemma javascript_needs_colon (prev : option N) (s : jstring) (m : mstate) :
  matchAt re_javascript prev s = Some m -> In 58%N s.
Proof.
  unfold matchAt, re_javascript, text_i.
  apply (run_text_i_In ":"); [unfold punctuation; cbn; lia|]. cbn. auto 20.
Qed.

Lemma handler_needs_equals (prev : option N) (s : jstring) (m : mstate) :
  matchAt re_handler prev s = Some m -> In 61%N s.
Proof.
  unfold matchAt, re_handler. apply run_seq_last. apply run_seq_last.
  apply run_seq_last. intros k p s0 m0.
  apply (run_chr_i_In "="). unfold punctuation; cbn; lia.
Qed.

Lemma replaceLoop_no_match (P : N -> Prop) (r : regex) (rep : jstring) :
  (forall prev s m, matchAt r prev s = Some m -> exists c, In c s /\ ~ P c) ->
  forall fuel prev s, Forall P s -> replaceLoop fuel r rep prev s = s.
Proof.
  intros Hr. induction fuel as [|fuel IH]; intros prev s Hs; cbn [replaceLoop];
    [reflexivity|].
  destruct (matchAt r prev s) as [[p' rest]|] eqn:E.
  - destruct (Hr _ _ _ E) as (c & Hc & Hn). rewrite Forall_forall in Hs.
    destruct (Hn (Hs c Hc)).
  - destruct s as [|c s]; [reflexivity|]. inversion Hs; subst.
    now rewrite IH.
Qed.

Lemma plainChar_not (t : N) :
  t = 60%N \/ t = 58%N \/ t = 61%N -> ~ plainChar t.
Proof.
  unfold plainChar. intros [-> | [-> | ->]] (H1 & H2 & H3); congruence.
Qed.

Lemma replaceAll_plain (r : regex) (t : N) (content : jstring) :
  t = 60%N \/ t = 58%N \/ t = 61%N ->
  (forall prev s m, matchAt r prev s = Some m -> In t s) ->
  Forall plainChar content -> replaceAll r [] content = content.
Proof.
  intros Ht Hr H. unfold replaceAll.
  apply (replaceLoop_no_match plainChar); [|exact H].
  intros prev s m Hm. exists t. split; [exact (Hr _ _ _ Hm)|].
  apply plainChar_not, Ht.
Qed.

Lemma sanitize_plain (content : jstring) :
  Forall plainChar content -> sanitizeArticleContent content = trim content.
Proof.
  intros H. unfold sanitizeArticleContent.
  rewrite (replaceAll_plain re_script 60 content);
    [|tauto|exact script_needs_lt|exact H].
  rewrite (replaceAll_plain re_iframe 60 content);
    [|tauto|exact iframe_needs_lt|exact H].
  rewrite (replaceAll_plain re_javascript 58 content);
    [|tauto|exact javascript_needs_colon|exact H].
  rewrite (replaceAll_plain re_handler 61 content);
    [|tauto|exact handler_needs_equals|exact H].
  reflexivity.
Qed.

(** *** What each pass deletes *)


(** The scan steps over a prefix at no position of which a match starts. *)
Lemma replaceLoop_skip (r : regex) (rest : jstring) (u : jstring) :
  (forall prev u1 c u2, u = u1 ++ c :: u2 ->
     matchAt r prev (c :: u2 ++ rest) = None) ->
  forall fuel prev,
  exists prev',
    replaceLoop (length u + fuel) r [] prev (u ++ rest)
    = u ++ replaceLoop fuel r [] prev' rest.
Proof.
  induction u as [|c u IH]; intros Hu fuel prev.
  - now exists prev.
  - cbn [length Nat.add app replaceLoop].
    rewrite (Hu prev [] c u eq_refl).
    destruct (IH (fun prev u1 d u2 E =>
                    Hu prev (c :: u1) d u2 (f_equal (cons c) E))
                fuel (Some c)) as [prev' E].
    exists prev'. now rewrite E.
Qed.


(** A text at no position of which a match starts is left as it is. *)
Lemma replaceAll_none (r : regex) (s : jstring) :
  (forall prev u1 c u2, s = u1 ++ c :: u2 -> matchAt r prev (c :: u2) = None) ->
  replaceAll r [] s = s.
Proof.
  intros H. unfold replaceAll.
  destruct (@replaceLoop_skip r [] s) with (fuel := 1) (prev := @None N)
    as [prev' E].
  - intros prev u1 c u2 Hs. rewrite app_nil_r. exact (H prev u1 c u2 Hs).
  - rewrite app_nil_r in E. replace (S (length s)) with (length s + 1) by lia.
    rewrite E. cbn [replaceLoop].
    assert (Hn : matchAt r prev' [] = None \/ exists m, matchAt r prev' [] = Some m).
    { destruct (matchAt r prev' []); eauto. }
    destruct Hn as [->|[[p' rest] Hm]]; [now rewrite app_nil_r|].
    rewrite Hm. apply matchAt_suffix in Hm. destruct Hm as [pre Hm].
    cbn [snd] in Hm. symmetry in Hm. apply app_eq_nil in Hm.
    destruct Hm as [_ ->]. cbn. now rewrite app_nil_r.
Qed.



Lemma upcase_refl_eqb (c : N) : (upcase c =? upcase c)%N = true.
Proof. apply N.eqb_refl. Qed.




(** *** Texts in which no match starts *)





Lemma block_at_end (open close : string) :
  noMatchAt (re_block open close) [] -> everywhere (noMatchAt (re_block open close)) [].
Proof. intros H. split; [exact H|exact I]. Qed.



Lemma plain_no_lt (s : jstring) :
  Forall plainChar s -> Forall (fun c => c <> 60%N) s.
Proof. apply Forall_impl. intros c H. apply H. Qed.





(** *** The prefix [javascript:] *)






(** *** Event-handler attributes *)






Section HandlerContext.
Variables (x : N) (T : jstring).
Hypothesis x_not_word : is_word x = false.
Hypothesis x_not_equals : x <> 61%N.
Hypothesis T_starts :
  exists c T', T = c :: T' /\ is_space c = false /\ c <> 61%N.



End HandlerContext.



(** *** One occurrence in plain text *)











End SanitizeFacts.

Module LinkFacts.
Import Spec WebScraperService.

Lemma jstring_eqb_eq (a b : jstring) : jstring_eqb a b = true <-> a = b.
Proof.
  unfold jstring_eqb. destruct (list_eq_dec N.eq_dec a b); split; congruence.
Qed.

Lemma jstring_eqb_refl (a : jstring) : jstring_eqb a a = true.
Proof. now apply jstring_eqb_eq. Qed.

Lemma jstring_eqb_neq (a b : jstring) : jstring_eqb a b = false <-> a <> b.
Proof.
  unfold jstring_eqb. destruct (list_eq_dec N.eq_dec a b); split; congruence.
Qed.

Lemma existsb_eqb_In (x : jstring) (l : list jstring) :
  existsb (jstring_eqb x) l = true <-> In x l.
Proof.
  rewrite existsb_exists. split.
  - intros [y [Hy He]]. apply jstring_eqb_eq in He. now subst.
  - intros H. exists x. split; [assumption|apply jstring_eqb_refl].
Qed.

Lemma filter_notIn_snoc (acc l : list jstring) (x : jstring) :
  filter (notIn (acc ++ [x])) l
  = filter (notIn acc) (filter (fun y => negb (jstring_eqb y x)) l).
Proof.
  induction l as [|y l IH]; simpl; [reflexivity|].
  unfold notIn at 1. rewrite existsb_app. simpl. rewrite orb_false_r.
  fold (notIn acc y). rewrite negb_orb.
  destruct (jstring_eqb y x); simpl.
  - rewrite andb_false_r. exact IH.
  - rewrite andb_true_r.
    change (negb (existsb (jstring_eqb y) acc)) with (notIn acc y).
    destruct (notIn acc y); [now f_equal|exact IH].
Qed.

Lemma filter_notIn_member (acc l : list jstring) (x : jstring) :
  In x acc ->
  filter (notIn acc) (filter (fun y => negb (jstring_eqb y x)) l)
  = filter (notIn acc) l.
Proof.
  intros Hx. induction l as [|y l IH]; simpl; [reflexivity|].
  destruct (jstring_eqb y x) eqn:E; simpl.
  - apply jstring_eqb_eq in E. subst y.
    unfold notIn at 2. apply existsb_eqb_In in Hx. rewrite Hx. exact IH.
  - destruct (notIn acc y); [now f_equal|exact IH].
Qed.

(** A [Set] filled from a list holds the first occurrences, in order. *)
Lemma fold_setAdd (l : list jstring) :
  forall acc,
    fold_left setAdd l acc = acc ++ filter (notIn acc) (firstOccurrences l).
Proof.
  induction l as [|x l IH]; intros acc; cbn [fold_left firstOccurrences filter].
  - now rewrite app_nil_r.
  - rewrite IH. unfold setAdd.
    assert (Hn : notIn acc x = negb (existsb (jstring_eqb x) acc))
      by reflexivity.
    rewrite Hn.
    destruct (existsb (jstring_eqb x) acc) eqn:E; cbn [negb].
    + rewrite filter_notIn_member; [reflexivity|]. now apply existsb_eqb_In.
    + rewrite filter_notIn_snoc, <- app_assoc. reflexivity.
Qed.

Lemma uniq_firstOccurrences (l : list jstring) : uniq l = firstOccurrences l.
Proof.
  unfold uniq. rewrite fold_setAdd. simpl.
  induction (firstOccurrences l) as [|y t IH]; simpl; [reflexivity|].
  now f_equal.
Qed.

Lemma firstOccurrences_In (l : list jstring) (x : jstring) :
  In x (firstOccurrences l) <-> In x l.
Proof.
  induction l as [|y l IH]; simpl; [tauto|].
  rewrite filter_In, IH. split.
  - intros [H|[H _]]; auto.
  - intros [H|H]; [now left|].
    destruct (list_eq_dec N.eq_dec y x) as [Heq|Hne]; [now left|].
    right. split; [assumption|].
    apply negb_true_iff. apply jstring_eqb_neq. congruence.
Qed.

Lemma firstOccurrences_NoDup (l : list jstring) : NoDup (firstOccurrences l).
Proof.
  induction l as [|y l IH]; simpl; constructor.
  - rewrite filter_In. intros [_ H].
    rewrite jstring_eqb_refl in H. discriminate.
  - now apply NoDup_filter.
Qed.

Lemma startsWith_app (a b p : jstring) :
  startsWith a p = true -> startsWith (a ++ b) p = true.
Proof.
  revert a. induction p as [|c p IH]; intros a.
  - intros _. destruct a; [destruct b|]; reflexivity.
  - destruct a as [|d a]; simpl; [discriminate|].
    intros H. apply andb_prop in H. destruct H as [-> H]. simpl. now apply IH.
Qed.

(** What a strategy finds: the [href]s that mention [/blog], in document
    order, those that do not start with [http] behind the site origin. *)
Lemma foundLinks_blogHrefs (els : list Element) :
  foundLinks els = map withOrigin (blogHrefs els).
Proof.
  unfold foundLinks. induction els as [|el els IH]; [reflexivity|].
  cbn [map filter blogHrefs]. unfold isBlogHref at 1.
  destruct (getAttribute el "href") as [h|]; [|exact IH].
  destruct h as [|c h]; [exact IH|]. cbn [truthy andb].
  destruct (includes (c :: h) (lit "/blog")); [|exact IH].
  cbn [map toAbsolute]. unfold withOrigin at 1. now rewrite IH.
Qed.

Lemma blogHrefs_In (els : list Element) (h : jstring) :
  In h (blogHrefs els) <->
  exists el, In el els /\ getAttribute el "href" = Some h
             /\ includes h (lit "/blog") = true.
Proof.
  induction els as [|el els IH]; cbn [blogHrefs].
  - split; [intros []|intros (el & [] & _)].
  - destruct (getAttribute el "href") as [h0|] eqn:Eh.
    + destruct (includes h0 (lit "/blog")) eqn:Ei.
      * split.
        -- intros [<-|H]; [exists el; repeat split; auto; now left|].
           apply IH in H. destruct H as (el' & Hin & H1 & H2).
           exists el'. repeat split; auto. now right.
        -- intros (el' & [<-|Hin] & H1 & H2).
           ++ left. congruence.
           ++ right. apply IH. now exists el'.
      * rewrite IH. split.
        -- intros (el' & Hin & H1 & H2). exists el'. repeat split; auto. now right.
        -- intros (el' & [<-|Hin] & H1 & H2); [congruence|now exists el'].
    + rewrite IH. split.
      * intros (el' & Hin & H1 & H2). exists el'. repeat split; auto. now right.
      * intros (el' & [<-|Hin] & H1 & H2); [congruence|now exists el'].
Qed.

Lemma withOrigin_http (h : jstring) : startsWith (withOrigin h) (lit "http") = true.
Proof.
  unfold withOrigin. destruct (startsWith h (lit "http")) eqn:E; [exact E|].
  now apply startsWith_app.
Qed.

(** The loop over the strategies stops at the first one that finds links. *)
Lemma firstStrategy_spec (page : Page) (sels : list string) :
  (exists pre sel post,
      sels = pre ++ sel :: post /\
      Forall (comesUpEmpty page) pre /\
      rejects page sel = false /\
      blogHrefs (querySelectorAll page sel) <> [] /\
      firstStrategy page sels
      = map withOrigin (blogHrefs (querySelectorAll page sel)))
  \/ (Forall (comesUpEmpty page) sels /\ firstStrategy page sels = []).
Proof.
  induction sels as [|sel sels IH]; cbn [firstStrategy].
  - right. split; [constructor|reflexivity].
  - destruct (rejects page sel) eqn:Er.
    + destruct IH as [[pre [s [post [-> [Hpre [Hr [Hne Heq]]]]]]]|[Hall Heq]].
      * left. exists (sel :: pre), s, post. repeat split; auto.
        constructor; [now left|assumption].
      * right. split; [|assumption]. constructor; [now left|assumption].
    + rewrite foundLinks_blogHrefs.
      destruct (blogHrefs (querySelectorAll page sel)) as [|h hs] eqn:Ef.
      * cbn [map length Nat.ltb Nat.leb].
        destruct IH as [[pre [s [post [-> [Hpre [Hr [Hne Heq]]]]]]]|[Hall Heq]].
        -- left. exists (sel :: pre), s, post. repeat split; auto.
           constructor; [now right|assumption].
        -- right. split; [|assumption]. constructor; [now right|assumption].
      * cbn [map length Nat.ltb Nat.leb]. left. exists [], sel, sels.
        repeat split; auto; rewrite Ef; [discriminate|reflexivity].
Qed.

End LinkFacts.

Module PaginationFacts.
Import Spec RegExp StringFacts RegExpFacts JSON WebScraperService.

(** *** The order of Numbers and the comparator *)

Lemma Number_le_refl (a : Number) : Number_le a a.
Proof. destruct a; simpl; [lia|exact I]. Qed.

Lemma Number_le_trans (a b c : Number) :
  Number_le a b -> Number_le b c -> Number_le a c.
Proof. destruct a, b, c; simpl; try tauto; lia. Qed.

(** A negative difference tells the smaller Number, any other the greater
    or equal one. *)
Lemma subtract_negative (b a : Number) :
  (subtract b a <? 0)%Z = true -> Number_le b a.
Proof.
  destruct b as [x|], a as [y|]; simpl; intros H; try exact I;
    try discriminate H.
  apply Z.ltb_lt in H. lia.
Qed.

Lemma subtract_not_negative (b a : Number) :
  (subtract b a <? 0)%Z = false -> Number_le a b.
Proof.
  destruct b as [x|], a as [y|]; simpl; intros H; try exact I;
    try discriminate H.
  apply Z.ltb_ge in H. lia.
Qed.

Lemma subtract_negative_strict (b a : Number) :
  (subtract b a <? 0)%Z = true -> ~ Number_le a b.
Proof.
  destruct b as [x|], a as [y|]; simpl; intros H; try discriminate H;
    [|tauto].
  apply Z.ltb_lt in H. lia.
Qed.

Lemma nearestNumber_safe (n : N) :
  (n <= maxSafeInteger)%N -> nearestNumber n = Finite n.
Proof.
  intros H. unfold nearestNumber.
  assert (E : (n <? 2 ^ 53)%N = true).
  { apply N.ltb_lt. unfold maxSafeInteger in H.
    change (2 ^ 53)%N with 9007199254740992%N. lia. }
  now rewrite E.
Qed.

Section Sorting.
Variable A : Type.
Variable key : A -> Number.

Lemma insertSorted_In (x : A) (l : list A) (y : A) :
  In y (insertSorted (descending key) x l) <-> y = x \/ In y l.
Proof.
  induction l as [|z l IH]; simpl.
  - intuition.
  - destruct (descending key z x <? 0)%Z; simpl; rewrite ?IH; intuition.
Qed.

Lemma sortBy_In (l : list A) (y : A) :
  In y (sortBy (descending key) l) <-> In y l.
Proof.
  induction l as [|x l IH]; simpl; [tauto|].
  unfold sortBy in IH. rewrite insertSorted_In, IH. intuition.
Qed.

Lemma insertSorted_headIsMax (x : A) (l : list A) :
  headIsMax key l -> headIsMax key (insertSorted (descending key) x l).
Proof.
  destruct l as [|z l]; cbn [insertSorted headIsMax].
  - intros _ y [<-|[]]. apply Number_le_refl.
  - intros H. unfold descending at 1.
    destruct (subtract (key x) (key z) <? 0)%Z eqn:E; cbn [headIsMax].
    + apply subtract_negative in E.
      intros y [<-|Hy]; [apply Number_le_refl|].
      apply insertSorted_In in Hy. destruct Hy as [->|Hy]; [exact E|].
      apply H. now right.
    + apply subtract_not_negative in E.
      intros y [<-|[<-|Hy]]; [apply Number_le_refl|exact E|].
      apply (Number_le_trans _ (key z)); [|exact E]. apply H. now right.
Qed.

(** After the sort the first element has the greatest key. *)
Lemma sortBy_headIsMax (l : list A) :
  headIsMax key (sortBy (descending key) l).
Proof.
  induction l as [|x l IH]; simpl; [exact I|].
  now apply insertSorted_headIsMax.
Qed.

Lemma sortBy_nil (l : list A) : sortBy (descending key) l = [] -> l = [].
Proof.
  destruct l as [|x l]; [reflexivity|]. simpl.
  destruct (sortBy (descending key) l) as [|z t]; simpl; [discriminate|].
  destruct (descending key z x <? 0)%Z; discriminate.
Qed.

(** The sort is stable: its first element is the first of the greatest
    elements of the list. *)
Lemma sortBy_head_first (l : list A) (best : A) (rest : list A) :
  sortBy (descending key) l = best :: rest ->
  exists pre post,
    l = pre ++ best :: post
    /\ (forall y, In y pre -> ~ Number_le (key best) (key y))
    /\ (forall y, In y post -> Number_le (key y) (key best)).
Proof.
  revert best rest. induction l as [|x l IH]; intros best rest; [discriminate|].
  cbn [sortBy fold_right]. fold (sortBy (descending key) l).
  pose proof (sortBy_headIsMax l) as Hmax.
  destruct (sortBy (descending key) l) as [|z t] eqn:Es.
  - apply sortBy_nil in Es. subst l. cbn [insertSorted].
    intros H. injection H as <- <-. exists [], []. repeat split; intros y [].
  - cbn [insertSorted]. unfold descending at 1.
    destruct (subtract (key x) (key z) <? 0)%Z eqn:E.
    + intros H. injection H as <- <-.
      destruct (IH z t eq_refl) as (pre & post & -> & Hpre & Hpost).
      exists (x :: pre), post. repeat split; [|exact Hpost].
      intros y [<-|Hy]; [now apply subtract_negative_strict|now apply Hpre].
    + intros H. injection H as <- <-. exists [], l. repeat split; [intros y []|].
      intros y Hy. apply subtract_not_negative in E.
      apply (Number_le_trans _ (key z)); [|exact E].
      apply Hmax. rewrite <- Es. now apply sortBy_In.
Qed.

End Sorting.

(** *** The number in the text of a link *)

Lemma digit_not_space (c : N) : is_digit c = true -> is_space c = false.
Proof.
  unfold is_digit. intros H. apply andb_true_iff in H. destruct H as [H1 H2].
  apply N.leb_le in H1, H2.
  destruct (is_space c) eqn:E; [|reflexivity]. unfold is_space in E.
  repeat (apply orb_true_iff in E; destruct E as [E|E]);
    try (apply andb_true_iff in E; destruct E as [E1 E2];
         apply N.leb_le in E1, E2);
    try apply N.eqb_eq in E; lia.
Qed.

Lemma firstn_takeWhile (p : N -> bool) (s : jstring) :
  firstn (length s - length (dropWhile p s)) s = takeWhile p s.
Proof.
  induction s as [|c s IH]; [reflexivity|]. cbn [dropWhile takeWhile].
  destruct (p c).
  - pose proof (dropWhile_length p s) as Hl.
    replace (length (c :: s) - length (dropWhile p s))
      with (S (length s - length (dropWhile p s))) by (cbn [length]; lia).
    cbn [firstn]. now rewrite IH.
  - now rewrite Nat.sub_diag.
Qed.

Lemma parseDigits_run (s : jstring) :
  forall acc,
    fold_left (fun a c => if is_digit c then (10 * a + (c - 48))%N else a)
      (takeWhile is_digit s) acc
    = digitsValue acc s.
Proof.
  induction s as [|c s IH]; intros acc; [reflexivity|].
  cbn [takeWhile digitsValue]. destruct (is_digit c) eqn:E; [|reflexivity].
  cbn [fold_left]. rewrite E. apply IH.
Qed.

Lemma matchAt_digits_nil (prev : option N) : matchAt re_digits prev [] = None.
Proof. reflexivity. Qed.

Lemma matchAt_digits_other (prev : option N) (c : N) (s : jstring) :
  is_digit c = false -> matchAt re_digits prev (c :: s) = None.
Proof.
  intros E. unfold matchAt, re_digits, plus, digit. cbn [run]. now rewrite E.
Qed.

Lemma matchAt_digits_digit (prev : option N) (c : N) (s : jstring) :
  is_digit c = true ->
  exists p', matchAt re_digits prev (c :: s) = Some (p', dropWhile is_digit s).
Proof.
  intros E. unfold matchAt, re_digits, plus, digit. cbn [run]. rewrite E.
  apply star_class. lia.
Qed.

(** The match of [/\d+/] is the first run of digits of the text. *)
Lemma exec_digits (s : jstring) :
  forall prev,
    match execFrom re_digits prev s with
    | Some m => truthy m = true /\ shownNumber s = Some (parseDigits m)
    | None => shownNumber s = None
    end.
Proof.
  induction s as [|c s IH]; intros prev; [reflexivity|].
  cbn [execFrom shownNumber]. destruct (is_digit c) eqn:E.
  - destruct (matchAt_digits_digit prev c s E) as [p' ->].
    assert (Hrun : firstn (length (c :: s) - length (dropWhile is_digit s)) (c :: s)
                   = c :: takeWhile is_digit s).
    { pose proof (firstn_takeWhile is_digit (c :: s)) as H.
      cbn [dropWhile takeWhile] in H. now rewrite E in H. }
    rewrite Hrun. split; [reflexivity|].
    unfold parseDigits. cbn [fold_left digitsValue]. rewrite E.
    now rewrite parseDigits_run.
  - rewrite (matchAt_digits_other prev c s E). apply IH.
Qed.

Lemma test_digits (s : jstring) :
  forall prev,
    testFrom re_digits prev s
    = match shownNumber s with Some _ => true | None => false end.
Proof.
  induction s as [|c s IH]; intros prev; [reflexivity|].
  cbn [testFrom shownNumber]. destruct (is_digit c) eqn:E.
  - now destruct (matchAt_digits_digit prev c s E) as [p' ->].
  - rewrite (matchAt_digits_other prev c s E). apply IH.
Qed.

Lemma digitsValue_blank_tail (u w : jstring) :
  forallb is_space w = true ->
  forall acc, digitsValue acc (u ++ w) = digitsValue acc u.
Proof.
  intros Hw. induction u as [|c u IH]; intros acc; cbn [app digitsValue].
  - destruct w as [|d w]; [reflexivity|]. cbn [digitsValue forallb] in *.
    apply andb_true_iff in Hw. destruct Hw as [Hd _].
    destruct (is_digit d) eqn:E; [|reflexivity].
    apply digit_not_space in E. congruence.
  - destruct (is_digit c); [apply IH|reflexivity].
Qed.

Lemma shownNumber_blank (w : jstring) :
  forallb is_space w = true -> shownNumber w = None.
Proof.
  induction w as [|d w IH]; [reflexivity|]. cbn [forallb shownNumber].
  intros H. apply andb_true_iff in H. destruct H as [Hd Hw].
  destruct (is_digit d) eqn:E; [|exact (IH Hw)].
  apply digit_not_space in E. congruence.
Qed.

Lemma shownNumber_blank_tail (u w : jstring) :
  forallb is_space w = true -> shownNumber (u ++ w) = shownNumber u.
Proof.
  intros Hw. induction u as [|c u IH]; cbn [app shownNumber].
  - now apply shownNumber_blank.
  - destruct (is_digit c); [|exact IH].
    f_equal. apply (digitsValue_blank_tail (c :: u) w Hw).
Qed.

Lemma shownNumber_trimStart (s : jstring) :
  shownNumber (dropWhile is_space s) = shownNumber s.
Proof.
  induction s as [|c s IH]; [reflexivity|]. cbn [dropWhile].
  destruct (is_space c) eqn:E; [|reflexivity].
  cbn [shownNumber]. destruct (is_digit c) eqn:D; [|exact IH].
  apply digit_not_space in D. congruence.
Qed.

(** The white space around a text shows no number. *)
Lemma shownNumber_trim (s : jstring) : shownNumber (trim s) = shownNumber s.
Proof.
  unfold trim. destruct (trimEnd_split (trimStart s)) as (w & Hw & Hb).
  rewrite <- (shownNumber_trimStart s). fold (trimStart s).
  rewrite Hw at 2. now rewrite shownNumber_blank_tail.
Qed.

(** A link counts as numbered when it has an [href] and its text shows a
    number. *)
Lemma isNumbered_shown (el : Element) :
  isNumbered (pageLinkOf el)
  = match getAttribute el "href", pageShown el with
    | Some h, Some _ => truthy h
    | _, _ => false
    end.
Proof.
  unfold isNumbered, pageLinkOf, pageShown. cbn [link_href link_text].
  destruct (getAttribute el "href") as [h|]; [|reflexivity].
  destruct (textContent el) as [t|]; cbn [option_map text_or_empty].
  - unfold test. rewrite test_digits, shownNumber_trim.
    destruct (shownNumber t); [apply andb_true_r|apply andb_false_r].
  - apply andb_false_r.
Qed.

(** The number of a link is the Number nearest to the number that its text
    shows. *)
Lemma pageNumber_shown (el : Element) (n : N) :
  pageShown el = Some n -> pageNumber (pageLinkOf el) = nearestNumber n.
Proof.
  unfold pageNumber, pageLinkOf, pageShown. cbn [link_text].
  destruct (textContent el) as [t|]; [|discriminate]. cbn [option_map].
  intros Hn. rewrite <- shownNumber_trim in Hn.
  pose proof (exec_digits (trim t) None) as He. unfold exec.
  destruct (execFrom re_digits None (trim t)) as [m|].
  - destruct He as [Ht Hs]. unfold or_else. rewrite Ht. unfold parseInt.
    congruence.
  - congruence.
Qed.

Lemma numberedLinks_elements (page : Page) :
  numberedLinks page = map pageLinkOf (numberedElements page).
Proof.
  unfold numberedLinks, numberedElements.
  induction (querySelectorAll page pageLinkSelector) as [|el els IH];
    [reflexivity|].
  cbn [map filter]. rewrite isNumbered_shown.
  destruct (match getAttribute el "href", pageShown el with
            | Some h, Some _ => truthy h
            | _, _ => false
            end); [cbn [map]; now rewrite IH|exact IH].
Qed.

End PaginationFacts.

Module ExtractionFacts.
Import Spec WebScraperService Article.

Lemma truthy_nonempty (s : jstring) : truthy s = true <-> s <> [].
Proof. destruct s; simpl; split; congruence. Qed.

Lemma or_else_truthy (a b : jstring) :
  truthy b = true -> truthy (or_else a b) = true.
Proof. unfold or_else. now destruct (truthy a) eqn:E. Qed.

(** The title handed back by the page is never empty. *)
Lemma evaluateArticle_title (page : Page) :
  truthy (ad_title (evaluateArticle page)) = true.
Proof. simpl. apply or_else_truthy, or_else_truthy. reflexivity. Qed.

Lemma evaluateArticle_title_fallback (page : Page) :
  firstTitle page titleSelectors = [] ->
  ad_title (evaluateArticle page)
  = if truthy (documentTitle page) then documentTitle page else lit "Untitled".
Proof. simpl. now intros ->. Qed.

Lemma substring0_truthy (n : nat) (s : jstring) :
  0 < n -> truthy s = true -> truthy (substring0 n s) = true.
Proof. destruct n; [lia|]. now destruct s. Qed.

Lemma substring0_length (n : nat) (s : jstring) : length (substring0 n s) <= n.
Proof. apply firstn_le_length. Qed.

(** The checks of [candidateOf], read off its result. *)
Lemma candidateOf_some (ext : Externals) (url : jstring) (d : ArticleData)
  (c : CreateArticleData) :
  candidateOf ext url d = Some c ->
  ad_title d <> [] /\ ad_content d <> [] /\
  new_title c = substring0 maxTitleLength (ad_title d) /\
  new_content c = cleanArticleContent ext (ad_content d) /\
  new_url c = url /\
  minContentLength <= length (new_content c).
Proof.
  unfold candidateOf.
  destruct (truthy (ad_title d)) eqn:Et; [|discriminate].
  destruct (truthy (ad_content d)) eqn:Ec; [|discriminate].
  simpl.
  destruct (Nat.ltb_spec (length (cleanArticleContent ext (ad_content d)))
              minContentLength) as [Hlt|Hge]; [discriminate|].
  intros H. injection H as <-. simpl.
  repeat split; try assumption; now apply truthy_nonempty.
Qed.


(** What the [try] block of [scrapeArticleContent] yields comes from
    [candidateOf] on the page that the URL renders. *)
Lemma extractArticle_some (ext : Externals) (world : World) (url : jstring)
  (c : CreateArticleData) :
  extractArticle ext world url = Some c ->
  exists page,
    navigate world url = Some page /\ evaluateRejects page = false /\
    candidateOf ext url (evaluateArticle page) = Some c.
Proof.
  unfold extractArticle.
  destruct (acceptsUserAgent (tab world url)); [|discriminate].
  destruct (navigate world url) as [page|]; [|discriminate].
  destruct (evaluateRejects page) eqn:Er; [discriminate|].
  intros H. now exists page.
Qed.


(** The outcome of [scrapeArticleContent]: with a browser and a tab, what
    the [try] block yields, or the rejection of [page.close()]. *)
Lemma scrapeArticleContent_outcome (ext : Externals) (world : World)
  (st : Service) (url : jstring) :
  snd (scrapeArticleContent ext world st url)
  = if (browser st || launches world) && opens (tab world url)
    then if closes (tab world url) then Ok (extractArticle ext world url)
         else Throw (BrowserError "page.close")
    else Ok None.
Proof.
  unfold scrapeArticleContent, initBrowser.
  destruct (browser st); cbn [orb andb fst snd].
  - destruct (opens (tab world url)); [|reflexivity].
    now destruct (closes (tab world url)).
  - destruct (launches world); cbn [andb]; [|reflexivity].
    destruct (opens (tab world url)); [|reflexivity].
    now destruct (closes (tab world url)).
Qed.

Lemma scrapeArticleContent_some (ext : Externals) (world : World)
  (st : Service) (url : jstring) (c : CreateArticleData) :
  snd (scrapeArticleContent ext world st url) = Ok (Some c) ->
  exists page,
    navigate world url = Some page /\ evaluateRejects page = false /\
    candidateOf ext url (evaluateArticle page) = Some c.
Proof.
  rewrite scrapeArticleContent_outcome.
  destruct ((browser st || launches world) && opens (tab world url));
    [|discriminate].
  destruct (closes (tab world url)); [|discriminate].
  intros H. injection H as H. now apply extractArticle_some in H.
Qed.


(** C9. The title cascade never yields an empty title: without a matching
    selector the title is the document title, and [Untitled] when that is
    empty too.  So the validation step rejects a page only for its content,
    and the title of every emitted candidate is non-empty and at most 500 code
    units long. *)
Theorem title_cascade_never_empty
  (ext : Externals) (world : World) (st : Service) (url : jstring)
  (page : Page) :
  ad_title (evaluateArticle page) <> []
  /\ (firstTitle page titleSelectors = [] ->
      ad_title (evaluateArticle page)
      = if truthy (documentTitle page) then documentTitle page
        else lit "Untitled")
  /\ (negb (truthy (ad_title (evaluateArticle page)))
      || negb (truthy (ad_content (evaluateArticle page))) = true
      <-> ad_content (evaluateArticle page) = [])
  /\ (forall c, snd (scrapeArticleContent ext world st url) = Ok (Some c) ->
        new_title c <> [] /\ length (new_title c) <= 500).
Proof.
  pose proof (evaluateArticle_title page) as Ht.
  pose proof (evaluateArticle_title_fallback page) as Hf.
  split; [now apply truthy_nonempty|].
  split; [exact Hf|].
  split.
  - clear Hf. generalize dependent (evaluateArticle page). intros d Ht.
    rewrite Ht. cbn [negb orb].
    destruct (ad_content d); simpl; split; congruence.
  - intros c H.
    apply scrapeArticleContent_some in H.
    destruct H as [pg [_ [_ Hc]]]. apply candidateOf_some in Hc.
    destruct Hc as [Hne [_ [-> _]]]. split.
    + apply truthy_nonempty. apply substring0_truthy.
      * unfold maxTitleLength. lia.
      * now apply truthy_nonempty.
    + apply (substring0_length maxTitleLength).
Qed.

(** The article page of the sample blog yields a candidate. *)
Example article_page_yields_candidate :
  snd (scrapeArticleContent Scenario.externals Scenario.blog Scenario.idle
         Scenario.firstPostUrl)
  = Ok (Some {| new_title := lit "First post";
                new_content := lit Scenario.sampleBody;
                new_url := Scenario.firstPostUrl;
                new_tags := Some [lit "chatbot"] |}).
Proof. vm_compute. reflexivity. Qed.

(** A heading over a body of five characters yields no candidate. *)
Example draft_page_yields_nothing :
  snd (scrapeArticleContent Scenario.externals Scenario.drafts Scenario.idle
         Scenario.draftUrl) = Ok None.
Proof. vm_compute. reflexivity. Qed.

(** Without a title element and a document title, the title is [Untitled]. *)
Example bare_page_is_untitled :
  ad_title (evaluateArticle Scenario.bare) = lit "Untitled"
  /\ map new_title
       (candidatesAt Scenario.externals Scenario.drafts Scenario.idle
          Scenario.bareUrl)
     = [lit "Untitled"].
Proof. split; vm_compute; reflexivity. Qed.

Lemma commonTags_NoDup : NoDup commonTags.
Proof.
  vm_compute.
  repeat (constructor; [simpl; intuition discriminate|]). constructor.
Qed.

Lemma filter_Sublist (p : jstring -> bool) (l : list jstring) :
  Sublist (filter p l) l.
Proof.
  induction l as [|x l IH]; cbn [filter]; [constructor|].
  destruct (p x); now constructor.
Qed.

(** X4. The tags of an article are the vocabulary terms that occur in the
    lower-cased title and content: each such term, once, and the terms in the
    order of the vocabulary, so that the tags are the vocabulary with the
    absent terms left out. *)
Theorem tags_are_vocabulary_terms
  (ext : Externals) (title content : jstring) :
  Sublist (extractTags ext title content) commonTags
  /\ NoDup (extractTags ext title content)
  /\ (forall tag,
        In tag (extractTags ext title content) <->
        In tag commonTags
        /\ includes (toLowerCase ext (title ++ lit " " ++ content)) tag = true).
Proof.
  unfold extractTags. split; [apply filter_Sublist|]. split.
  - apply NoDup_filter, commonTags_NoDup.
  - intros tag. apply filter_In.
Qed.

End ExtractionFacts.

Module RepositoryFacts.
Import Spec Article JSON ArticleRepository Orchestration LinkFacts WordFacts.
Import RegExp CleaningFacts SanitizeFacts JSONFacts.

(** The columns of a row, read off the article that it is mapped to. *)
Lemma mapRowToArticle_fields (engine : Engine) (r : Row) (a : Article) :
  mapRowToArticle engine r = Ok a ->
  id a = row_id r /\ title a = row_title r /\ content a = row_content r
  /\ url a = row_url r /\ scrapedDate a = scraped_date r
  /\ enhancedContent a
     = match enhanced_content r with
       | Some e => if truthy e then Some e else None
       | None => None
       end
  /\ isEnhanced a = is_enhanced r /\ wordCount a = word_count r
  /\ readingTime a = reading_time r /\ createdAt a = created_at r
  /\ updatedAt a = updated_at r /\ tagsOf engine r = Ok (tags a).
Proof.
  unfold mapRowToArticle. destruct (tagsOf engine r) as [parsed|e];
    [|discriminate].
  intros H. injection H as <-. cbn. repeat split.
Qed.

Lemma mapRowToArticle_articleOf (engine : Engine) (r : Row) :
  mapRowToArticle engine r
  = match tagsOf engine r with
    | Ok parsed => Ok (articleOf r parsed)
    | Throw e => Throw e
    end.
Proof. reflexivity. Qed.

(** A driver that hands the [tags] column over as text: the text written by
    [JSON.stringify] is read back by [JSON.parse]. *)
Lemma mapRowToArticle_text (engine : Engine) (r : Row) :
  jsonStrings engine = true -> tagsWellFormed r ->
  mapRowToArticle engine r
  = Ok (articleOf r
          (JArray (map JString
                     (match row_tags r with Some items => items | None => [] end)))).
Proof.
  intros Hj Hr. rewrite mapRowToArticle_articleOf. unfold tagsOf, handed.
  destruct (row_tags r) as [items|] eqn:E; [|reflexivity].
  rewrite Hj. unfold stringify at 1. cbn [truthy]. unfold parseTags.
  now rewrite (parse_stringify items (Hr items E)).
Qed.

(** A driver that hands the [tags] column over decoded: [JSON.parse] is
    applied to the items joined by commas. *)
Lemma mapRowToArticle_decoded (engine : Engine) (r : Row)
  (items : list jstring) :
  jsonStrings engine = false -> row_tags r = Some items ->
  mapRowToArticle engine r
  = match parse (toText items) with
    | Some v => Ok (articleOf r v)
    | None => Throw (SyntaxError (syntaxMessage engine (toText items)))
    end.
Proof.
  intros Hj Hr. rewrite mapRowToArticle_articleOf. unfold tagsOf, handed.
  rewrite Hr, Hj. unfold parseTags. now destruct (parse (toText items)).
Qed.

Lemma mapRowToArticle_unreadable (engine : Engine) (r : Row) :
  jsonStrings engine = false -> tagsUnreadable r ->
  exists text, mapRowToArticle engine r
               = Throw (SyntaxError (syntaxMessage engine text)).
Proof.
  intros Hj (items & Hr & Hp). exists (toText items).
  now rewrite (mapRowToArticle_decoded engine r items Hj Hr), Hp.
Qed.

Lemma firstArticle_one (engine : Engine) (r : Row) :
  firstArticle engine [r]
  = match mapRowToArticle engine r with
    | Ok a => Ok (Some a)
    | Throw e => Throw e
    end.
Proof. reflexivity. Qed.

(** The articles that [map] returns are those of the rows, in order. *)
Lemma mapRows_Forall2 (engine : Engine) (rows : list Row) (l : list Article) :
  mapRows engine rows = Ok l <->
  Forall2 (fun r a => mapRowToArticle engine r = Ok a) rows l.
Proof.
  revert l. induction rows as [|r rows IH]; intros l; cbn [mapRows].
  - split.
    + intros H. injection H as <-. constructor.
    + intros H. inversion H. reflexivity.
  - destruct (mapRowToArticle engine r) as [a|e] eqn:Em.
    + destruct (mapRows engine rows) as [l'|e] eqn:El.
      * split.
        -- intros H. injection H as <-. constructor; [exact Em|].
           now apply IH.
        -- intros H. inversion H as [|? b ? l'' Hb Hl]; subst.
           apply IH in Hl. congruence.
      * split; [discriminate|].
        intros H. inversion H as [|? b ? l'' Hb Hl]; subst.
        apply IH in Hl. discriminate.
    + split; [discriminate|].
      intros H. inversion H as [|? b ? l'' Hb Hl]; subst. congruence.
Qed.

Lemma mapRows_text (engine : Engine) (rows : list Row) :
  jsonStrings engine = true -> Forall tagsWellFormed rows ->
  exists l, mapRows engine rows = Ok l.
Proof.
  intros Hj. induction 1 as [|r rows Hr Hrows [l IH]]; [now exists []|].
  cbn [mapRows]. rewrite (mapRowToArticle_text engine r Hj Hr), IH. eauto.
Qed.

(** What [mapRowToArticle] throws is the [SyntaxError] of [JSON.parse]. *)
Lemma mapRowToArticle_throws (engine : Engine) (r : Row) (e : Exn) :
  mapRowToArticle engine r = Throw e ->
  exists text, e = SyntaxError (syntaxMessage engine text).
Proof.
  rewrite mapRowToArticle_articleOf. unfold tagsOf.
  destruct (row_tags r) as [items|]; [|discriminate].
  assert (Hp : forall h v, parseTags engine h = Throw v ->
                 exists text, v = SyntaxError (syntaxMessage engine text)).
  { intros h v. unfold parseTags.
    destruct (parse _); [discriminate|]. intros H. injection H as <-. eauto. }
  destruct (handed engine items) as [t|l].
  - destruct (truthy t); [|discriminate].
    destruct (parseTags engine (AsText t)) as [v|v] eqn:E; [discriminate|].
    intros H. injection H as <-. exact (Hp _ _ E).
  - destruct (parseTags engine (AsArray l)) as [v|v] eqn:E; [discriminate|].
    intros H. injection H as <-. exact (Hp _ _ E).
Qed.

(** One row that cannot be mapped makes the whole read throw. *)
Lemma mapRows_throws (engine : Engine) (rows : list Row) (r : Row) (e : Exn) :
  In r rows -> mapRowToArticle engine r = Throw e ->
  exists text,
    mapRows engine rows = Throw (SyntaxError (syntaxMessage engine text)).
Proof.
  intros Hin Hr. induction rows as [|x rows IH]; [destruct Hin|].
  cbn [mapRows]. destruct (mapRowToArticle engine x) as [a|e'] eqn:Ex.
  - destruct Hin as [->|Hin]; [congruence|].
    destruct (IH Hin) as [text ->]. eauto.
  - destruct (mapRowToArticle_throws engine x e' Ex) as [text ->]. eauto.
Qed.

(** The first row of a result is the first row of the table that the
    [WHERE] clause selects. *)
Lemma firstArticle_find (engine : Engine) (p : Row -> bool) (rows : list Row) :
  firstArticle engine (filter p rows)
  = match find p rows with
    | None => Ok None
    | Some r =>
        match mapRowToArticle engine r with
        | Ok a => Ok (Some a)
        | Throw e => Throw e
        end
    end.
Proof.
  induction rows as [|r rows IH]; [reflexivity|]. cbn [filter find].
  destruct (p r); [reflexivity|exact IH].
Qed.



(** Whatever [create] returns, the table it leaves is the one left by its
    [INSERT]. *)
Lemma create_database (engine : Engine) (db : Database)
  (data : CreateArticleData) :
  fst (create engine db data)
  = fst (executeInsert engine db (insertedRow engine db data)).
Proof.
  unfold create.
  destruct (executeInsert engine db (insertedRow engine db data))
    as [db' [header|e]]; [|reflexivity].
  destruct (insertId header =? 0)%N; [reflexivity|].
  unfold findById.
  now destruct (firstArticle engine _) as [[a|]|e].
Qed.


(** An article returned by [create] is read from a row of the table. *)
Lemma create_returns_stored (engine : Engine) (db : Database)
  (data : CreateArticleData) (a : Article) :
  snd (create engine db data) = Ok a ->
  exists r, In r (articles (fst (create engine db data)))
            /\ mapRowToArticle engine r = Ok a.
Proof.
  rewrite create_database. unfold create.
  destruct (executeInsert engine db (insertedRow engine db data))
    as [db' [header|e]]; [|discriminate].
  destruct (insertId header =? 0)%N; [discriminate|].
  unfold findById. cbn [fst snd]. rewrite firstArticle_find.
  destruct (find _ (articles db')) as [r|] eqn:Ef; [|discriminate].
  destruct (mapRowToArticle engine r) as [a'|e] eqn:Em; [|discriminate].
  intros H. injection H as <-. exists r. split; [|exact Em].
  now apply find_some in Ef.
Qed.



Lemma insertedRow_counted (engine : Engine) (db : Database)
  (data : CreateArticleData) :
  rowCounted (insertedRow engine db data).
Proof.
  unfold rowCounted, insertedRow, newRow, countWords. simpl. split.
  - apply calculateWordCount_words.
  - apply calculateReadingTime_ceiling.
Qed.

Lemma create_keeps_counted (engine : Engine) (db : Database)
  (data : CreateArticleData) :
  Forall rowCounted (articles db) ->
  Forall rowCounted (articles (fst (create engine db data))).
Proof.
  intros H. rewrite create_database. unfold executeInsert.
  destruct (existsb _ (articles db)); simpl; [assumption|].
  apply Forall_app. split; [assumption|].
  constructor; [apply insertedRow_counted|constructor].
Qed.

(** C4. The word count of a created article is the number of
    whitespace-separated non-empty words of its stored content, and its
    reading time is the ceiling of the word count over 200: this holds of
    every row that [create] leaves in the table and of every article that it
    returns.  Empty and whitespace-only contents have 0 words and 0 minutes. *)
Theorem created_article_word_count_and_reading_time
  (engine : Engine) (db : Database) (data : CreateArticleData) :
  Forall rowCounted (articles db) ->
  Forall rowCounted (articles (fst (create engine db data)))
  /\ (forall a, snd (create engine db data) = Ok a ->
        wordCount a = countWords (content a)
        /\ ceilingOver200 (wordCount a) (readingTime a))
  /\ (forall s, calculateWordCount s = countWords s
                /\ ceilingOver200 (calculateWordCount s)
                     (calculateReadingTime (calculateWordCount s)))
  /\ (forall s, isBlank s = true ->
        calculateWordCount s = 0%N
        /\ calculateReadingTime (calculateWordCount s) = 0%N).
Proof.
  intros Hdb.
  pose proof (create_keeps_counted engine db data Hdb) as Hdb'.
  split; [exact Hdb'|]. split; [|split].
  - intros a Ha. apply create_returns_stored in Ha.
    destruct Ha as [r [Hin Hm]].
    apply mapRowToArticle_fields in Hm.
    destruct Hm as (_ & _ & Hc & _ & _ & _ & _ & Hw & Ht & _).
    rewrite Forall_forall in Hdb'. rewrite Hw, Ht, Hc. exact (Hdb' r Hin).
  - intros s. split.
    + apply calculateWordCount_words.
    + apply calculateReadingTime_ceiling.
  - intros s Hs.
    assert (Hz : calculateWordCount s = 0%N).
    { rewrite calculateWordCount_words, (words_blank s Hs). reflexivity. }
    now rewrite Hz.
Qed.





(** The sample candidate stored in an empty table. *)
Lemma created_counts_of_sample_candidate :
  Forall rowCounted (articles Scenario.emptyDb)
  /\ Forall rowCounted
       (articles (fst (create Scenario.countingEngine Scenario.emptyDb
                         Scenario.candidate)))
  /\ (forall a,
        snd (create Scenario.countingEngine Scenario.emptyDb
               Scenario.candidate) = Ok a ->
        wordCount a = countWords (content a)
        /\ ceilingOver200 (wordCount a) (readingTime a)).
Proof.
  assert (H : Forall rowCounted (articles Scenario.emptyDb)) by constructor.
  split; [exact H|].
  pose proof (created_article_word_count_and_reading_time
                Scenario.countingEngine Scenario.emptyDb Scenario.candidate H)
    as [H1 [H2 _]].
  split; [exact H1|exact H2].
Defined.



(** Of a handler attribute the name and the [=] sign are left out, and the
    value stays. *)
Example handler_value_is_stored :
  sanitizeArticleContent (lit "<a onclick=run()>go</a>")
  = lit "<a run()>go</a>".
Proof. vm_compute. reflexivity. Qed.

(** The script block of the sample candidate is not stored and not counted:
    the raw content has five words, the stored content two. *)
Example sample_candidate_is_counted_after_sanitizing :
  calculateWordCount (new_content Scenario.candidate) = 5%N
  /\ map (fun r => (row_content r, word_count r, reading_time r))
       (articles (fst (create Scenario.countingEngine Scenario.emptyDb
                         Scenario.candidate)))
     = [(lit "hello   world", 2%N, 1%N)].
Proof. split; vm_compute; reflexivity. Qed.





End RepositoryFacts.

Module OrchestrationFacts.
Import Spec Article WebScraperService Orchestration.

(** *** The browser held by the service *)

(** A call of [closeBrowser] that returns leaves no browser. *)
Lemma closeBrowser_closed (world : World) (st st' : Service) :
  closeBrowser world st = (st', Ok tt) -> browser st' = false.
Proof.
  unfold closeBrowser. destruct (browser st) eqn:E.
  - destruct (closesBrowser world); [|discriminate].
    intros H. now injection H as <-.
  - intros H. now injection H as <-.
Qed.

(** Closing a closed browser changes nothing and makes no call. *)
Lemma closeBrowser_noop (world : World) (st : Service) :
  browser st = false -> closeBrowser world st = (st, Ok tt).
Proof. unfold closeBrowser. now intros ->. Qed.

(** When [browser.close()] rejects, the browser stays held. *)
Lemma closeBrowser_rejected (world : World) (st st' : Service) (e : Exn) :
  closeBrowser world st = (st', Throw e) ->
  st' = st /\ browser st = true /\ closesBrowser world = false.
Proof.
  unfold closeBrowser. destruct (browser st) eqn:E; [|discriminate].
  destruct (closesBrowser world); [discriminate|].
  intros H. injection H as <- _. auto.
Qed.

Lemma closeBrowser_state (world : World) (st : Service) :
  browser (fst (closeBrowser world st))
  = browser st && negb (closesBrowser world).
Proof.
  unfold closeBrowser. destruct (browser st) eqn:E; [|exact E].
  destruct (closesBrowser world); [reflexivity|exact E].
Qed.

Lemma initBrowser_ok (world : World) (st st' : Service) (u : unit) :
  initBrowser world st = (st', Ok u) -> browser st' = true.
Proof.
  unfold initBrowser. destruct (browser st) eqn:Eb.
  - intros H. injection H as <- _. exact Eb.
  - destruct (launches world); [|discriminate].
    intros H. now injection H as <- _.
Qed.

(** With the browser running, scraping one article leaves the service as
    it is. *)
Lemma scrapeArticleContent_same_service (ext : Externals) (world : World)
  (st : Service) (url : jstring) :
  browser st = true -> fst (scrapeArticleContent ext world st url) = st.
Proof.
  intros Hb. unfold scrapeArticleContent, initBrowser. rewrite Hb.
  destruct (opens (tab world url)); [|reflexivity].
  now destruct (closes (tab world url)).
Qed.

Lemma scrapeEach_candidates (ext : Externals) (world : World) (st : Service)
  (links : list jstring) :
  browser st = true ->
  forall acc,
    scrapeEach ext world st links acc
    = (st, acc ++ flat_map (candidatesAt ext world st) links).
Proof.
  intros Hb. induction links as [|link links IH]; intros acc; simpl.
  - now rewrite app_nil_r.
  - pose proof (scrapeArticleContent_same_service ext world st link Hb) as Hs.
    unfold candidatesAt at 1.
    destruct (scrapeArticleContent ext world st link) as [st' [[article|]|e]];
      simpl in Hs; subst st'; rewrite IH; simpl.
    + now rewrite <- app_assoc.
    + reflexivity.
    + reflexivity.
Qed.

Lemma flat_map_candidates_length (ext : Externals) (world : World)
  (st : Service) (links : list jstring) :
  length (flat_map (candidatesAt ext world st) links) <= length links.
Proof.
  induction links as [|link links IH]; simpl; [lia|].
  rewrite length_app. unfold candidatesAt at 1.
  destruct (snd (scrapeArticleContent ext world st link)) as [[a|]|e];
    simpl; lia.
Qed.

(** What the [try] block of a run yields once the tab is open. *)
Lemma scrapeListing_outcome (ext : Externals) (world : World) (st : Service) :
  browser st = true ->
  scrapeListing ext world st
  = (st,
     if negb (acceptsUserAgent (tab world baseUrl))
     then Throw (BrowserError "page.setUserAgent")
     else if negb (acceptsViewport (tab world baseUrl))
     then Throw (BrowserError "page.setViewport")
     else
       match navigate world baseUrl with
       | None => Throw (BrowserError "goto")
       | Some page =>
           match listingPage ext world page with
           | Throw e => Throw e
           | Ok listing =>
               Ok (flat_map (candidatesAt ext world st)
                     (firstn articlesPerRun (extractArticleLinks listing)))
           end
       end).
Proof.
  intros Hb. unfold scrapeListing.
  destruct (acceptsUserAgent (tab world baseUrl)); [|reflexivity].
  destruct (acceptsViewport (tab world baseUrl)); [|reflexivity].
  cbn [negb]. destruct (navigate world baseUrl) as [page|]; [|reflexivity].
  destruct (listingPage ext world page) as [listing|e]; [|reflexivity].
  now rewrite (scrapeEach_candidates ext world st _ Hb []).
Qed.

(** The outcome of a run. *)
Lemma scrapeOldestArticles_outcome (ext : Externals) (world : World)
  (st : Service) :
  WebScraperService.scrapeOldestArticles ext world st
  = if browser st || launches world then
      ({| browser := true |},
       if opens (tab world baseUrl) then
         if closes (tab world baseUrl)
         then snd (scrapeListing ext world {| browser := true |})
         else Throw (BrowserError "page.close")
       else Throw (BrowserError "browser.newPage"))
    else (st, Throw (BrowserError "launch")).
Proof.
  unfold WebScraperService.scrapeOldestArticles, initBrowser.
  assert (Hrun : forall st1, browser st1 = true -> st1 = {| browser := true |}).
  { intros [b] Hb. simpl in Hb. now subst. }
  destruct (browser st) eqn:Eb; cbn [orb].
  - rewrite (Hrun st Eb).
    destruct (opens (tab world baseUrl)); [|reflexivity].
    rewrite (scrapeListing_outcome ext world {| browser := true |} eq_refl).
    now destruct (closes (tab world baseUrl)).
  - destruct (launches world); [|reflexivity].
    destruct (opens (tab world baseUrl)); [|reflexivity].
    rewrite (scrapeListing_outcome ext world {| browser := true |} eq_refl).
    now destruct (closes (tab world baseUrl)).
Qed.

(** A scrape that returns leaves the browser running. *)
Lemma scrapeOldestArticles_leaves_browser (ext : Externals) (world : World)
  (st st1 : Service) (l : list CreateArticleData) :
  WebScraperService.scrapeOldestArticles ext world st = (st1, Ok l) ->
  browser st1 = true.
Proof.
  rewrite scrapeOldestArticles_outcome.
  destruct (browser st || launches world); [|discriminate].
  intros H. now injection H as <- _.
Qed.

(** C3, at the exit that the controller misses.  When the scrape returns no
    article, the controller answers 404 and returns with the browser still
    running: [closeBrowser] is not reached on this path. *)
Theorem controller_returns_404_with_browser_running
  (ext : Externals) (world : World) (Store : Type) (repo : Repository Store)
  (st st1 : Service) (s : Store) :
  WebScraperService.scrapeOldestArticles ext world st = (st1, Ok []) ->
  ScraperController.status
    (ScraperController.response
       (ScraperController.scrapeOldestArticles ext world repo st s)) = 404%N
  /\ browser
       (ScraperController.service_after
          (ScraperController.scrapeOldestArticles ext world repo st s)) = true.
Proof.
  intros H. unfold ScraperController.scrapeOldestArticles. rewrite H. simpl.
  split; [reflexivity|].
  now apply scrapeOldestArticles_leaves_browser in H.
Qed.

(** On its other exits the controller has called [closeBrowser]. *)
Lemma controller_closes_browser_otherwise
  (ext : Externals) (world : World) (Store : Type) (repo : Repository Store)
  (st : Service) (s : Store) :
  ScraperController.status
    (ScraperController.response
       (ScraperController.scrapeOldestArticles ext world repo st s)) <> 404%N ->
  exists st1,
    ScraperController.service_after
      (ScraperController.scrapeOldestArticles ext world repo st s)
    = fst (closeBrowser world st1)
    /\ st1 = fst (WebScraperService.scrapeOldestArticles ext world st).
Proof.
  unfold ScraperController.scrapeOldestArticles.
  destruct (WebScraperService.scrapeOldestArticles ext world st)
    as [st1 [l|e]]; cbn [fst].
  - destruct (length l =? 0); cbn.
    + intros H. now contradiction H.
    + intros _. exists st1. split; [|reflexivity].
      destruct (closeBrowser world st1) as [st2 [u|e]] eqn:Ec; cbn [fst].
      * reflexivity.
      * cbn. apply closeBrowser_rejected in Ec. destruct Ec as (-> & _ & Hc).
        unfold closeBrowser. rewrite Hc. now destruct (browser st1).
  - intros _. now exists st1.
Qed.

Lemma finished_returned (world : World) (Store : Type) (st : Service)
  (s : Store) (n : option N) (c : option ScrapeArticlesScript.Summary) :
  ScrapeArticlesScript.ending
    (ScrapeArticlesScript.run (ScrapeArticlesScript.finished world st s n c))
  = ScrapeArticlesScript.Returned ->
  browser
    (ScrapeArticlesScript.service_after
       (ScrapeArticlesScript.finished world st s n c)) = false.
Proof.
  unfold ScrapeArticlesScript.finished.
  destruct (closeBrowser world st) as [st' [[]|e]] eqn:Ec; cbn; [|discriminate].
  intros _. exact (closeBrowser_closed world st st' Ec).
Qed.

(** The script closes the browser whenever [main] returns. *)
Lemma script_closes_browser_on_return
  (ext : Externals) (world : World) (Store : Type) (repo : Repository Store)
  (setup : result unit) (st : Service) (s : Store) :
  ScrapeArticlesScript.ending
    (ScrapeArticlesScript.run
       (ScrapeArticlesScript.main ext world repo setup st s))
  = ScrapeArticlesScript.Returned ->
  browser
    (ScrapeArticlesScript.service_after
       (ScrapeArticlesScript.main ext world repo setup st s)) = false.
Proof.
  unfold ScrapeArticlesScript.main. cbv zeta.
  destruct setup as [u|e]; [|discriminate].
  destruct (WebScraperService.scrapeOldestArticles ext world st)
    as [st1 [l|e]]; [|discriminate].
  destruct (length l =? 0); [apply finished_returned|].
  destruct (0 <? _)%N; [|apply finished_returned].
  destruct (repo_findAll repo _ 10 0) as [s' [x|e]]; [|discriminate].
  destruct (forallb ScrapeArticlesScript.hasJoin _);
    [apply finished_returned|discriminate].
Qed.

(** *** The links of a run *)

Lemma scrapeArticleContent_agree (ext : Externals) (world world' : World)
  (st : Service) (u : jstring) :
  launches world' = launches world ->
  navigate world' u = navigate world u ->
  tab world' u = tab world u ->
  scrapeArticleContent ext world' st u = scrapeArticleContent ext world st u.
Proof.
  intros Hl Hn Ht. unfold scrapeArticleContent, extractArticle, initBrowser.
  now rewrite Hl, Hn, Ht.
Qed.

Lemma scrapeEach_agree (ext : Externals) (world world' : World)
  (links : list jstring) :
  launches world' = launches world ->
  (forall u, In u links ->
     navigate world' u = navigate world u /\ tab world' u = tab world u) ->
  forall st acc,
    scrapeEach ext world' st links acc = scrapeEach ext world st links acc.
Proof.
  intros Hl. induction links as [|link links IH]; intros H st acc;
    [reflexivity|].
  cbn [scrapeEach].
  destruct (H link (or_introl eq_refl)) as [Hn Ht].
  rewrite (scrapeArticleContent_agree ext world world' st link Hl Hn Ht).
  assert (H' : forall u, In u links ->
             navigate world' u = navigate world u /\ tab world' u = tab world u)
    by (intros u Hu; apply H; now right).
  destruct (scrapeArticleContent ext world st link) as [st' [[a|]|e]];
    apply IH, H'.
Qed.

(** X2. The articles of a run are the candidates of the first five links of
    the listing, in the order of the links, and nothing else about the world
    bears on the run: a world that differs only in the pages and tabs of other
    URLs, such as the sixth link, gives the same run. *)
Theorem run_scrapes_first_five_links
  (ext : Externals) (world : World) (st st1 : Service)
  (scrapedArticles : list CreateArticleData) :
  WebScraperService.scrapeOldestArticles ext world st
  = (st1, Ok scrapedArticles) ->
  exists page listing,
    navigate world baseUrl = Some page
    /\ listingPage ext world page = Ok listing
    /\ scrapedArticles
       = flat_map (candidatesAt ext world st1)
           (firstn 5 (extractArticleLinks listing))
    /\ length scrapedArticles <= 5
    /\ (forall world',
          launches world' = launches world ->
          (forall u,
             u = baseUrl \/ findLastPage ext page = Some u
             \/ In u (firstn 5 (extractArticleLinks listing)) ->
             navigate world' u = navigate world u
             /\ tab world' u = tab world u) ->
          WebScraperService.scrapeOldestArticles ext world' st
          = (st1, Ok scrapedArticles)).
Proof.
  intros Hrun.
  assert (Hout := Hrun). rewrite scrapeOldestArticles_outcome in Hout.
  destruct (browser st || launches world) eqn:Hb; [|discriminate].
  destruct (opens (tab world baseUrl)) eqn:Ho; [|discriminate].
  destruct (closes (tab world baseUrl)) eqn:Hc; [|discriminate].
  rewrite (scrapeListing_outcome ext world {| browser := true |} eq_refl)
    in Hout. cbn [snd] in Hout.
  destruct (acceptsUserAgent (tab world baseUrl)) eqn:Hu; [|discriminate].
  destruct (acceptsViewport (tab world baseUrl)) eqn:Hv; [|discriminate].
  cbn [negb] in Hout.
  destruct (navigate world baseUrl) as [page|] eqn:Hn; [|discriminate].
  destruct (listingPage ext world page) as [listing|e] eqn:El; [|discriminate].
  injection Hout as <- <-. unfold articlesPerRun.
  pose proof (flat_map_candidates_length ext world {| browser := true |}
                (firstn 5 (extractArticleLinks listing))) as Hlen.
  pose proof (firstn_le_length 5 (extractArticleLinks listing)) as Hfive.
  exists page, listing.
  split; [reflexivity|]. split; [exact El|]. split; [reflexivity|].
  split; [exact (Nat.le_trans _ _ _ Hlen Hfive)|].
  intros world' Hl Hsame.
  destruct (Hsame baseUrl (or_introl eq_refl)) as [Hn' Ht'].
  assert (Hlist : listingPage ext world' page = Ok listing).
  { revert El. unfold listingPage.
    destruct (findLastPage ext page) as [u|] eqn:Ef; [|auto].
    destruct (truthy u && negb (jstring_eqb u baseUrl)); [|auto].
    destruct (Hsame u (or_intror (or_introl eq_refl))) as [-> _]. auto. }
  rewrite scrapeOldestArticles_outcome.
  rewrite (scrapeListing_outcome ext world' {| browser := true |} eq_refl).
  rewrite Hl, Hb, Ht', Ho, Hc, Hu, Hv, Hn', Hn, Hlist. cbn [snd negb].
  do 2 f_equal. unfold articlesPerRun.
  rewrite !flat_map_concat_map. f_equal.
  apply map_ext_in. intros u Hu'. unfold candidatesAt.
  destruct (Hsame u (or_intror (or_intror Hu'))) as [Hnu Htu].
  now rewrite (scrapeArticleContent_agree ext world world' _ u Hl Hnu Htu).
Qed.

(** Six links on the listing: the first five are scraped, the sixth is not. *)
Lemma run_over_six_posts :
  WebScraperService.scrapeOldestArticles Scenario.externals Scenario.sixPosts
    Scenario.idle
  = ({| browser := true |},
     Ok (flat_map
           (candidatesAt Scenario.externals Scenario.sixPosts
              {| browser := true |})
           (map Scenario.postUrl ["a"; "b"; "c"; "d"; "e"]%string)))
  /\ exists page listing,
       navigate Scenario.sixPosts baseUrl = Some page
       /\ listingPage Scenario.externals Scenario.sixPosts page = Ok listing
       /\ flat_map
            (candidatesAt Scenario.externals Scenario.sixPosts
               {| browser := true |})
            (map Scenario.postUrl ["a"; "b"; "c"; "d"; "e"]%string)
          = flat_map
              (candidatesAt Scenario.externals Scenario.sixPosts
                 {| browser := true |})
              (firstn 5 (extractArticleLinks listing))
       /\ length
            (flat_map
               (candidatesAt Scenario.externals Scenario.sixPosts
                  {| browser := true |})
               (map Scenario.postUrl ["a"; "b"; "c"; "d"; "e"]%string)) <= 5.
Proof.
  assert (H : WebScraperService.scrapeOldestArticles Scenario.externals
                Scenario.sixPosts Scenario.idle
              = ({| browser := true |},
                 Ok (flat_map
                       (candidatesAt Scenario.externals Scenario.sixPosts
                          {| browser := true |})
                       (map Scenario.postUrl
                          ["a"; "b"; "c"; "d"; "e"]%string))))
    by (vm_compute; reflexivity).
  split; [exact H|].
  destruct (run_scrapes_first_five_links Scenario.externals Scenario.sixPosts
              Scenario.idle _ _ H) as (page & listing & H1 & H2 & H3 & H4 & _).
  exists page, listing. auto.
Defined.

Example urls_scraped_from_six_posts :
  option_map (map new_url)
    (match snd (WebScraperService.scrapeOldestArticles Scenario.externals
                  Scenario.sixPosts Scenario.idle) with
     | Ok l => Some l
     | Throw _ => None
     end)
  = Some (map Scenario.postUrl ["a"; "b"; "c"; "d"; "e"]%string).
Proof. vm_compute. reflexivity. Qed.

(** X1. On every exit other than the 404 answer the controller has called
    [closeBrowser], and the script has when [main] returns: the browser is
    closed on the 200 answer and whenever [main] returns, and on the 500
    answer unless [browser.close()] rejects, in which case the controller
    answers 500 with the browser still held, also after the articles have been
    stored.  Closing a closed browser is a no-op. *)
Theorem browser_closed_on_other_exits
  (ext : Externals) (world : World) (Store : Type) (repo : Repository Store)
  (setup : result unit) (st : Service) (s : Store) :
  let handled := ScraperController.scrapeOldestArticles ext world repo st s in
  let status := ScraperController.status (ScraperController.response handled) in
  (status = 200%N -> browser (ScraperController.service_after handled) = false)
  /\ (status = 500%N ->
      browser (ScraperController.service_after handled)
      = browser (fst (WebScraperService.scrapeOldestArticles ext world st))
        && negb (closesBrowser world))
  /\ (forall st1 l,
        WebScraperService.scrapeOldestArticles ext world st = (st1, Ok l) ->
        l <> [] -> closesBrowser world = false ->
        status = 500%N
        /\ browser (ScraperController.service_after handled) = true
        /\ ScraperController.store_after handled
           = ScraperController.store (ScraperController.storeAll repo s l))
  /\ (ScrapeArticlesScript.ending
        (ScrapeArticlesScript.run
           (ScrapeArticlesScript.main ext world repo setup st s))
      = ScrapeArticlesScript.Returned ->
      browser
        (ScrapeArticlesScript.service_after
           (ScrapeArticlesScript.main ext world repo setup st s)) = false)
  /\ (browser st = false -> closeBrowser world st = (st, Ok tt))
  /\ (forall st', closeBrowser world st = (st', Ok tt) ->
        browser st' = false /\ closeBrowser world st' = (st', Ok tt))
  /\ (forall st' e, closeBrowser world st = (st', Throw e) ->
        st' = st /\ browser st = true).
Proof.
  cbv zeta.
  split; [|split; [|split; [|split; [|split; [|split]]]]].
  - unfold ScraperController.scrapeOldestArticles.
    destruct (WebScraperService.scrapeOldestArticles ext world st)
      as [st1 [l|e]]; [|discriminate].
    destruct (length l =? 0); [discriminate|]. cbv zeta.
    destruct (closeBrowser world st1) as [st2 [[]|e]] eqn:Ec; [|discriminate].
    intros _. exact (closeBrowser_closed world st1 st2 Ec).
  - unfold ScraperController.scrapeOldestArticles.
    destruct (WebScraperService.scrapeOldestArticles ext world st)
      as [st1 [l|e]]; cbn [fst].
    + destruct (length l =? 0); [discriminate|]. cbv zeta.
      destruct (closeBrowser world st1) as [st2 [[]|e]] eqn:Ec; [discriminate|].
      intros _. cbn [ScraperController.service_after].
      apply closeBrowser_rejected in Ec. destruct Ec as (-> & _ & _).
      apply closeBrowser_state.
    + intros _. cbn [ScraperController.service_after].
      apply closeBrowser_state.
  - intros st1 l Hrun Hne Hc.
    pose proof (scrapeOldestArticles_leaves_browser ext world st st1 l Hrun)
      as Hb.
    unfold ScraperController.scrapeOldestArticles. rewrite Hrun.
    destruct l as [|a l]; [contradiction|]. cbn [length Nat.eqb]. cbv zeta.
    unfold closeBrowser. rewrite Hb, Hc. cbn. rewrite ?Hb, ?Hc. auto.
  - apply script_closes_browser_on_return.
  - apply closeBrowser_noop.
  - intros st' H. pose proof (closeBrowser_closed world st st' H) as Hb.
    split; [exact Hb|]. now apply closeBrowser_noop.
  - intros st' e H. apply closeBrowser_rejected in H. tauto.
Qed.

(** *** Counting *)

Lemma lines_snoc (kind : LogEntry -> bool) (log : list LogEntry)
  (entry : LogEntry) :
  lines kind (log ++ [entry])
  = lines kind log + (if kind entry then 1 else 0).
Proof.
  unfold lines. rewrite filter_app, length_app. simpl.
  now destruct (kind entry).
Qed.

Section ControllerCounts.
Variable Store : Type.
Variable repo : Repository Store.

Lemma controller_storeOne_balanced (t : ScraperController.Tally Store)
  (a : CreateArticleData) (n : nat) :
  balanced t n -> balanced (ScraperController.storeOne repo t a) (S n).
Proof.
  intros [Hl [Hs [He Hn]]].
  unfold ScraperController.storeOne, ScraperController.recordError, balanced.
  destruct (repo_findByUrl repo _ _) as [s1 [[existing|]|e]]; simpl.
  - rewrite !lines_snoc, !length_app. simpl. lia.
  - destruct (repo_create repo s1 a) as [s2 [savedArticle|e]]; simpl;
      rewrite !lines_snoc, !length_app; simpl; lia.
  - rewrite !lines_snoc, !length_app. simpl. lia.
Qed.

Lemma controller_fold_balanced (l : list CreateArticleData) :
  forall t n, balanced t n ->
    balanced (fold_left (ScraperController.storeOne repo) l t) (n + length l).
Proof.
  induction l as [|a l IH]; intros t n H; simpl.
  - now rewrite Nat.add_0_r.
  - replace (n + S (length l)) with (S n + length l) by lia.
    apply IH. now apply controller_storeOne_balanced.
Qed.

Lemma controller_storeAll_balanced (s : Store) (l : list CreateArticleData) :
  balanced (ScraperController.storeAll repo s l) (length l).
Proof.
  unfold ScraperController.storeAll.
  apply (controller_fold_balanced l _ 0).
  unfold balanced, lines. simpl. lia.
Qed.

Lemma script_storeOne_tallied (t : ScrapeArticlesScript.Counters Store)
  (a : CreateArticleData) (n : nat) :
  tallied t n -> tallied (ScrapeArticlesScript.storeOne repo t a) (S n).
Proof.
  intros [Hn [Hk [Hs He]]].
  unfold ScrapeArticlesScript.storeOne, tallied.
  destruct (repo_findByUrl repo _ _) as [s1 [[existing|]|e]]; simpl.
  - rewrite !lines_snoc. simpl. lia.
  - destruct (repo_create repo s1 a) as [s2 [savedArticle|e]]; simpl;
      rewrite !lines_snoc; simpl; lia.
  - rewrite !lines_snoc. simpl. lia.
Qed.

Lemma script_fold_tallied (l : list CreateArticleData) :
  forall t n, tallied t n ->
    tallied (fold_left (ScrapeArticlesScript.storeOne repo) l t) (n + length l).
Proof.
  induction l as [|a l IH]; intros t n H; simpl.
  - now rewrite Nat.add_0_r.
  - replace (n + S (length l)) with (S n + length l) by lia.
    apply IH. now apply script_storeOne_tallied.
Qed.

Lemma script_storeAll_tallied (s : Store) (l : list CreateArticleData) :
  tallied (ScrapeArticlesScript.storeAll repo s l) (length l).
Proof.
  unfold ScrapeArticlesScript.storeAll.
  apply (script_fold_tallied l _ 0).
  unfold tallied, lines. simpl. repeat split.
Qed.

End ControllerCounts.

(** C1. In every run that stores its candidates, the number of scraped
    candidates is the number of articles created plus the number found to
    exist already plus the number that failed: the summary of the script
    reports the three numbers, [savedCount + skippedCount + errorCount], and
    the response of the controller reports the first two together as [saved],
    so that there [scraped] is [saved + errors]. *)
Theorem run_counts_add_up
  (ext : Externals) (world : World) (Store : Type) (repo : Repository Store)
  (setup : result unit) (st : Service) (s : Store) :
  (forall d,
     ScraperController.data
       (ScraperController.response
          (ScraperController.scrapeOldestArticles ext world repo st s))
     = Some d ->
     let lg :=
       ScraperController.logged
         (ScraperController.scrapeOldestArticles ext world repo st s) in
     (ScraperController.scraped d
      = ScraperController.saved d + ScraperController.errors d
      /\ ScraperController.saved d = createdCount lg + duplicateCount lg
      /\ ScraperController.errors d = failedCount lg
      /\ ScraperController.scraped d
         = createdCount lg + duplicateCount lg + failedCount lg)%N)
  /\
  (forall c,
     ScrapeArticlesScript.summary
       (ScrapeArticlesScript.run
          (ScrapeArticlesScript.main ext world repo setup st s)) = Some c ->
     exists n,
       ScrapeArticlesScript.found
         (ScrapeArticlesScript.run
            (ScrapeArticlesScript.main ext world repo setup st s)) = Some n
       /\ (n = ScrapeArticlesScript.savedCount c
               + ScrapeArticlesScript.skippedCount c
               + ScrapeArticlesScript.errorCount c)%N).
Proof.
  split.
  - unfold ScraperController.scrapeOldestArticles.
    destruct (WebScraperService.scrapeOldestArticles ext world st)
      as [st1 [l|e]]; [|discriminate].
    destruct (length l =? 0); [discriminate|]. cbv zeta.
    destruct (closeBrowser world st1) as [st2 [[]|e]]; [|discriminate].
    cbn [ScraperController.response ScraperController.data
         ScraperController.logged].
    intros d Hd. injection Hd as <-.
    destruct (controller_storeAll_balanced Store repo s l) as [Hl [Hs [He Hn]]].
    cbn [ScraperController.scraped ScraperController.saved
         ScraperController.errors].
    unfold ScraperController.lengthOf, createdCount, duplicateCount,
      failedCount, countLines.
    unfold lines in *. lia.
  - assert (Hfin : forall st' (s' : Store) n c,
              ScrapeArticlesScript.run
                (ScrapeArticlesScript.finished world st' s' n c)
              = {| ScrapeArticlesScript.ending :=
                     ScrapeArticlesScript.ending
                       (ScrapeArticlesScript.run
                          (ScrapeArticlesScript.finished world st' s' n c));
                   ScrapeArticlesScript.found := n;
                   ScrapeArticlesScript.summary := c |}).
    { intros st' s' n c. unfold ScrapeArticlesScript.finished.
      now destruct (closeBrowser world st') as [st'' [[]|e]]. }
    unfold ScrapeArticlesScript.main.
    destruct setup as [u|e]; [|discriminate].
    destruct (WebScraperService.scrapeOldestArticles ext world st)
      as [st1 [l|e]]; [|discriminate].
    destruct (length l =? 0).
    { rewrite Hfin. discriminate. }
    cbv zeta.
    destruct (script_storeAll_tallied Store repo s l) as [Hn _].
    intros c Hc. exists (N.of_nat (length l)).
    destruct (0 <? _)%N.
    + destruct (repo_findAll repo _ 10 0) as [s' [x|e]].
      * destruct (forallb ScrapeArticlesScript.hasJoin _);
          [rewrite Hfin in *|]; cbn in *; injection Hc as <-;
          (split; [reflexivity|exact Hn]).
      * cbn in *. injection Hc as <-. split; [reflexivity|exact Hn].
    + rewrite Hfin in *. cbn in *. injection Hc as <-.
      split; [reflexivity|exact Hn].
Qed.


(** The sample blog, scraped into an empty table that numbers its rows: one
    candidate, created. *)
Example controller_run_on_sample_blog :
  option_map
    (fun d => (ScraperController.scraped d, ScraperController.saved d,
               ScraperController.errors d))
    (ScraperController.data
       (ScraperController.response
          (ScraperController.scrapeOldestArticles Scenario.externals
             Scenario.blog (Scenario.repository Scenario.countingEngine)
             Scenario.idle Scenario.emptyDb)))
  = Some (1, 1, 0)%N.
Proof. vm_compute. reflexivity. Qed.

(** The script on a second run over the same blog: one candidate, skipped. *)
Example script_rerun_skips_duplicate :
  ScrapeArticlesScript.run
    (ScrapeArticlesScript.main Scenario.externals Scenario.blog
       (Scenario.repository Scenario.countingEngine) (Ok tt)
       Scenario.idle Scenario.storeAfterFirstRun)
  = {| ScrapeArticlesScript.ending := ScrapeArticlesScript.Returned;
       ScrapeArticlesScript.found := Some 1%N;
       ScrapeArticlesScript.summary :=
         Some {| ScrapeArticlesScript.savedCount := 0;
                 ScrapeArticlesScript.skippedCount := 1;
                 ScrapeArticlesScript.errorCount := 0 |} |}.
Proof. vm_compute. reflexivity. Qed.

(** A blog whose listing has no article link. *)
Lemma controller_on_empty_listing :
  WebScraperService.scrapeOldestArticles Scenario.externals Scenario.emptyBlog
    Scenario.idle = ({| browser := true |}, Ok [])
  /\ ScraperController.status
       (ScraperController.response
          (ScraperController.scrapeOldestArticles Scenario.externals
             Scenario.emptyBlog (Scenario.repository Scenario.countingEngine)
             Scenario.idle Scenario.emptyDb)) = 404%N
  /\ browser
       (ScraperController.service_after
          (ScraperController.scrapeOldestArticles Scenario.externals
             Scenario.emptyBlog (Scenario.repository Scenario.countingEngine)
             Scenario.idle Scenario.emptyDb)) = true.
Proof.
  assert (H : WebScraperService.scrapeOldestArticles Scenario.externals
                Scenario.emptyBlog Scenario.idle
              = ({| browser := true |}, Ok []))
    by (vm_compute; reflexivity).
  split; [exact H|].
  exact (controller_returns_404_with_browser_running Scenario.externals
           Scenario.emptyBlog ArticleRepository.Database
           (Scenario.repository Scenario.countingEngine)
           Scenario.idle {| browser := true |} Scenario.emptyDb H).
Defined.

(** The script on the same blog returns with the browser closed. *)
Example script_closes_browser_on_empty_listing :
  browser
    (ScrapeArticlesScript.service_after
       (ScrapeArticlesScript.main Scenario.externals Scenario.emptyBlog
          (Scenario.repository Scenario.countingEngine) (Ok tt)
          Scenario.idle Scenario.emptyDb)) = false.
Proof. vm_compute. reflexivity. Qed.

End OrchestrationFacts.

Module LinkProperties.
Import Spec WebScraperService LinkFacts Scenario.

(** C6, as the code has it.  The link extractor returns the links of one
    strategy only, the first in the list whose query does not reject and that
    matches an element with an [href] mentioning [/blog]: the result is made
    of the [href]s of the elements that this selector matches, those that
    mention [/blog], in document order, each once, at its first appearance;
    an [href] that starts with [http] is kept as it is, any other is put
    behind the site origin.  A link is returned exactly when an element that
    the selector matches carries it.  When every strategy comes up empty the
    result is the empty list. *)
Theorem link_extractor_uses_first_strategy (page : Page) :
  ((exists pre sel post,
       articleSelectors = pre ++ sel :: post
       /\ Forall (comesUpEmpty page) pre
       /\ rejects page sel = false
       /\ blogHrefs (querySelectorAll page sel) <> []
       /\ extractArticleLinks page
          = firstOccurrences
              (map withOrigin (blogHrefs (querySelectorAll page sel)))
       /\ (forall u,
             In u (extractArticleLinks page) <->
             exists el h,
               In el (querySelectorAll page sel)
               /\ getAttribute el "href" = Some h
               /\ includes h (lit "/blog") = true
               /\ u = if startsWith h (lit "http") then h
                      else siteOrigin ++ h))
   \/ (Forall (comesUpEmpty page) articleSelectors
       /\ extractArticleLinks page = []))
  /\ NoDup (extractArticleLinks page)
  /\ (forall u, In u (extractArticleLinks page) ->
        startsWith u (lit "http") = true).
Proof.
  unfold extractArticleLinks. rewrite uniq_firstOccurrences.
  split; [|split].
  - destruct (firstStrategy_spec page articleSelectors)
      as [[pre [sel [post [Hsels [Hpre [Hr [Hne Heq]]]]]]]|[Hall Heq]].
    + left. exists pre, sel, post. rewrite Heq.
      repeat (split; [assumption || reflexivity|]).
      intros u. rewrite firstOccurrences_In, in_map_iff. split.
      * intros (h & <- & Hh). apply blogHrefs_In in Hh.
        destruct Hh as (el & Hel & Ha & Hi). now exists el, h.
      * intros (el & h & Hel & Ha & Hi & ->). exists h.
        split; [reflexivity|]. apply blogHrefs_In. now exists el.
    + right. rewrite Heq. auto.
  - apply firstOccurrences_NoDup.
  - intros u Hu. apply (proj1 (firstOccurrences_In _ _)) in Hu.
    destruct (firstStrategy_spec page articleSelectors)
      as [[pre [sel [post [_ [_ [_ [_ Heq]]]]]]]|[_ Heq]];
      rewrite Heq in Hu; [|contradiction].
    apply in_map_iff in Hu. destruct Hu as (h & <- & _).
    apply withOrigin_http.
Qed.

(** A relative reference that starts with the letters [http] is returned as
    it stands, and it is no absolute URL. *)
Lemma relative_href_is_returned_unresolved :
  extractArticleLinks oddListing = [lit "httpdocs/blog/post"]
  /\ ~ Forall (fun u => isAbsoluteUrl u = true) (extractArticleLinks oddListing).
Proof.
  split; [reflexivity|].
  intros H. inversion H as [|u l Hu _]. vm_compute in Hu. discriminate.
Qed.

(** An [href] that does not mention [/blog] does not count as a find: the
    links come from the next strategy, each once. *)
Example link_extractor_skips_stray_links :
  extractArticleLinks strayListing = [lit "https://www.beyondchats.com/blog/y"].
Proof. reflexivity. Qed.

(** The usual case: a site-relative [href] is prefixed with the origin. *)
Example link_extractor_on_listing :
  extractArticleLinks listing = [firstPostUrl]
  /\ Forall (fun u => isAbsoluteUrl u = true) (extractArticleLinks listing).
Proof. split; [reflexivity|]. repeat constructor. Qed.

End LinkProperties.
Module PaginationProperties.
Import Spec WebScraperService PaginationFacts Scenario.

Lemma pageNumbers_sorted (page : Page) :
  pageNumbers page
  = sortBy (descending pageNumber) (map pageLinkOf (numberedElements page)).
Proof.
  unfold pageNumbers. fold (numberedLinks page).
  now rewrite numberedLinks_elements.
Qed.

Lemma numberedElements_shown (page : Page) (el : Element) :
  In el (numberedElements page) ->
  exists h n,
    getAttribute el "href" = Some h /\ truthy h = true /\ pageShown el = Some n.
Proof.
  unfold numberedElements. intros H. apply filter_In in H. destruct H as [_ H].
  destruct (getAttribute el "href") as [h|]; [|discriminate].
  destruct (pageShown el) as [n|]; [|discriminate]. now exists h, n.
Qed.

(** Below [2 ^ 53] the order of the Numbers is the order of the integers. *)
Lemma safe_le (m n : N) :
  (m <= maxSafeInteger)%N ->
  Number_le (nearestNumber m) (nearestNumber n) -> (m <= n)%N.
Proof.
  intros Hm. rewrite (nearestNumber_safe m Hm).
  destruct (N.le_gt_cases n maxSafeInteger) as [Hn|Hn].
  - rewrite (nearestNumber_safe n Hn). exact (fun H => H).
  - intros _. lia.
Qed.

Lemma safe_lt (m n : N) :
  (m <= maxSafeInteger)%N ->
  ~ Number_le (nearestNumber n) (nearestNumber m) -> (m < n)%N.
Proof.
  intros Hm. rewrite (nearestNumber_safe m Hm).
  destruct (N.le_gt_cases n maxSafeInteger) as [Hn|Hn].
  - rewrite (nearestNumber_safe n Hn). cbn [Number_le]. lia.
  - intros _. lia.
Qed.

(** C7, as the code has it.  When no last-page control yields a URL, the
    resolver looks at the elements that the page-link selector matches, those
    with an [href] and a text that shows a number, and returns the URL of the
    [href] of the first of them, in document order, whose number is the
    greatest.  The numbers are compared as [parseInt] reads them, as Numbers:
    up to [2 ^ 53 - 1] that is the order of the integers, and greater integers
    count as the Number nearest to them.  When that scan finds nothing, or its
    query rejects, the result is [None], and the run goes on with the current
    page as the last one.  The result is always a value: the resolver never
    raises. *)
Theorem pagination_resolver_picks_greatest_page
  (ext : Externals) (page : Page) :
  lastPageControl ext page paginationSelectors = None ->
  (rejects page pageLinkSelector = true \/ numberedElements page = [] ->
   findLastPage ext page = None)
  /\ (rejects page pageLinkSelector = false -> numberedElements page <> [] ->
      exists pre best post h n,
        numberedElements page = pre ++ best :: post
        /\ getAttribute best "href" = Some h
        /\ pageShown best = Some n
        /\ (forall el m, In el pre -> pageShown el = Some m ->
              ~ Number_le (nearestNumber n) (nearestNumber m))
        /\ (forall el m, In el post -> pageShown el = Some m ->
              Number_le (nearestNumber m) (nearestNumber n))
        /\ (forall el m, In el pre -> pageShown el = Some m ->
              (m <= maxSafeInteger)%N -> (m < n)%N)
        /\ (forall el m, In el post -> pageShown el = Some m ->
              (m <= maxSafeInteger)%N -> (m <= n)%N)
        /\ findLastPage ext page = absolutize ext h)
  /\ (forall world, findLastPage ext page = None ->
        listingPage ext world page = Ok page).
Proof.
  intros Hctl.
  assert (Hlast : forall world, findLastPage ext page = None ->
                    listingPage ext world page = Ok page).
  { intros world Hnone. unfold listingPage. now rewrite Hnone. }
  split; [|split; [|exact Hlast]]; clear Hlast;
    unfold findLastPage; rewrite Hctl.
  - intros [->|Hnone]; [reflexivity|].
    destruct (rejects page pageLinkSelector); [reflexivity|].
    now rewrite pageNumbers_sorted, Hnone.
  - intros -> Hsome.
    rewrite pageNumbers_sorted.
    destruct (sortBy (descending pageNumber)
                (map pageLinkOf (numberedElements page)))
      as [|item rest] eqn:Es.
    + apply sortBy_nil in Es. apply map_eq_nil in Es. contradiction.
    + apply sortBy_head_first in Es.
      destruct Es as (lpre & lpost & Hsplit & Hpre & Hpost).
      apply map_eq_app in Hsplit.
      destruct Hsplit as (pre & tl & Hels & <- & Htl).
      apply map_eq_cons in Htl.
      destruct Htl as (best & post & -> & <- & <-).
      assert (Hbest : In best (numberedElements page))
        by (rewrite Hels; apply in_or_app; right; now left).
      destruct (numberedElements_shown page best Hbest) as (h & n & Hh & _ & Hn).
      assert (Hbefore : forall el m, In el pre -> pageShown el = Some m ->
                ~ Number_le (nearestNumber n) (nearestNumber m)).
      { intros el m Hel Hm.
        rewrite <- (pageNumber_shown el m Hm), <- (pageNumber_shown best n Hn).
        apply Hpre. now apply in_map. }
      assert (Hafter : forall el m, In el post -> pageShown el = Some m ->
                Number_le (nearestNumber m) (nearestNumber n)).
      { intros el m Hel Hm.
        rewrite <- (pageNumber_shown el m Hm), <- (pageNumber_shown best n Hn).
        apply Hpost. now apply in_map. }
      exists pre, best, post, h, n. cbn [link_href pageLinkOf]. rewrite Hh.
      repeat split; try assumption; try reflexivity.
      * intros el m Hel Hm Hsafe. apply (safe_lt m n Hsafe).
        exact (Hbefore el m Hel Hm).
      * intros el m Hel Hm Hsafe. apply (safe_le m n Hsafe).
        exact (Hafter el m Hel Hm).
Qed.

(** On [pagedListing] the links read 2, 14 and 3: page 14 is chosen. *)
Lemma pagination_resolver_on_paged_listing :
  lastPageControl externals pagedListing paginationSelectors = None
  /\ findLastPage externals pagedListing
     = Some (lit "https://beyondchats.com/blogs/page/14/")
  /\ exists pre best post h n,
       numberedElements pagedListing = pre ++ best :: post
       /\ getAttribute best "href" = Some h
       /\ pageShown best = Some n
       /\ (forall el m, In el pre -> pageShown el = Some m ->
             (m <= maxSafeInteger)%N -> (m < n)%N)
       /\ (forall el m, In el post -> pageShown el = Some m ->
             (m <= maxSafeInteger)%N -> (m <= n)%N)
       /\ findLastPage externals pagedListing = absolutize externals h.
Proof.
  assert (H1 : lastPageControl externals pagedListing paginationSelectors
               = None) by reflexivity.
  split; [exact H1|]. split; [reflexivity|].
  destruct (pagination_resolver_picks_greatest_page externals pagedListing H1)
    as (_ & H & _).
  destruct (H eq_refl) as (pre & best & post & h & n & H2 & H3 & H4 & _ & _
                           & H5 & H6 & H7); [discriminate|].
  now exists pre, best, post, h, n.
Defined.

(** Two links that show [2 ^ 53] and [2 ^ 53 + 1]: both texts are read as the
    Number [2 ^ 53], and the first link is returned, not the one that shows
    the greater number. *)
Lemma rounded_page_numbers_tie :
  lastPageControl externals hugeListing paginationSelectors = None
  /\ map pageShown (numberedElements hugeListing)
     = [Some 9007199254740992%N; Some 9007199254740993%N]
  /\ map (fun el => getAttribute el "href") (numberedElements hugeListing)
     = [Some (lit "/blogs/page/9007199254740992/");
        Some (lit "/blogs/page/9007199254740993/")]
  /\ findLastPage externals hugeListing
     = Some (lit "https://beyondchats.com/blogs/page/9007199254740992/").
Proof. vm_compute. repeat split. Qed.

Example last_page_of_paged_listing :
  map pageShown (numberedElements pagedListing) = [Some 2; Some 14; Some 3]%N
  /\ findLastPage externals pagedListing
     = Some (lit "https://beyondchats.com/blogs/page/14/").
Proof. split; reflexivity. Qed.

End PaginationProperties.

Module CleaningProperties.
Import Spec WebScraperService CleaningFacts Scenario.

(** C8, as the code has it.  The whitespace clean-up is idempotent, and
    cleaning a cleaned text changes nothing whenever the text extraction
    leaves it as it is, that is when it holds no markup and no character
    reference. *)
Theorem cleaning_is_idempotent_on_plain_text (ext : Externals) (x : jstring) :
  htmlToText ext unwantedSelectors (cleanArticleContent ext x)
  = cleanArticleContent ext x ->
  cleanArticleContent ext (cleanArticleContent ext x)
  = cleanArticleContent ext x
  /\ (forall t, normalizeWhitespace (normalizeWhitespace t)
                = normalizeWhitespace t).
Proof.
  intros Hplain. split.
  - unfold cleanArticleContent at 1. rewrite Hplain.
    unfold cleanArticleContent. apply normalizeWhitespace_idem.
  - apply normalizeWhitespace_idem.
Qed.

Lemma cleaning_plain_markup_twice :
  htmlToText externals unwantedSelectors
    (cleanArticleContent externals plainMarkup)
  = cleanArticleContent externals plainMarkup
  /\ (cleanArticleContent externals (cleanArticleContent externals plainMarkup)
      = cleanArticleContent externals plainMarkup
      /\ (forall t, normalizeWhitespace (normalizeWhitespace t)
                    = normalizeWhitespace t)).
Proof.
  assert (H : htmlToText externals unwantedSelectors
                (cleanArticleContent externals plainMarkup)
              = cleanArticleContent externals plainMarkup)
    by (vm_compute; reflexivity).
  split; [exact H|].
  exact (cleaning_is_idempotent_on_plain_text externals plainMarkup H).
Defined.

(** Text that spells a tag with character references is cleaned to the tag
    itself, and cleaning that once more drops the tag. *)
Lemma cleaning_escaped_markup_twice :
  cleanArticleContent externals escapedMarkup = lit "<b>bold</b> text"
  /\ cleanArticleContent externals (cleanArticleContent externals escapedMarkup)
     = lit "bold text"
  /\ cleanArticleContent externals (cleanArticleContent externals escapedMarkup)
     <> cleanArticleContent externals escapedMarkup.
Proof.
  split; [vm_compute; reflexivity|].
  split; [vm_compute; reflexivity|].
  vm_compute. discriminate.
Qed.

End CleaningProperties.

(* ------------------------------------------------------------------ *)
(** * Further properties of the repository, the controller and the
      database layer *)

Module ListFacts.


Lemma find_none_iff (A : Type) (test : A -> bool) (rows : list A) :
  find test rows = None <-> forall x, In x rows -> test x = false.
Proof.
  split.
  - intros H x Hx. exact (find_none test rows H x Hx).
  - induction rows as [|y l IH]; simpl; intros H; [reflexivity|].
    rewrite (H y (or_introl eq_refl)). apply IH. intros x Hx. apply H. now right.
Qed.

Lemma filter_nil_find (A : Type) (f : A -> bool) (l : list A) :
  length (filter f l) = 0 <-> find f l = None.
Proof.
  induction l as [|x l IH]; simpl; [tauto|].
  destruct (f x); simpl; [split; discriminate|exact IH].
Qed.

Lemma map_id_when (A : Type) (p : A -> bool) (f : A -> A) (l : list A) :
  find p l = None -> map (fun x => if p x then f x else x) l = l.
Proof.
  induction l as [|x l IH]; simpl; [reflexivity|].
  destruct (p x); [discriminate|]. intros H. now rewrite IH.
Qed.

Lemma find_filter_same (A : Type) (p : A -> bool) (l : list A) :
  find p (filter (fun x => negb (p x)) l) = None.
Proof.
  induction l as [|x l IH]; simpl; [reflexivity|].
  destruct (p x) eqn:E; simpl; [exact IH|]. rewrite E. exact IH.
Qed.

Lemma find_filter_other (A : Type) (p q : A -> bool) (l : list A) :
  (forall x, q x = true -> p x = false) ->
  find q (filter (fun x => negb (p x)) l) = find q l.
Proof.
  intros H. induction l as [|x l IH]; simpl; [reflexivity|].
  destruct (q x) eqn:Eq.
  - rewrite (H x Eq). simpl. rewrite Eq. reflexivity.
  - destruct (p x); simpl; [exact IH|]. rewrite Eq. exact IH.
Qed.

Lemma filter_none (A : Type) (p : A -> bool) (l : list A) :
  find p l = None -> filter (fun x => negb (p x)) l = l.
Proof.
  induction l as [|x l IH]; simpl; [reflexivity|].
  destruct (p x); [discriminate|]. intros H. simpl. now rewrite IH.
Qed.

Lemma filter_split_length (A : Type) (p : A -> bool) (l : list A) :
  length (filter p l) + length (filter (fun x => negb (p x)) l) = length l.
Proof.
  induction l as [|x l IH]; simpl; [reflexivity|].
  destruct (p x); simpl; lia.
Qed.

Lemma NoDup_map_filter (A B : Type) (key : A -> B) (keep : A -> bool)
  (rows : list A) :
  NoDup (map key rows) -> NoDup (map key (filter keep rows)).
Proof.
  intros H. induction rows as [|x rows IH]; simpl; [constructor|].
  simpl in H. inversion H as [|? ? Hn Hd]; subst.
  destruct (keep x); simpl; [constructor|]; auto.
  intros Hin. apply Hn. apply in_map_iff in Hin. destruct Hin as (y & Hy & Hin).
  apply filter_In in Hin. apply in_map_iff. exists y. tauto.
Qed.

Lemma In_firstn (A : Type) (n : nat) (l : list A) (x : A) :
  In x (firstn n l) -> In x l.
Proof.
  intros H. rewrite <- (firstn_skipn n l). apply in_or_app. now left.
Qed.

Lemma In_skipn (A : Type) (n : nat) (l : list A) (x : A) :
  In x (skipn n l) -> In x l.
Proof.
  intros H. rewrite <- (firstn_skipn n l). apply in_or_app. now right.
Qed.

Lemma StronglySorted_map_weaken (A B : Type) (R : A -> A -> Prop)
  (S : B -> B -> Prop) (f : A -> B) (l : list A) :
  (forall a b, R a b -> S (f a) (f b)) ->
  StronglySorted R l -> StronglySorted S (map f l).
Proof.
  intros HRS. induction 1 as [|x l Hl IH Hx]; simpl; constructor; [exact IH|].
  apply Forall_map. eapply Forall_impl; [|exact Hx]. intros b Hb. now apply HRS.
Qed.

Lemma Forall2_sorted (A B : Type) (R : A -> B -> Prop)
  (S1 : A -> A -> Prop) (S2 : B -> B -> Prop) (l : list A) (l' : list B) :
  (forall a b a' b', R a b -> R a' b' -> S1 a a' -> S2 b b') ->
  Forall2 R l l' -> StronglySorted S1 l -> StronglySorted S2 l'.
Proof.
  intros H. induction 1 as [|a b l l' Hab Hl IH]; intros Hs; [constructor|].
  inversion Hs as [|? ? Hs' Ha]; subst. constructor; [apply IH, Hs'|].
  clear IH Hs Hs'. induction Hl as [|a' b' l l' Hab' Hl IH]; [constructor|].
  inversion Ha as [|? ? Haa' Ha']; subst.
  constructor; [exact (H _ _ _ _ Hab Hab' Haa')|apply IH, Ha'].
Qed.

Lemma Forall2_Forall (A B : Type) (R : A -> B -> Prop) (P : A -> Prop)
  (Q : B -> Prop) (l : list A) (l' : list B) :
  (forall a b, R a b -> P a -> Q b) ->
  Forall2 R l l' -> Forall P l -> Forall Q l'.
Proof.
  intros H. induction 1 as [|a b l l' Hab Hl IH]; intros Hp; [constructor|].
  inversion Hp; subst. constructor; eauto.
Qed.

Lemma Forall2_In_r (A B : Type) (R : A -> B -> Prop) (l : list A)
  (l' : list B) (b : B) :
  Forall2 R l l' -> In b l' -> exists a, In a l /\ R a b.
Proof.
  induction 1 as [|a b' l l' Hab Hl IH]; intros Hin; [destruct Hin|].
  destruct Hin as [->|Hin].
  - exists a. split; [now left|exact Hab].
  - destruct (IH Hin) as (a' & Ha' & Hr). exists a'. split; [now right|exact Hr].
Qed.

End ListFacts.

Module SortFacts.
Import ListFacts.

(** [sortBy] with a comparator that orders by a rank. *)
Section SortedBy.
Variable A : Type.
Variable cmp : A -> A -> Z.
Variable rank : A -> Z.
Hypothesis cmp_rank : forall y x, (cmp y x <? 0)%Z = (rank y <? rank x)%Z.

Lemma insertSorted_perm (x : A) (l : list A) :
  Permutation (insertSorted cmp x l) (x :: l).
Proof.
  induction l as [|y l IH]; simpl; [reflexivity|].
  destruct (cmp y x <? 0)%Z; [|reflexivity].
  rewrite IH. apply perm_swap.
Qed.

Lemma sortBy_perm (l : list A) : Permutation (sortBy cmp l) l.
Proof.
  induction l as [|x l IH]; simpl; [reflexivity|].
  unfold sortBy in *. simpl. rewrite insertSorted_perm. now constructor.
Qed.

Lemma insertSorted_sorted (x : A) (l : list A) :
  StronglySorted (fun a b => (rank a <= rank b)%Z) l ->
  StronglySorted (fun a b => (rank a <= rank b)%Z) (insertSorted cmp x l).
Proof.
  induction l as [|y l IH]; intros H; simpl.
  - repeat constructor.
  - inversion H as [|? ? Hl Hy]; subst.
    destruct (cmp y x <? 0)%Z eqn:E; rewrite cmp_rank in E.
    + apply Z.ltb_lt in E. constructor; [apply IH, Hl|].
      apply Forall_forall. intros z Hz.
      apply (Permutation_in _ (insertSorted_perm x l)) in Hz.
      destruct Hz as [<-|Hz]; [lia|].
      rewrite Forall_forall in Hy. apply Hy, Hz.
    + apply Z.ltb_ge in E. constructor; [exact H|].
      constructor; [exact E|].
      apply Forall_forall. intros z Hz. rewrite Forall_forall in Hy.
      specialize (Hy z Hz). lia.
Qed.

Lemma sortBy_sorted (l : list A) :
  StronglySorted (fun a b => (rank a <= rank b)%Z) (sortBy cmp l).
Proof.
  induction l as [|x l IH]; [constructor|].
  unfold sortBy in *. simpl. apply insertSorted_sorted, IH.
Qed.

Lemma sorted_firstn_skipn (n : nat) (l : list A) :
  StronglySorted (fun a b => (rank a <= rank b)%Z) l ->
  forall a b, In a (firstn n l) -> In b (skipn n l) -> (rank a <= rank b)%Z.
Proof.
  revert n. induction l as [|x l IH]; intros n H a b Ha Hb.
  - destruct n; destruct Ha.
  - destruct n as [|n]; [destruct Ha|].
    inversion H as [|? ? Hl Hx]; subst. simpl in Ha, Hb.
    destruct Ha as [<-|Ha].
    + rewrite Forall_forall in Hx. apply Hx. eapply In_skipn; eassumption.
    + eapply IH; eassumption.
Qed.

Lemma sorted_firstn (n : nat) (l : list A) :
  StronglySorted (fun a b => (rank a <= rank b)%Z) l ->
  StronglySorted (fun a b => (rank a <= rank b)%Z) (firstn n l).
Proof.
  revert n. induction l as [|x l IH]; intros n H.
  - destruct n; constructor.
  - destruct n as [|n]; [constructor|]. inversion H as [|? ? Hl Hx]; subst.
    simpl. constructor; [apply IH, Hl|].
    apply Forall_forall. intros z Hz. rewrite Forall_forall in Hx.
    apply Hx. eapply In_firstn; eassumption.
Qed.

Lemma sorted_skipn (n : nat) (l : list A) :
  StronglySorted (fun a b => (rank a <= rank b)%Z) l ->
  StronglySorted (fun a b => (rank a <= rank b)%Z) (skipn n l).
Proof.
  revert n. induction l as [|x l IH]; intros n H.
  - destruct n; constructor.
  - destruct n as [|n]; [exact H|]. inversion H; subst. simpl. now apply IH.
Qed.

End SortedBy.

End SortFacts.

Module RepositoryProperties.
Import RegExp Article JSON WebScraperService ArticleRepository Orchestration Spec.
Import WordFacts LinkFacts JSONFacts RepositoryFacts ListFacts SortFacts.

(** *** Lookups after an insert *)

Lemma firstArticle_found (engine : Engine) (p : Row -> bool) (rows : list Row)
  (r : Row) :
  find p rows = Some r ->
  firstArticle engine (filter p rows) = firstArticle engine [r].
Proof. intros H. now rewrite firstArticle_find, H. Qed.

Lemma firstArticle_absent (engine : Engine) (p : Row -> bool) (rows : list Row) :
  find p rows = None -> firstArticle engine (filter p rows) = Ok None.
Proof. intros H. now rewrite firstArticle_find, H. Qed.

Lemma firstArticle_null (engine : Engine) (p : Row -> bool) (rows : list Row) :
  firstArticle engine (filter p rows) = Ok None -> find p rows = None.
Proof.
  rewrite firstArticle_find. destruct (find p rows) as [r|]; [|reflexivity].
  destruct (mapRowToArticle engine r); discriminate.
Qed.




Lemma findByUrl_row (engine : Engine) (db : Database)
  (c : CreateArticleData) (r : Row) :
  rowOfUrl db c = Some r ->
  findByUrl engine db (new_url c) = (db, firstArticle engine [r]).
Proof.
  intros H. unfold findByUrl. f_equal. now apply firstArticle_found.
Qed.




(** The same candidate on the table with the [UUID()] key and the driver of
    [connection.ts]: the row is stored, and the lookup by its URL throws. *)
Example sample_candidate_is_not_read_back :
  map row_url
    (articles (fst (create Scenario.uuidEngine Scenario.emptyDb
                      Scenario.candidate)))
  = [Scenario.firstPostUrl]
  /\ snd (findByUrl Scenario.uuidEngine
            (fst (create Scenario.uuidEngine Scenario.emptyDb
                    Scenario.candidate))
            Scenario.firstPostUrl)
     = Throw (SyntaxError "Unexpected token in JSON").
Proof. split; vm_compute; reflexivity. Qed.

(** *** The row that an update leaves *)

Lemma assigned_keys (db : Database) (updates : list Assignment) (r : Row) :
  row_id (fold_left (assign db) updates r) = row_id r
  /\ row_url (fold_left (assign db) updates r) = row_url r
  /\ created_at (fold_left (assign db) updates r) = created_at r
  /\ scraped_date (fold_left (assign db) updates r) = scraped_date r.
Proof.
  revert r. induction updates as [|a l IH]; intros r; simpl; [auto|].
  destruct (IH (assign db r a)) as (H1 & H2 & H3 & H4).
  rewrite H1, H2, H3, H4. auto.
Qed.

Lemma updated_fields (db : Database) (data : UpdateArticleData) (r : Row) :
  let r' := updated db data r in
  row_id r' = row_id r
  /\ row_url r' = row_url r
  /\ scraped_date r' = scraped_date r
  /\ created_at r' = created_at r
  /\ updated_at r' = clock db
  /\ row_title r'
     = match upd_title data with Some t => trim t | None => row_title r end
  /\ row_content r'
     = match upd_content data with
       | Some c => sanitizeArticleContent c
       | None => row_content r
       end
  /\ word_count r'
     = match upd_content data with
       | Some c => calculateWordCount (sanitizeArticleContent c)
       | None => word_count r
       end
  /\ reading_time r'
     = match upd_content data with
       | Some c =>
           calculateReadingTime (calculateWordCount (sanitizeArticleContent c))
       | None => reading_time r
       end
  /\ enhanced_content r'
     = match upd_enhancedContent data with
       | Some e => Some e
       | None => enhanced_content r
       end
  /\ is_enhanced r'
     = match upd_enhancedContent data with
       | Some _ => true
       | None => is_enhanced r
       end
  /\ row_tags r'
     = match upd_tags data with Some t => Some t | None => row_tags r end.
Proof.
  unfold updated, updatesOf.
  destruct (upd_title data), (upd_content data), (upd_enhancedContent data),
    (upd_tags data);
    cbn [fold_left app assign row_id row_title row_content row_url scraped_date
         enhanced_content is_enhanced word_count reading_time row_tags
         created_at updated_at];
    repeat split; reflexivity.
Qed.

Lemma updated_counted (db : Database) (data : UpdateArticleData) (r : Row) :
  rowCounted r -> rowCounted (updated db data r).
Proof.
  intros [Hw Hr]. unfold rowCounted.
  destruct (updated_fields db data r) as (_ & _ & _ & _ & _ & _ & Ec & Ew & Et & _).
  rewrite Ec, Ew, Et. destruct (upd_content data) as [c|]; [|auto].
  split; [apply calculateWordCount_words|apply calculateReadingTime_ceiling].
Qed.

Lemma updatesOf_nil (data : UpdateArticleData) :
  updatesOf data = [] <->
  upd_title data = None /\ upd_content data = None
  /\ upd_enhancedContent data = None /\ upd_tags data = None.
Proof.
  unfold updatesOf.
  destruct (upd_title data), (upd_content data), (upd_enhancedContent data),
    (upd_tags data); cbn [app]; split; intros H; try discriminate;
    try (destruct H as (? & ? & ? & ?); discriminate); auto.
Qed.

Lemma find_map_hasId (id : jstring) (f : Row -> Row) (rows : list Row) :
  (forall r, row_id (f r) = row_id r) ->
  find (hasId id) (map (fun r => if hasId id r then f r else r) rows)
  = option_map f (find (hasId id) rows).
Proof.
  intros Hf. induction rows as [|r rows IH]; simpl; [reflexivity|].
  destruct (hasId id r) eqn:E.
  - unfold hasId at 1. rewrite Hf. fold (hasId id r). rewrite E. reflexivity.
  - rewrite E. exact IH.
Qed.

Lemma find_map_other (id id' : jstring) (f : Row -> Row) (rows : list Row) :
  id' <> id ->
  (forall r, row_id (f r) = row_id r) ->
  find (hasId id') (map (fun r => if hasId id r then f r else r) rows)
  = find (hasId id') rows.
Proof.
  intros Hne Hf. induction rows as [|r rows IH]; simpl; [reflexivity|].
  destruct (hasId id r) eqn:E.
  - unfold hasId at 1. rewrite Hf. fold (hasId id' r).
    assert (E' : hasId id' r = false).
    { apply jstring_eqb_neq. apply jstring_eqb_eq in E. congruence. }
    rewrite E'. exact IH.
  - destruct (hasId id' r); [reflexivity|exact IH].
Qed.

Lemma database_eta (db : Database) :
  {| articles := articles db; clock := clock db |} = db.
Proof. destruct db; reflexivity. Qed.

Lemma update_found (engine : Engine) (db : Database) (id : jstring)
  (data : UpdateArticleData) (r : Row) :
  find (hasId id) (articles db) = Some r ->
  updatesOf data <> [] ->
  update engine db id data
  = (fst (executeUpdate db (updatesOf data ++ [SetUpdatedAtNow]) id),
     firstArticle engine [updated db data r])
  /\ find (hasId id)
       (articles (fst (executeUpdate db (updatesOf data ++ [SetUpdatedAtNow]) id)))
     = Some (updated db data r).
Proof.
  intros Hr Hne.
  assert (Hf : find (hasId id)
                 (articles
                    (fst (executeUpdate db (updatesOf data ++ [SetUpdatedAtNow])
                            id)))
               = Some (updated db data r)).
  { unfold executeUpdate. cbn [fst articles].
    rewrite find_map_hasId by (intros; apply assigned_keys).
    rewrite Hr. reflexivity. }
  split; [|exact Hf]. unfold update.
  destruct (updatesOf data) as [|a l] eqn:E; [contradiction|].
  cbn [length Nat.eqb]. rewrite <- E in *.
  assert (Hn : (N.of_nat (length (filter (hasId id) (articles db))) =? 0)%N = false).
  { apply N.eqb_neq. intros H0.
    assert (H1 : length (filter (hasId id) (articles db)) = 0) by lia.
    apply filter_nil_find in H1. congruence. }
  unfold executeUpdate at 1 2. cbn [affectedRows]. rewrite Hn.
  unfold findById. f_equal.
  change (fun r0 : Row => jstring_eqb (row_id r0) id) with (hasId id).
  apply firstArticle_found. exact Hf.
Qed.

Lemma update_unknown (engine : Engine) (db : Database) (id : jstring)
  (data : UpdateArticleData) :
  updatesOf data <> [] ->
  find (hasId id) (articles db) = None ->
  update engine db id data = (db, Ok None).
Proof.
  intros Hne Hf. unfold update.
  destruct (updatesOf data) as [|a l] eqn:E; [contradiction|].
  cbn [length Nat.eqb]. rewrite <- E. cbn [executeUpdate affectedRows].
  rewrite (proj2 (filter_nil_find _ _ _) Hf). cbn [N.of_nat N.eqb].
  rewrite map_id_when by exact Hf. rewrite database_eta. reflexivity.
Qed.

Lemma update_database (engine : Engine) (db : Database) (id : jstring)
  (data : UpdateArticleData) :
  fst (update engine db id data) = db
  \/ fst (update engine db id data)
     = fst (executeUpdate db (updatesOf data ++ [SetUpdatedAtNow]) id).
Proof.
  unfold update. destruct (length (updatesOf data) =? 0); [now left|right].
  cbn [executeUpdate].
  destruct (affectedRows _ =? 0)%N; reflexivity.
Qed.

Lemma executeUpdate_keys (db : Database) (updates : list Assignment)
  (id : jstring) :
  map row_id (articles (fst (executeUpdate db updates id)))
  = map row_id (articles db)
  /\ map row_url (articles (fst (executeUpdate db updates id)))
     = map row_url (articles db).
Proof.
  unfold executeUpdate. cbn [fst articles]. rewrite !map_map.
  split; apply map_ext; intros r; destruct (hasId id r); try reflexivity;
    apply assigned_keys.
Qed.

(** *** Invariants of the table *)

Lemma create_keeps_keys (engine : Engine) (db : Database)
  (data : CreateArticleData) :
  NoDup (map row_id (articles db)) /\ NoDup (map row_url (articles db)) ->
  NoDup (map row_id (articles (fst (create engine db data))))
  /\ NoDup (map row_url (articles (fst (create engine db data)))).
Proof.
  intros [Hi Hu]. rewrite create_database. unfold executeInsert.
  destruct (existsb _ _) eqn:E; cbn [fst articles]; [auto|].
  assert (Hfree : forall r, In r (articles db) ->
            row_id r <> row_id (insertedRow engine db data)
            /\ row_url r <> row_url (insertedRow engine db data)).
  { intros r Hr.
    assert (Hc : conflicts (insertedRow engine db data) r = false).
    { destruct (conflicts (insertedRow engine db data) r) eqn:C; [|reflexivity].
      assert (existsb (conflicts (insertedRow engine db data)) (articles db) = true)
        by (apply existsb_exists; eauto).
      congruence. }
    unfold conflicts in Hc. apply orb_false_iff in Hc. destruct Hc as [C1 C2].
    split; apply jstring_eqb_neq; assumption. }
  rewrite !map_app. simpl.
  split.
  - apply NoDup_app; [exact Hi|repeat constructor; simpl; tauto|].
    intros x Hx [<-|[]]. apply in_map_iff in Hx. destruct Hx as (r & E1 & Hr).
    apply (proj1 (Hfree r Hr)). exact E1.
  - apply NoDup_app; [exact Hu|repeat constructor; simpl; tauto|].
    intros x Hx [<-|[]]. apply in_map_iff in Hx. destruct Hx as (r & E1 & Hr).
    apply (proj2 (Hfree r Hr)). exact E1.
Qed.

Lemma operation_keeps_table (engine : Engine) (db : Database) (op : Operation) :
  wellKept db -> wellKept (applyOperation engine db op).
Proof.
  intros (Hi & Hu & Hc). destruct op as [data|id data|id|now]; cbn [applyOperation].
  - destruct (create_keeps_keys engine db data (conj Hi Hu)) as [Hi' Hu'].
    repeat split; try assumption. apply create_keeps_counted, Hc.
  - destruct (update_database engine db id data) as [-> | ->]; [repeat split; assumption|].
    destruct (executeUpdate_keys db (updatesOf data ++ [SetUpdatedAtNow]) id)
      as [E1 E2].
    repeat split; [rewrite E1; exact Hi|rewrite E2; exact Hu|].
    unfold executeUpdate. cbn [fst articles]. apply Forall_map.
    eapply Forall_impl; [|exact Hc]. intros r Hr.
    destruct (hasId id r); [apply (updated_counted db data r Hr)|exact Hr].
  - unfold delete, executeDelete. cbn [fst articles].
    repeat split; [apply NoDup_map_filter, Hi|apply NoDup_map_filter, Hu|].
    apply Forall_forall. intros r Hr. apply filter_In in Hr.
    rewrite Forall_forall in Hc. apply Hc, Hr.
  - repeat split; assumption.
Qed.

(** X6. The repository keeps the table consistent: if no two rows share an
    id or a URL and the word count and reading time of every row agree with
    its content, the same holds after any sequence of [create], [update] and
    [delete] calls, accepted or refused, at any times. *)
Theorem operations_keep_table_consistent
  (engine : Engine) (ops : list Operation) (db : Database) :
  wellKept db -> wellKept (fold_left (applyOperation engine) ops db).
Proof.
  revert db. induction ops as [|op ops IH]; intros db H; simpl; [exact H|].
  apply IH, operation_keeps_table, H.
Qed.

Lemma emptyDb_wellKept : wellKept Scenario.emptyDb.
Proof. repeat split; constructor. Qed.

(** A create, a duplicate create, an update, a delete and an update of the
    deleted row, from the empty table. *)
Lemma table_after_sample_operations :
  wellKept Scenario.emptyDb
  /\ wellKept
       (fold_left (applyOperation Scenario.countingEngine)
          [ Create Scenario.candidate; Create Scenario.candidate; Tick 7;
            Update (lit "1") Scenario.revision; Delete (lit "1");
            Update (lit "1") Scenario.enhancement ]
          Scenario.emptyDb).
Proof.
  split; [exact emptyDb_wellKept|].
  exact (operations_keep_table_consistent Scenario.countingEngine _
           Scenario.emptyDb emptyDb_wellKept).
Defined.

(** *** update *)

(** X7. An update of an article that exists rewrites its row and returns what
    [mapRowToArticle] makes of the rewritten row: the content given is stored
    sanitised with the word count and the reading time computed from the
    sanitised text, the title given is stored trimmed, fields that are not
    given keep their values, [id], [url] and [created_at] are never changed,
    [updated_at] is the current time; the other articles are found as before
    and no row is added or removed.  With a driver that hands a JSON column
    over as text the article of the rewritten row is returned; with a driver
    that hands it over decoded the row is rewritten all the same and [update]
    throws the [SyntaxError] of [JSON.parse], unless the tags joined by
    commas are a JSON text. *)
Theorem update_rewrites_the_article
  (engine : Engine) (db : Database) (id : jstring) (data : UpdateArticleData)
  (r : Row) :
  find (hasId id) (articles db) = Some r ->
  updatesOf data <> [] ->
  let db' := fst (update engine db id data) in
  let r' := updated db data r in
  update engine db id data = (db', firstArticle engine [r'])
  /\ find (hasId id) (articles db') = Some r'
  /\ row_id r' = id /\ row_url r' = row_url r
  /\ created_at r' = created_at r /\ updated_at r' = clock db
  /\ row_title r'
     = match upd_title data with Some t => trim t | None => row_title r end
  /\ row_content r'
     = match upd_content data with
       | Some c => sanitizeArticleContent c
       | None => row_content r
       end
  /\ word_count r'
     = match upd_content data with
       | Some c => calculateWordCount (sanitizeArticleContent c)
       | None => word_count r
       end
  /\ reading_time r'
     = match upd_content data with
       | Some c =>
           calculateReadingTime
             (calculateWordCount (sanitizeArticleContent c))
       | None => reading_time r
       end
  /\ row_tags r'
     = match upd_tags data with Some t => Some t | None => row_tags r end
  /\ (forall a, snd (update engine db id data) = Ok (Some a) ->
        exists parsed, a = articleOf r' parsed /\ tagsOf engine r' = Ok parsed)
  /\ (jsonStrings engine = true -> tagsWellFormed r' ->
      snd (update engine db id data)
      = Ok (Some (articleOf r'
                    (JArray
                       (map JString
                          (match row_tags r' with
                           | Some items => items
                           | None => []
                           end))))))
  /\ (jsonStrings engine = false ->
      forall items, row_tags r' = Some items ->
      JSON.parse (toText items) = None ->
      snd (update engine db id data)
      = Throw (SyntaxError (syntaxMessage engine (toText items))))
  /\ (forall id', id' <> id ->
        snd (findById engine db' id') = snd (findById engine db id'))
  /\ length (articles db') = length (articles db).
Proof.
  intros Hr Hne db' r'.
  destruct (update_found engine db id data r Hr Hne) as [Hu Hf].
  assert (Hdb : db' = fst (executeUpdate db (updatesOf data ++ [SetUpdatedAtNow]) id)).
  { unfold db'. rewrite Hu. reflexivity. }
  fold r' in Hu, Hf.
  destruct (updated_fields db data r)
    as (Fid & Furl & _ & Fca & Fua & Ft & Fc & Fw & Frt & _ & _ & Ftags).
  cbv zeta in *. fold r' in Fid, Furl, Fca, Fua, Ft, Fc, Fw, Frt, Ftags.
  apply find_some in Hr as Hr'. destruct Hr' as [_ Hid]. apply jstring_eqb_eq in Hid.
  split; [rewrite Hu, <- Hdb; reflexivity|].
  split; [rewrite Hdb; exact Hf|].
  split; [congruence|].
  repeat (split; [assumption|]).
  split; [|split; [|split; [|split]]].
  - intros a Ha. rewrite Hu in Ha. cbn [snd] in Ha.
    rewrite firstArticle_one, mapRowToArticle_articleOf in Ha.
    destruct (tagsOf engine r') as [parsed|e]; [|discriminate].
    injection Ha as <-. now exists parsed.
  - intros Hj Hw. rewrite Hu. cbn [snd].
    now rewrite firstArticle_one, (mapRowToArticle_text engine r' Hj Hw).
  - intros Hj items Hi Hp. rewrite Hu. cbn [snd].
    now rewrite firstArticle_one, (mapRowToArticle_decoded engine r' items Hj Hi),
      Hp.
  - intros id' Hne'. rewrite Hdb. unfold findById, executeUpdate.
    cbn [snd fst articles].
    change (fun r0 : Row => jstring_eqb (row_id r0) id') with (hasId id').
    rewrite !firstArticle_find, find_map_other; [reflexivity|exact Hne'|].
    intros; apply assigned_keys.
  - rewrite Hdb. unfold executeUpdate. cbn [fst articles]. apply length_map.
Qed.

(** The stored candidate, updated with a content that carries a script
    block. *)
Lemma revision_of_sample_article :
  find (hasId (lit "1")) (articles Scenario.storedDb) = Some Scenario.storedRow
  /\ updatesOf Scenario.revision <> []
  /\ exists a,
       snd (update Scenario.countingEngine Scenario.storedDb (lit "1")
              Scenario.revision) = Ok (Some a)
       /\ content a = lit "fresh   text"
       /\ wordCount a = 2%N
       /\ url a = Scenario.firstPostUrl.
Proof.
  assert (H1 : find (hasId (lit "1")) (articles Scenario.storedDb)
               = Some Scenario.storedRow) by (vm_compute; reflexivity).
  assert (H2 : updatesOf Scenario.revision <> [])
    by (intros H; vm_compute in H; discriminate H).
  split; [exact H1|]. split; [exact H2|].
  destruct (update_rewrites_the_article Scenario.countingEngine
              Scenario.storedDb (lit "1") Scenario.revision
              Scenario.storedRow H1 H2)
    as (_ & _ & _ & _ & _ & _ & _ & _ & _ & _ & _ & _ & Hu & _).
  eexists. split.
  - apply Hu; [reflexivity|].
    intros items E. vm_compute in E. injection E as <-.
    repeat constructor; apply N.ltb_lt; reflexivity.
  - repeat split; vm_compute; reflexivity.
Defined.

(** On the driver of [connection.ts] the row is rewritten and the update
    throws. *)
Example revision_is_stored_and_not_read_back :
  map row_content
    (articles (fst (update Scenario.uuidEngine Scenario.storedDb (lit "1")
                      Scenario.revision)))
  = [lit "fresh   text"]
  /\ snd (update Scenario.uuidEngine Scenario.storedDb (lit "1")
            Scenario.revision)
     = Throw (SyntaxError "Unexpected token in JSON").
Proof. split; vm_compute; reflexivity. Qed.

(** X8. An update without any defined field throws 'No fields to update'
    before a statement is run, and an update of an id that the table does not
    hold answers [null]; the table is left as it was in both cases. *)
Theorem update_without_fields_or_target
  (engine : Engine) (db : Database) (id : jstring) (data : UpdateArticleData) :
  (upd_title data = None /\ upd_content data = None
   /\ upd_enhancedContent data = None /\ upd_tags data = None ->
   update engine db id data = (db, Throw (JsError "No fields to update")))
  /\ (updatesOf data <> [] ->
      snd (findById engine db id) = Ok None ->
      update engine db id data = (db, Ok None)).
Proof.
  split.
  - intros H. apply updatesOf_nil in H. unfold update. rewrite H. reflexivity.
  - intros Hne Hnone. apply update_unknown; [exact Hne|].
    unfold findById in Hnone. cbn [snd] in Hnone.
    change (fun r0 : Row => jstring_eqb (row_id r0) id) with (hasId id) in Hnone.
    now apply firstArticle_null in Hnone.
Qed.

(** *** Listing queries *)

Lemma ascending_rank (y x : Row) :
  (Z.of_N (created_at y) - Z.of_N (created_at x) <? 0)%Z
  = (Z.of_N (created_at y) <? Z.of_N (created_at x))%Z.
Proof.
  destruct (Z.ltb_spec (Z.of_N (created_at y) - Z.of_N (created_at x)) 0),
    (Z.ltb_spec (Z.of_N (created_at y)) (Z.of_N (created_at x)));
    (reflexivity || lia).
Qed.

Lemma descending_rank (y x : Row) :
  (Z.of_N (created_at x) - Z.of_N (created_at y) <? 0)%Z
  = (- Z.of_N (created_at y) <? - Z.of_N (created_at x))%Z.
Proof.
  destruct (Z.ltb_spec (Z.of_N (created_at x) - Z.of_N (created_at y)) 0),
    (Z.ltb_spec (- Z.of_N (created_at y)) (- Z.of_N (created_at x)));
    (reflexivity || lia).
Qed.

Lemma findUnenhanced_rows (engine : Engine) (db : Database) (limit : nat) :
  exists rows,
    findUnenhanced engine db limit = (db, mapRows engine rows)
    /\ forall r, In r rows -> In r (articles db) /\ is_enhanced r = false.
Proof.
  unfold findUnenhanced. eexists. split; [reflexivity|].
  intros r Hr. apply In_firstn in Hr.
  apply (Permutation_in _ (sortBy_perm _ _ _)) in Hr.
  apply filter_In in Hr. destruct Hr as [Hr He].
  split; [exact Hr|]. now apply negb_true_iff in He.
Qed.

(** What a listing returns when every row is mapped. *)
Lemma mapped_rows (engine : Engine) (rows : list Row) (l : list Article) :
  mapRows engine rows = Ok l ->
  Forall2 (fun r a => mapRowToArticle engine r = Ok a) rows l
  /\ length l = length rows
  /\ map createdAt l = map created_at rows
  /\ map isEnhanced l = map is_enhanced rows
  /\ map Article.id l = map row_id rows.
Proof.
  intros H. apply mapRows_Forall2 in H. split; [exact H|].
  induction H as [|r a rows l Hra Hl (IH1 & IH2 & IH3 & IH4)];
    [repeat split|].
  apply mapRowToArticle_fields in Hra.
  destruct Hra as (Hid & _ & _ & _ & _ & _ & He & _ & _ & Hc & _).
  cbn [length map]. rewrite IH1, IH2, IH3, IH4, Hid, He, Hc. repeat split.
Qed.

(** X9. [findUnenhanced] reads the oldest rows that are not enhanced: as
    many as the limit allows, in ascending order of creation, and a row that
    is not enhanced and is left out was created no earlier than every row
    read.  What it returns is [mapRowToArticle] over these rows: the articles
    of the rows, in that order, when every row is mapped, which is so with a
    driver that hands a JSON column over as text; with a driver that hands it
    over decoded, one row among them whose tags joined by commas are no JSON
    text makes the call throw a [SyntaxError]. *)
Theorem unenhanced_queue_is_oldest_first
  (engine : Engine) (db : Database) (limit : nat) :
  exists rows,
    findUnenhanced engine db limit = (db, mapRows engine rows)
    /\ length rows = Nat.min limit (length (unenhancedRows db))
    /\ Forall (fun r => In r (articles db) /\ is_enhanced r = false) rows
    /\ StronglySorted (fun a b => (created_at a <= created_at b)%N) rows
    /\ (forall r, In r (articles db) -> is_enhanced r = false ->
          In r rows
          \/ forall r', In r' rows -> (created_at r' <= created_at r)%N)
    /\ (forall l, mapRows engine rows = Ok l ->
          Forall2 (fun r a => mapRowToArticle engine r = Ok a) rows l
          /\ length l = length rows
          /\ Forall (fun a => isEnhanced a = false) l
          /\ StronglySorted (fun a b => (createdAt a <= createdAt b)%N) l)
    /\ (jsonStrings engine = true -> Forall tagsWellFormed rows ->
        exists l, mapRows engine rows = Ok l)
    /\ (jsonStrings engine = false ->
        (exists r, In r rows /\ tagsUnreadable r) ->
        exists text,
          mapRows engine rows
          = Throw (SyntaxError (syntaxMessage engine text))).
Proof.
  unfold findUnenhanced.
  set (cmp := fun a b : Row => (Z.of_N (created_at a) - Z.of_N (created_at b))%Z).
  set (rank := fun r : Row => Z.of_N (created_at r)).
  assert (Hc : forall y x, (cmp y x <? 0)%Z = (rank y <? rank x)%Z)
    by (intros y x; apply ascending_rank).
  fold (unenhancedRows db).
  pose proof (sortBy_perm Row cmp (unenhancedRows db)) as Hp.
  pose proof (sortBy_sorted Row cmp rank Hc (unenhancedRows db)) as Hs.
  set (sorted := sortBy cmp (unenhancedRows db)) in *.
  assert (Hrows : Forall (fun r => In r (articles db) /\ is_enhanced r = false)
                    (firstn limit sorted)).
  { apply Forall_forall. intros r Hr. apply In_firstn in Hr.
    apply (Permutation_in _ Hp) in Hr. apply filter_In in Hr.
    destruct Hr as [Hr He]. split; [exact Hr|]. now apply negb_true_iff in He. }
  assert (Hsorted : StronglySorted (fun a b => (created_at a <= created_at b)%N)
                      (firstn limit sorted)).
  { pose proof (sorted_firstn Row rank limit sorted Hs) as H.
    rewrite <- (map_id (firstn limit sorted)).
    apply (StronglySorted_map_weaken Row Row
             (fun a b => (rank a <= rank b)%Z)); [|exact H].
    intros a b Hab. unfold rank in Hab. lia. }
  exists (firstn limit sorted).
  split; [reflexivity|].
  split; [rewrite length_firstn; now rewrite (Permutation_length Hp)|].
  split; [exact Hrows|]. split; [exact Hsorted|].
  split; [|split; [|split]].
  - intros r Hr He.
    assert (Hin : In r sorted).
    { apply (Permutation_in _ (Permutation_sym Hp)). apply filter_In.
      split; [exact Hr|]. now rewrite He. }
    rewrite <- (firstn_skipn limit sorted) in Hin. apply in_app_or in Hin.
    destruct Hin as [Hin|Hin]; [now left|right].
    intros r' Hr'.
    pose proof (sorted_firstn_skipn Row rank limit sorted Hs r' r Hr' Hin) as Hle.
    unfold rank in Hle. lia.
  - intros l Hl. destruct (mapped_rows engine _ l Hl) as (F & L & C & E & _).
    split; [exact F|]. split; [exact L|]. split.
    + apply (Forall2_Forall Row Article
               (fun r a => mapRowToArticle engine r = Ok a)
               (fun r => In r (articles db) /\ is_enhanced r = false)
               (fun a => isEnhanced a = false) (firstn limit sorted) l);
        [|exact F|exact Hrows].
      intros r a H [_ P]. apply mapRowToArticle_fields in H.
      destruct H as (_ & _ & _ & _ & _ & _ & -> & _). exact P.
    + apply (Forall2_sorted Row Article
               (fun r a => mapRowToArticle engine r = Ok a)
               (fun a b => (created_at a <= created_at b)%N)
               (fun a b => (createdAt a <= createdAt b)%N)
               (firstn limit sorted) l); [|exact F|exact Hsorted].
      intros r a r' a' H H' S. apply mapRowToArticle_fields in H, H'.
      destruct H as (_ & _ & _ & _ & _ & _ & _ & _ & _ & -> & _).
      destruct H' as (_ & _ & _ & _ & _ & _ & _ & _ & _ & -> & _). exact S.
  - intros Hj Hw. now apply mapRows_text.
  - intros Hj (r & Hr & items & Hi & Hpar).
    apply (mapRows_throws engine _ r
             (SyntaxError (syntaxMessage engine (toText items))) Hr).
    now rewrite (mapRowToArticle_decoded engine r items Hj Hi), Hpar.
Qed.

(** The stored candidate is the one row of the queue; on the driver of
    [connection.ts] the read of the queue throws. *)
Example queue_of_sample_table :
  (exists a, snd (findUnenhanced Scenario.countingEngine Scenario.storedDb 10)
             = Ok [a] /\ id a = lit "1")
  /\ snd (findUnenhanced Scenario.uuidEngine Scenario.storedDb 10)
     = Throw (SyntaxError "Unexpected token in JSON").
Proof. split; [eexists; split|]; vm_compute; reflexivity. Qed.

(** X10. [findAll] reads the rows in descending order of creation, skips as
    many as the offset says and takes as many as the limit allows: the rows
    of the table are the rows skipped, the rows read and the remaining rows,
    in that order from the newest to the oldest.  What it returns is
    [mapRowToArticle] over the rows read: their articles, in that order, when
    every row is mapped, which is so with a driver that hands a JSON column
    over as text; with a driver that hands it over decoded, one row among
    them whose tags joined by commas are no JSON text makes the call throw a
    [SyntaxError]. *)
Theorem listing_is_newest_first
  (engine : Engine) (db : Database) (limit offset : nat) :
  exists skipped rows rest,
    Permutation (articles db) (skipped ++ rows ++ rest)
    /\ StronglySorted (fun a b => (created_at b <= created_at a)%N)
         (skipped ++ rows ++ rest)
    /\ length skipped = Nat.min offset (length (articles db))
    /\ length rows = Nat.min limit (length (articles db) - offset)
    /\ findAll engine db limit offset = (db, mapRows engine rows)
    /\ (forall l, mapRows engine rows = Ok l ->
          Forall2 (fun r a => mapRowToArticle engine r = Ok a) rows l
          /\ length l = length rows
          /\ StronglySorted (fun a b => (createdAt b <= createdAt a)%N) l)
    /\ (jsonStrings engine = true -> Forall tagsWellFormed rows ->
        exists l, mapRows engine rows = Ok l)
    /\ (jsonStrings engine = false ->
        (exists r, In r rows /\ tagsUnreadable r) ->
        exists text,
          mapRows engine rows
          = Throw (SyntaxError (syntaxMessage engine text))).
Proof.
  unfold findAll.
  set (cmp := fun a b : Row => (Z.of_N (created_at b) - Z.of_N (created_at a))%Z).
  set (rank := fun r : Row => (- Z.of_N (created_at r))%Z).
  assert (Hc : forall y x, (cmp y x <? 0)%Z = (rank y <? rank x)%Z)
    by (intros y x; apply descending_rank).
  pose proof (sortBy_perm Row cmp (articles db)) as Hp.
  pose proof (sortBy_sorted Row cmp rank Hc (articles db)) as Hs.
  set (sorted := sortBy cmp (articles db)) in *.
  assert (Hsplit : firstn offset sorted
                   ++ firstn limit (skipn offset sorted)
                   ++ skipn limit (skipn offset sorted) = sorted)
    by now rewrite !firstn_skipn.
  assert (Hweak : forall l,
            StronglySorted (fun a b => (rank a <= rank b)%Z) l ->
            StronglySorted (fun a b => (created_at b <= created_at a)%N) l).
  { intros l H. rewrite <- (map_id l).
    apply (StronglySorted_map_weaken Row Row
             (fun a b => (rank a <= rank b)%Z)); [|exact H].
    intros a b Hab. unfold rank in Hab. lia. }
  exists (firstn offset sorted), (firstn limit (skipn offset sorted)),
    (skipn limit (skipn offset sorted)).
  rewrite Hsplit.
  split; [now apply Permutation_sym|]. split; [now apply Hweak|].
  split; [rewrite length_firstn; now rewrite (Permutation_length Hp)|].
  split; [rewrite length_firstn, length_skipn;
          now rewrite (Permutation_length Hp)|].
  split; [reflexivity|]. split; [|split].
  - intros l Hl. destruct (mapped_rows engine _ l Hl) as (F & L & _).
    split; [exact F|]. split; [exact L|].
    apply (Forall2_sorted Row Article
             (fun r a => mapRowToArticle engine r = Ok a)
             (fun a b => (created_at b <= created_at a)%N)
             (fun a b => (createdAt b <= createdAt a)%N)
             (firstn limit (skipn offset sorted)) l); [|exact F|].
    + intros r a r' a' H H' S. apply mapRowToArticle_fields in H, H'.
      destruct H as (_ & _ & _ & _ & _ & _ & _ & _ & _ & -> & _).
      destruct H' as (_ & _ & _ & _ & _ & _ & _ & _ & _ & -> & _). exact S.
    + apply Hweak, sorted_firstn, sorted_skipn, Hs.
  - intros Hj Hw. now apply mapRows_text.
  - intros Hj (r & Hr & items & Hi & Hpar).
    apply (mapRows_throws engine _ r
             (SyntaxError (syntaxMessage engine (toText items))) Hr).
    now rewrite (mapRowToArticle_decoded engine r items Hj Hi), Hpar.
Qed.

(** The one stored row is read at offset 0 and skipped at offset 1. *)
Example listing_of_sample_table :
  (exists a, snd (findAll Scenario.countingEngine Scenario.storedDb 10 0)
             = Ok [a] /\ id a = lit "1")
  /\ snd (findAll Scenario.countingEngine Scenario.storedDb 10 1) = Ok []
  /\ snd (findAll Scenario.uuidEngine Scenario.storedDb 10 0)
     = Throw (SyntaxError "Unexpected token in JSON")
  /\ snd (findAll Scenario.uuidEngine Scenario.storedDb 10 1) = Ok [].
Proof. split; [eexists; split|repeat split]; vm_compute; reflexivity. Qed.

(** *** Enhancement *)

Lemma enhanced_rows (engine : Engine) (db : Database) (id : jstring)
  (data : UpdateArticleData) (e : jstring) :
  upd_enhancedContent data = Some e ->
  forall r, In r (articles (fst (update engine db id data))) -> row_id r = id ->
            is_enhanced r = true.
Proof.
  intros He r Hr Hid.
  assert (Hne : updatesOf data <> []).
  { intros H. apply updatesOf_nil in H. destruct H as (_ & _ & H & _). congruence. }
  unfold update in Hr.
  destruct (updatesOf data) as [|x xs] eqn:E; [contradiction|].
  cbn [length Nat.eqb] in Hr. rewrite <- E in Hr.
  cbn [executeUpdate affectedRows] in Hr.
  assert (Hin : In r (map (fun r0 => if hasId id r0
                                     then updated db data r0 else r0)
                        (articles db))).
  { destruct (N.of_nat _ =? 0)%N; exact Hr. }
  apply in_map_iff in Hin. destruct Hin as (r0 & Hr0 & _).
  destruct (hasId id r0) eqn:Eid.
  - subst r.
    destruct (updated_fields db data r0)
      as (_ & _ & _ & _ & _ & _ & _ & _ & _ & _ & F & _).
    cbv zeta in F. rewrite F, He. reflexivity.
  - subst r0. apply jstring_eqb_neq in Eid. contradiction.
Qed.

Lemma update_result (engine : Engine) (db : Database) (id : jstring)
  (data : UpdateArticleData) (a : Article) :
  updatesOf data <> [] ->
  snd (update engine db id data) = Ok (Some a) ->
  exists r, mapRowToArticle engine (updated db data r) = Ok a.
Proof.
  intros Hne H. destruct (find (hasId id) (articles db)) as [r|] eqn:F.
  - destruct (update_found engine db id data r F Hne) as [Hu _].
    rewrite Hu in H. cbn [snd] in H. rewrite firstArticle_one in H.
    exists r. destruct (mapRowToArticle engine (updated db data r));
      [|discriminate].
    now injection H as <-.
  - rewrite (update_unknown engine db id data Hne F) in H. discriminate.
Qed.

(** X11. An update that brings enhanced content marks the article as
    enhanced and takes it out of the queue of [findUnenhanced]: the article
    returned has [isEnhanced] set, its [enhancedContent] is the text given,
    or is absent when that text is empty, and no row with the id is left
    unenhanced. *)
Theorem enhanced_article_leaves_the_queue
  (engine : Engine) (db : Database) (id : jstring) (data : UpdateArticleData)
  (e : jstring) :
  upd_enhancedContent data = Some e ->
  let db' := fst (update engine db id data) in
  (forall a, snd (update engine db id data) = Ok (Some a) ->
     isEnhanced a = true
     /\ enhancedContent a = if truthy e then Some e else None)
  /\ (forall limit l a,
        snd (findUnenhanced engine db' limit) = Ok l -> In a l ->
        Article.id a <> id)
  /\ (forall r, In r (articles db') -> row_id r = id -> is_enhanced r = true).
Proof.
  intros He db'.
  assert (Hne : updatesOf data <> []).
  { intros H. apply updatesOf_nil in H. destruct H as (_ & _ & H & _). congruence. }
  pose proof (enhanced_rows engine db id data e He) as Hrows. fold db' in Hrows.
  split; [|split; [|exact Hrows]].
  - intros a Ha. destruct (update_result engine db id data a Hne Ha) as [r Hr].
    apply mapRowToArticle_fields in Hr.
    destruct Hr as (_ & _ & _ & _ & _ & -> & -> & _).
    destruct (updated_fields db data r)
      as (_ & _ & _ & _ & _ & _ & _ & _ & _ & F1 & F2 & _).
    cbv zeta in F1, F2. rewrite F1, F2, He. split; reflexivity.
  - intros limit l a Hl Ha Hid.
    destruct (findUnenhanced_rows engine db' limit) as (rows & E & Hall).
    rewrite E in Hl. cbn [snd] in Hl. apply mapRows_Forall2 in Hl.
    destruct (Forall2_In_r _ _ _ _ _ _ Hl Ha) as (r & Hr & Hm).
    destruct (Hall r Hr) as [Hin Hen].
    apply mapRowToArticle_fields in Hm. destruct Hm as (Hida & _).
    rewrite Hida in Hid.
    rewrite (Hrows r Hin Hid) in Hen. discriminate.
Qed.

(** The stored candidate is in the queue before its enhancement and out of
    it afterwards. *)
Lemma enhancement_of_sample_article :
  upd_enhancedContent Scenario.enhancement = Some (lit "Chatbots, explained.")
  /\ (exists a,
        snd (findUnenhanced Scenario.countingEngine Scenario.storedDb 10)
        = Ok [a]
        /\ id a = lit "1")
  /\ snd (findUnenhanced Scenario.countingEngine
            (fst (update Scenario.countingEngine Scenario.storedDb (lit "1")
                    Scenario.enhancement)) 10)
     = Ok []
  /\ (forall limit l a,
        snd (findUnenhanced Scenario.countingEngine
               (fst (update Scenario.countingEngine Scenario.storedDb (lit "1")
                       Scenario.enhancement))
               limit) = Ok l ->
        In a l -> id a <> lit "1").
Proof.
  split; [reflexivity|].
  split; [eexists; split; vm_compute; reflexivity|].
  split; [vm_compute; reflexivity|].
  exact (proj1 (proj2
           (enhanced_article_leaves_the_queue Scenario.countingEngine
              Scenario.storedDb (lit "1")
              Scenario.enhancement (lit "Chatbots, explained.") eq_refl))).
Defined.

(** *** delete *)

(** X12. [delete] answers [true] exactly when a row with the id existed,
    that is, unless [findById] answers [null] for it; afterwards no article
    has the id, every other article is found as before, a second [delete]
    answers [false] and changes nothing, and a [delete] that answers [false]
    has left the table as it was; with unique ids a [delete] that answers
    [true] has removed one row. *)
Theorem delete_removes_the_article
  (engine : Engine) (db : Database) (id : jstring) :
  let db' := fst (delete db id) in
  snd (delete db id)
  = Ok (match snd (findById engine db id) with Ok None => false | _ => true end)
  /\ findById engine db' id = (db', Ok None)
  /\ (forall id', id' <> id ->
        snd (findById engine db' id') = snd (findById engine db id'))
  /\ (snd (delete db id) = Ok false -> db' = db)
  /\ delete db' id = (db', Ok false)
  /\ (NoDup (map row_id (articles db)) ->
      snd (delete db id) = Ok true ->
      S (length (articles db')) = length (articles db)).
Proof.
  intros db'. unfold db', delete, executeDelete. cbn [fst snd articles affectedRows].
  repeat split.
  - f_equal. unfold findById. cbn [snd].
    change (fun r : Row => jstring_eqb (row_id r) id) with (hasId id).
    rewrite firstArticle_find.
    destruct (find (hasId id) (articles db)) as [r|] eqn:F.
    + assert (Hlt : (0 <? N.of_nat (length (filter (hasId id) (articles db))))%N
                    = true).
      { apply N.ltb_lt.
        destruct (length (filter (hasId id) (articles db))) eqn:L; [|lia].
        apply filter_nil_find in L. congruence. }
      rewrite Hlt. now destruct (mapRowToArticle engine r).
    + rewrite (proj2 (filter_nil_find _ _ _) F). reflexivity.
  - unfold findById. cbn [articles]. f_equal.
    change (fun r : Row => jstring_eqb (row_id r) id) with (hasId id).
    apply firstArticle_absent, find_filter_same.
  - intros id' Hne. unfold findById. cbn [snd articles].
    change (fun r : Row => jstring_eqb (row_id r) id') with (hasId id').
    rewrite !firstArticle_find, find_filter_other; [reflexivity|].
    intros r Hr. apply jstring_eqb_eq in Hr. apply jstring_eqb_neq. congruence.
  - intros H. injection H as H. apply N.ltb_ge in H.
    assert (L : length (filter (hasId id) (articles db)) = 0) by lia.
    apply filter_nil_find in L. rewrite (filter_none _ _ _ L). apply database_eta.
  - f_equal.
    + f_equal. apply filter_none, find_filter_same.
    + f_equal.
      assert (L : find (hasId id) (filter (fun r => negb (hasId id r)) (articles db))
                  = None) by apply find_filter_same.
      rewrite (proj2 (filter_nil_find _ _ _) L). reflexivity.
  - intros Hnd H. injection H as H. apply N.ltb_lt in H.
    pose proof (filter_split_length _ (hasId id) (articles db)) as Hs.
    assert (L : length (filter (hasId id) (articles db)) <= 1).
    { clear H Hs. induction (articles db) as [|r l IH]; simpl; [lia|].
      inversion Hnd as [|? ? Hn Hd]; subst. destruct (hasId id r) eqn:E; simpl.
      - assert (L0 : length (filter (hasId id) l) = 0).
        { apply filter_nil_find. apply find_none_iff. intros x Hx.
          apply jstring_eqb_neq. intros Hxe. apply Hn.
          apply jstring_eqb_eq in E. rewrite E, <- Hxe. now apply in_map. }
        lia.
      - apply IH, Hd. }
    lia.
Qed.

Example delete_of_sample_article :
  delete Scenario.storedDb (lit "1")
  = ({| articles := []; clock := 0 |}, Ok true)
  /\ snd (delete Scenario.storedDb (lit "2")) = Ok false.
Proof. vm_compute. auto. Qed.

(** *** Re-runs *)

Section Rerun.
Variable engine : Engine.
Variable db : Database.

Lemma script_skips_read (candidates : list CreateArticleData) :
  Forall (fun c => exists a, readAs engine db c (Ok a)) candidates ->
  forall t,
    ScrapeArticlesScript.store t = db ->
    let t' :=
      fold_left (ScrapeArticlesScript.storeOne (Scenario.repository engine))
        candidates t in
    ScrapeArticlesScript.store t' = db
    /\ ScrapeArticlesScript.counts t'
       = {| ScrapeArticlesScript.savedCount :=
              ScrapeArticlesScript.savedCount (ScrapeArticlesScript.counts t);
            ScrapeArticlesScript.skippedCount :=
              ScrapeArticlesScript.skippedCount (ScrapeArticlesScript.counts t)
              + N.of_nat (length candidates);
            ScrapeArticlesScript.errorCount :=
              ScrapeArticlesScript.errorCount (ScrapeArticlesScript.counts t) |}.
Proof.
  induction 1 as [|c l Hc Hl IH]; intros t Ht.
  - cbn. split; [exact Ht|]. rewrite N.add_0_r.
    destruct (ScrapeArticlesScript.counts t). reflexivity.
  - cbn [fold_left]. destruct Hc as (a & r & Hr & Hm).
    assert (Hone : ScrapeArticlesScript.storeOne (Scenario.repository engine) t c
                   = {| ScrapeArticlesScript.store := db;
                        ScrapeArticlesScript.counts :=
                          ScrapeArticlesScript.bump_skipped
                            (ScrapeArticlesScript.counts t);
                        ScrapeArticlesScript.log :=
                          ScrapeArticlesScript.log t
                          ++ [ArticleAlreadyExists (new_title c)] |}).
    { unfold ScrapeArticlesScript.storeOne.
      cbn [Scenario.repository repo_findByUrl].
      rewrite Ht, (findByUrl_row engine db c r Hr), firstArticle_one, Hm.
      reflexivity. }
    rewrite Hone. cbv zeta in *.
    match goal with |- context [fold_left _ l ?t0] =>
      destruct (IH t0 eq_refl) as [Hs Hcnt] end.
    split; [exact Hs|]. rewrite Hcnt. cbn. f_equal. lia.
Qed.

Lemma script_counts_unread (candidates : list CreateArticleData) :
  Forall (fun c => exists e, readAs engine db c (Throw e)) candidates ->
  forall t,
    ScrapeArticlesScript.store t = db ->
    let t' :=
      fold_left (ScrapeArticlesScript.storeOne (Scenario.repository engine))
        candidates t in
    ScrapeArticlesScript.store t' = db
    /\ ScrapeArticlesScript.counts t'
       = {| ScrapeArticlesScript.savedCount :=
              ScrapeArticlesScript.savedCount (ScrapeArticlesScript.counts t);
            ScrapeArticlesScript.skippedCount :=
              ScrapeArticlesScript.skippedCount (ScrapeArticlesScript.counts t);
            ScrapeArticlesScript.errorCount :=
              ScrapeArticlesScript.errorCount (ScrapeArticlesScript.counts t)
              + N.of_nat (length candidates) |}.
Proof.
  induction 1 as [|c l Hc Hl IH]; intros t Ht.
  - cbn. split; [exact Ht|]. rewrite N.add_0_r.
    destruct (ScrapeArticlesScript.counts t). reflexivity.
  - cbn [fold_left]. destruct Hc as (e & r & Hr & Hm).
    assert (Hone : ScrapeArticlesScript.storeOne (Scenario.repository engine) t c
                   = {| ScrapeArticlesScript.store := db;
                        ScrapeArticlesScript.counts :=
                          ScrapeArticlesScript.bump_error
                            (ScrapeArticlesScript.counts t);
                        ScrapeArticlesScript.log :=
                          ScrapeArticlesScript.log t
                          ++ [ErrorSavingArticle (new_title c) e] |}).
    { unfold ScrapeArticlesScript.storeOne.
      cbn [Scenario.repository repo_findByUrl].
      rewrite Ht, (findByUrl_row engine db c r Hr), firstArticle_one, Hm.
      reflexivity. }
    rewrite Hone. cbv zeta in *.
    match goal with |- context [fold_left _ l ?t0] =>
      destruct (IH t0 eq_refl) as [Hs Hcnt] end.
    split; [exact Hs|]. rewrite Hcnt. cbn. f_equal. lia.
Qed.

Lemma controller_keeps_read (candidates : list CreateArticleData) :
  Forall (fun c => exists a, readAs engine db c (Ok a)) candidates ->
  forall t,
    ScraperController.store t = db ->
    let t' :=
      fold_left (ScraperController.storeOne (Scenario.repository engine))
        candidates t in
    ScraperController.store t' = db
    /\ ScraperController.errorList t' = ScraperController.errorList t
    /\ exists found,
         ScraperController.savedArticles t'
         = ScraperController.savedArticles t ++ found
         /\ map url found = map new_url candidates.
Proof.
  induction 1 as [|c l Hc Hl IH]; intros t Ht.
  - cbn. repeat split; [exact Ht|]. exists []. now rewrite app_nil_r.
  - cbn [fold_left]. destruct Hc as (a & r & Hr & Hm).
    assert (Hu : url a = new_url c).
    { apply mapRowToArticle_fields in Hm as F.
      destruct F as (_ & _ & _ & -> & _).
      apply find_some in Hr. destruct Hr as [_ Hr]. now apply jstring_eqb_eq in Hr. }
    assert (Hone : ScraperController.storeOne (Scenario.repository engine) t c
                   = {| ScraperController.store := db;
                        ScraperController.savedArticles :=
                          ScraperController.savedArticles t ++ [a];
                        ScraperController.errorList := ScraperController.errorList t;
                        ScraperController.log :=
                          ScraperController.log t
                          ++ [ArticleAlreadyExists (new_url c)] |}).
    { unfold ScraperController.storeOne.
      cbn [Scenario.repository repo_findByUrl].
      rewrite Ht, (findByUrl_row engine db c r Hr), firstArticle_one, Hm.
      reflexivity. }
    rewrite Hone. cbv zeta in *.
    match goal with |- context [fold_left _ l ?t0] =>
      destruct (IH t0 eq_refl) as (Hs & He & found & Hsv & Hmap) end.
    repeat split; [exact Hs|exact He|].
    exists (a :: found). split.
    + rewrite Hsv. cbn. now rewrite <- app_assoc.
    + cbn. now rewrite Hu, Hmap.
Qed.

Lemma controller_lists_unread (candidates : list CreateArticleData) :
  Forall (fun c => exists e, readAs engine db c (Throw e)) candidates ->
  forall t,
    ScraperController.store t = db ->
    let t' :=
      fold_left (ScraperController.storeOne (Scenario.repository engine))
        candidates t in
    ScraperController.store t' = db
    /\ ScraperController.savedArticles t' = ScraperController.savedArticles t
    /\ exists listed,
         ScraperController.errorList t'
         = ScraperController.errorList t ++ listed
         /\ map ScraperController.err_url listed = map new_url candidates.
Proof.
  induction 1 as [|c l Hc Hl IH]; intros t Ht.
  - cbn. repeat split; [exact Ht|]. exists []. now rewrite app_nil_r.
  - cbn [fold_left]. destruct Hc as (e & r & Hr & Hm).
    assert (Hone : ScraperController.storeOne (Scenario.repository engine) t c
                   = ScraperController.recordError t db c e).
    { unfold ScraperController.storeOne.
      cbn [Scenario.repository repo_findByUrl].
      rewrite Ht, (findByUrl_row engine db c r Hr), firstArticle_one, Hm.
      reflexivity. }
    rewrite Hone. cbv zeta in *.
    match goal with |- context [fold_left _ l ?t0] =>
      destruct (IH t0 eq_refl) as (Hs & Hsv & listed & He & Hmap) end.
    repeat split; [exact Hs|exact Hsv|].
    eexists. split.
    + rewrite He. cbn [ScraperController.recordError
                       ScraperController.errorList].
      rewrite <- app_assoc. reflexivity.
    + cbn. now rewrite Hmap.
Qed.

(** A candidate whose URL is in the table is not written again, whatever
    the read of its row gives. *)
Lemma script_keeps_table (candidates : list CreateArticleData) :
  Forall (fun c => exists r, rowOfUrl db c = Some r) candidates ->
  forall t,
    ScrapeArticlesScript.store t = db ->
    ScrapeArticlesScript.store
      (fold_left (ScrapeArticlesScript.storeOne (Scenario.repository engine))
         candidates t) = db
    /\ forall u, ScraperController.store u = db ->
         ScraperController.store
           (fold_left (ScraperController.storeOne (Scenario.repository engine))
              candidates u) = db.
Proof.
  induction 1 as [|c l (r & Hr) Hl IH]; intros t Ht; [now split|].
  cbn [fold_left]. split.
  - apply IH. unfold ScrapeArticlesScript.storeOne.
    cbn [Scenario.repository repo_findByUrl].
    rewrite Ht, (findByUrl_row engine db c r Hr), firstArticle_one.
    now destruct (mapRowToArticle engine r).
  - intros u Hu. apply (proj2 (IH t Ht)).
    unfold ScraperController.storeOne.
    cbn [Scenario.repository repo_findByUrl].
    rewrite Hu, (findByUrl_row engine db c r Hr), firstArticle_one.
    now destruct (mapRowToArticle engine r).
Qed.

End Rerun.

(** How the row of a candidate is read on either kind of driver. *)
Lemma read_as_text (engine : Engine) (db : Database) (c : CreateArticleData) :
  jsonStrings engine = true ->
  (exists r, rowOfUrl db c = Some r /\ tagsWellFormed r) ->
  exists a, readAs engine db c (Ok a).
Proof.
  intros Hj (r & Hr & Hw). eexists. exists r. split; [exact Hr|].
  exact (mapRowToArticle_text engine r Hj Hw).
Qed.

Lemma read_decoded (engine : Engine) (db : Database) (c : CreateArticleData) :
  jsonStrings engine = false ->
  (exists r, rowOfUrl db c = Some r /\ tagsUnreadable r) ->
  exists e, readAs engine db c (Throw e).
Proof.
  intros Hj (r & Hr & Hu).
  destruct (mapRowToArticle_unreadable engine r Hj Hu) as [text Hm].
  eexists. exists r. split; [exact Hr|exact Hm].
Qed.

(** X13. Candidates whose URLs are in the table already are never written
    again, by either storing loop, and how they are counted depends on the
    read of their rows.  When
    [findByUrl] returns the stored articles, which is so with a driver that
    hands a JSON column over as text, the storing loop of the script skips
    every one of them (nothing saved, no error) and the loop of the
    controller lists the stored articles and no error.  When [findByUrl]
    throws on the stored rows, which is so with a driver that hands the
    column over decoded and tags that are no JSON text when joined by commas,
    the script counts every one of them as an error and the controller lists
    one error for each and no article.  Both loops leave the table as it was
    in both cases. *)
Theorem stored_candidates_are_skipped
  (engine : Engine) (db : Database) (candidates : list CreateArticleData) :
  let script :=
    ScrapeArticlesScript.storeAll (Scenario.repository engine) db candidates in
  let controller :=
    ScraperController.storeAll (Scenario.repository engine) db candidates in
  (Forall (fun c => exists r, rowOfUrl db c = Some r) candidates ->
   ScrapeArticlesScript.store script = db
   /\ ScraperController.store controller = db)
  /\
  (Forall (fun c => exists a, readAs engine db c (Ok a)) candidates ->
   ScrapeArticlesScript.store script = db
   /\ ScrapeArticlesScript.counts script
      = {| ScrapeArticlesScript.savedCount := 0;
           ScrapeArticlesScript.skippedCount := N.of_nat (length candidates);
           ScrapeArticlesScript.errorCount := 0 |}
   /\ ScraperController.store controller = db
   /\ ScraperController.errorList controller = []
   /\ map url (ScraperController.savedArticles controller)
      = map new_url candidates)
  /\ (Forall (fun c => exists e, readAs engine db c (Throw e)) candidates ->
      ScrapeArticlesScript.store script = db
      /\ ScrapeArticlesScript.counts script
         = {| ScrapeArticlesScript.savedCount := 0;
              ScrapeArticlesScript.skippedCount := 0;
              ScrapeArticlesScript.errorCount := N.of_nat (length candidates) |}
      /\ ScraperController.store controller = db
      /\ ScraperController.savedArticles controller = []
      /\ map ScraperController.err_url (ScraperController.errorList controller)
         = map new_url candidates)
  /\ (jsonStrings engine = true ->
      Forall (fun c => exists r, rowOfUrl db c = Some r /\ tagsWellFormed r)
        candidates ->
      Forall (fun c => exists a, readAs engine db c (Ok a)) candidates)
  /\ (jsonStrings engine = false ->
      Forall (fun c => exists r, rowOfUrl db c = Some r /\ tagsUnreadable r)
        candidates ->
      Forall (fun c => exists e, readAs engine db c (Throw e)) candidates).
Proof.
  cbv zeta.
  unfold ScrapeArticlesScript.storeAll, ScraperController.storeAll.
  split; [|split; [|split; [|split]]].
  - intros H.
    destruct (script_keeps_table engine db candidates H
                {| ScrapeArticlesScript.store := db;
                   ScrapeArticlesScript.counts :=
                     {| ScrapeArticlesScript.savedCount := 0;
                        ScrapeArticlesScript.skippedCount := 0;
                        ScrapeArticlesScript.errorCount := 0 |};
                   ScrapeArticlesScript.log := [] |} eq_refl) as [S1 C1].
    split; [exact S1|]. now apply C1.
  - intros H.
    destruct (script_skips_read engine db candidates H
                {| ScrapeArticlesScript.store := db;
                   ScrapeArticlesScript.counts :=
                     {| ScrapeArticlesScript.savedCount := 0;
                        ScrapeArticlesScript.skippedCount := 0;
                        ScrapeArticlesScript.errorCount := 0 |};
                   ScrapeArticlesScript.log := [] |} eq_refl) as [S1 S2].
    destruct (controller_keeps_read engine db candidates H
                {| ScraperController.store := db;
                   ScraperController.savedArticles := [];
                   ScraperController.errorList := [];
                   ScraperController.log := [] |} eq_refl)
      as (C1 & C2 & found & C3 & C4).
    cbv zeta in *. repeat split; try assumption.
    rewrite C3. exact C4.
  - intros H.
    destruct (script_counts_unread engine db candidates H
                {| ScrapeArticlesScript.store := db;
                   ScrapeArticlesScript.counts :=
                     {| ScrapeArticlesScript.savedCount := 0;
                        ScrapeArticlesScript.skippedCount := 0;
                        ScrapeArticlesScript.errorCount := 0 |};
                   ScrapeArticlesScript.log := [] |} eq_refl) as [S1 S2].
    destruct (controller_lists_unread engine db candidates H
                {| ScraperController.store := db;
                   ScraperController.savedArticles := [];
                   ScraperController.errorList := [];
                   ScraperController.log := [] |} eq_refl)
      as (C1 & C2 & listed & C3 & C4).
    cbv zeta in *. repeat split; try assumption.
    rewrite C3. exact C4.
  - intros Hj. apply Forall_impl. intros c. now apply read_as_text.
  - intros Hj. apply Forall_impl. intros c. now apply read_decoded.
Qed.

(** The stored candidate, scraped twice more: skipped twice when its row is
    read, two errors on the driver of [connection.ts]. *)
Example rerun_over_stored_candidate :
  ScrapeArticlesScript.counts
    (ScrapeArticlesScript.storeAll
       (Scenario.repository Scenario.countingEngine) Scenario.storedDb
       [Scenario.candidate; Scenario.candidate])
  = {| ScrapeArticlesScript.savedCount := 0;
       ScrapeArticlesScript.skippedCount := 2;
       ScrapeArticlesScript.errorCount := 0 |}
  /\ ScrapeArticlesScript.counts
       (ScrapeArticlesScript.storeAll
          (Scenario.repository Scenario.uuidEngine) Scenario.storedDb
          [Scenario.candidate; Scenario.candidate])
     = {| ScrapeArticlesScript.savedCount := 0;
          ScrapeArticlesScript.skippedCount := 0;
          ScrapeArticlesScript.errorCount := 2 |}.
Proof. split; vm_compute; reflexivity. Qed.

(** *** A first run on the table of the schema *)










End RepositoryProperties.

Module ControllerProperties.
Import RegExp Article JSON WebScraperService ArticleRepository Orchestration Spec.
Import LinkFacts ExtractionFacts RepositoryFacts OrchestrationFacts.
Import RepositoryProperties.

Lemma scrapeArticleContent_browser (ext : Externals) (world : World)
  (st : Service) (u : jstring) :
  browser (fst (scrapeArticleContent ext world st u))
  = browser st || launches world.
Proof.
  unfold scrapeArticleContent, initBrowser.
  destruct st as [[|]]; cbn [browser orb].
  - destruct (opens (tab world u)); [|reflexivity].
    now destruct (closes (tab world u)).
  - destruct (launches world); [|reflexivity].
    destruct (opens (tab world u)); [|reflexivity].
    now destruct (closes (tab world u)).
Qed.

Lemma scrapeArticleContent_pair (ext : Externals) (world : World)
  (st : Service) (u : jstring) :
  scrapeArticle ext world st u
  = (fst (scrapeArticleContent ext world st u),
     snd (scrapeArticleContent ext world st u)).
Proof.
  unfold scrapeArticle. now destruct (scrapeArticleContent ext world st u).
Qed.

Lemma scraped_with_browser (ext : Externals) (world : World) (st : Service)
  (u : jstring) (c : CreateArticleData) :
  snd (scrapeArticleContent ext world st u) = Ok (Some c) ->
  browser (fst (scrapeArticleContent ext world st u)) = true.
Proof.
  rewrite scrapeArticleContent_browser.
  unfold scrapeArticleContent, initBrowser.
  destruct (browser st); [reflexivity|].
  destruct (launches world); [reflexivity|discriminate].
Qed.

Section SingleArticle.
Variable ext : Externals.
Variable world : World.
Variable Store : Type.
Variable repo : Repository Store.
Variable parsesAsUrl : jstring -> bool.

(** X14. The single-article handler answers 404 with the browser left as the
    scrape left it: for a well-formed URL that is not stored, when the scrape
    yields nothing (also when the browser could not be launched, which is
    answered 404 and not 500) the response is 404, the store is what the
    lookup returned, and the browser runs if it ran before or was launched
    for this request; [closeBrowser] is not called. *)
Theorem single_article_404_leaves_browser_running
  (st : Service) (s s1 : Store) (u : jstring) :
  u <> [] ->
  parsesAsUrl u = true ->
  repo_findByUrl repo s u = (s1, Ok None) ->
  snd (scrapeArticleContent ext world st u) = Ok None ->
  let h :=
    ScraperController.scrapeSingleArticle ext world repo parsesAsUrl st s
      (Some u) in
  ScraperController.art_status (ScraperController.answer h) = 404%N
  /\ ScraperController.articles_after h = s1
  /\ ScraperController.browser_after h
     = fst (scrapeArticleContent ext world st u)
  /\ browser (ScraperController.browser_after h) = browser st || launches world.
Proof.
  intros Hne Hp Hf Hn h. unfold h, ScraperController.scrapeSingleArticle.
  destruct u as [|c u]; [contradiction|]. cbn [truthy negb].
  rewrite Hp. cbn [negb]. rewrite Hf, scrapeArticleContent_pair, Hn.
  cbn [ScraperController.art_status ScraperController.answer
       ScraperController.articles_after ScraperController.browser_after].
  repeat split. apply scrapeArticleContent_browser.
Qed.

(** X15. The exits of the single-article handler: the status is one of 200,
    201, 400, 404 and 500; on 201 the browser is closed; on 500
    [closeBrowser] has been called, and the browser is still held only when
    [browser.close()] rejects, which the handler logs and does not report; on
    200 and on 400 the browser is left untouched; the status is 400 exactly
    when the URL is missing, is not a string, is empty or does not parse, and
    then the store is not touched either.  A [browser.close()] that rejects
    after the article has been saved turns the answer into 500, with the
    article stored and the browser held. *)
Theorem single_article_exits (st : Service) (s : Store) (url : option jstring) :
  let h :=
    ScraperController.scrapeSingleArticle ext world repo parsesAsUrl st s url in
  let status := ScraperController.art_status (ScraperController.answer h) in
  In status [200; 201; 400; 404; 500]%N
  /\ (status = 201%N -> browser (ScraperController.browser_after h) = false)
  /\ (status = 500%N ->
      exists st', ScraperController.browser_after h
                 = fst (closeBrowser world st')
                 /\ browser (ScraperController.browser_after h)
                    = browser st' && negb (closesBrowser world))
  /\ (status = 200%N \/ status = 400%N -> ScraperController.browser_after h = st)
  /\ (status = 400%N <->
      url = None \/ url = Some []
      \/ exists u, url = Some u /\ parsesAsUrl u = false)
  /\ (status = 400%N -> ScraperController.articles_after h = s)
  /\ (forall u s1 c s2 a,
        url = Some u -> u <> [] -> parsesAsUrl u = true ->
        repo_findByUrl repo s u = (s1, Ok None) ->
        snd (scrapeArticleContent ext world st u) = Ok (Some c) ->
        repo_create repo s1 c = (s2, Ok a) ->
        closesBrowser world = false ->
        status = 500%N
        /\ ScraperController.articles_after h = s2
        /\ browser (ScraperController.browser_after h) = true).
Proof.
  cbv zeta.
  assert (Hfailed : forall st',
            exists st0, fst (closeBrowser world st') = fst (closeBrowser world st0)
                        /\ browser (fst (closeBrowser world st'))
                           = browser st0 && negb (closesBrowser world)).
  { intros st'. exists st'. split; [reflexivity|apply closeBrowser_state]. }
  split; [|split; [|split; [|split; [|split; [|split]]]]].
  - unfold ScraperController.scrapeSingleArticle.
    destruct url as [[|c u]|]; cbn [truthy negb]; [cbn; tauto| |cbn; tauto].
    destruct (parsesAsUrl (c :: u)); cbn [negb]; [|cbn; tauto].
    destruct (repo_findByUrl repo s (c :: u)) as [s1 [[existing|]|e]];
      [cbn; tauto| |cbn; tauto].
    destruct (scrapeArticle ext world st (c :: u)) as [st1 [[sc|]|e]];
      [|cbn; tauto|cbn; tauto].
    destruct (repo_create repo s1 sc) as [s2 [saved|e]]; [|cbn; tauto].
    destruct (closeBrowser world st1) as [st2 [[]|e]]; cbn; tauto.
  - unfold ScraperController.scrapeSingleArticle.
    destruct url as [[|c u]|]; cbn [truthy negb]; [discriminate| |discriminate].
    destruct (parsesAsUrl (c :: u)); cbn [negb]; [|discriminate].
    destruct (repo_findByUrl repo s (c :: u)) as [s1 [[existing|]|e]];
      [discriminate| |discriminate].
    destruct (scrapeArticle ext world st (c :: u)) as [st1 [[sc|]|e]];
      [|discriminate|discriminate].
    destruct (repo_create repo s1 sc) as [s2 [saved|e]]; [|discriminate].
    destruct (closeBrowser world st1) as [st2 [[]|e]] eqn:Ec; [|discriminate].
    intros _. exact (closeBrowser_closed world st1 st2 Ec).
  - unfold ScraperController.scrapeSingleArticle.
    destruct url as [[|c u]|]; cbn [truthy negb]; [discriminate| |discriminate].
    destruct (parsesAsUrl (c :: u)); cbn [negb]; [|discriminate].
    destruct (repo_findByUrl repo s (c :: u)) as [s1 [[existing|]|e]];
      [discriminate| |intros _; apply Hfailed].
    destruct (scrapeArticle ext world st (c :: u)) as [st1 [[sc|]|e]];
      [|discriminate|intros _; apply Hfailed].
    destruct (repo_create repo s1 sc) as [s2 [saved|e]];
      [|intros _; apply Hfailed].
    destruct (closeBrowser world st1) as [st2 [[]|e]];
      [discriminate|intros _; apply Hfailed].
  - unfold ScraperController.scrapeSingleArticle.
    destruct url as [[|c u]|]; cbn [truthy negb]; [reflexivity| |reflexivity].
    destruct (parsesAsUrl (c :: u)); cbn [negb]; [|reflexivity].
    destruct (repo_findByUrl repo s (c :: u)) as [s1 [[existing|]|e]];
      [reflexivity| |intros [H|H]; discriminate H].
    destruct (scrapeArticle ext world st (c :: u)) as [st1 [[sc|]|e]];
      [|intros [H|H]; discriminate H|intros [H|H]; discriminate H].
    destruct (repo_create repo s1 sc) as [s2 [saved|e]];
      [|intros [H|H]; discriminate H].
    destruct (closeBrowser world st1) as [st2 [[]|e]];
      intros [H|H]; discriminate H.
  - unfold ScraperController.scrapeSingleArticle.
    destruct url as [[|c u]|]; cbn [truthy negb]; [cbn; tauto| |cbn; tauto].
    destruct (parsesAsUrl (c :: u)) eqn:Hp; cbn [negb].
    + assert (Hno : ~ (Some (c :: u) = None \/ Some (c :: u) = Some []
                       \/ exists u0, Some (c :: u) = Some u0
                                     /\ parsesAsUrl u0 = false)).
      { intros [H|[H|(u0 & H & Hu0)]]; try discriminate H.
        injection H as <-. congruence. }
      destruct (repo_findByUrl repo s (c :: u)) as [s1 [[existing|]|e]];
        [split; [discriminate|intros H; destruct (Hno H)]|
        |split; [discriminate|intros H; destruct (Hno H)]].
      destruct (scrapeArticle ext world st (c :: u)) as [st1 [[sc|]|e]];
        [|split; [discriminate|intros H; destruct (Hno H)]
         |split; [discriminate|intros H; destruct (Hno H)]].
      destruct (repo_create repo s1 sc) as [s2 [saved|e]];
        [|split; [discriminate|intros H; destruct (Hno H)]].
      destruct (closeBrowser world st1) as [st2 [[]|e]];
        (split; [discriminate|intros H; destruct (Hno H)]).
    + split; [|reflexivity]. intros _. right. right. now exists (c :: u).
  - unfold ScraperController.scrapeSingleArticle.
    destruct url as [[|c u]|]; cbn [truthy negb]; [reflexivity| |reflexivity].
    destruct (parsesAsUrl (c :: u)); cbn [negb]; [|reflexivity].
    destruct (repo_findByUrl repo s (c :: u)) as [s1 [[existing|]|e]];
      [discriminate| |discriminate].
    destruct (scrapeArticle ext world st (c :: u)) as [st1 [[sc|]|e]];
      [|discriminate|discriminate].
    destruct (repo_create repo s1 sc) as [s2 [saved|e]]; [|discriminate].
    destruct (closeBrowser world st1) as [st2 [[]|e]]; discriminate.
  - intros u s1 c s2 a -> Hne Hp Hf Hc Hcr Hcl.
    pose proof (scraped_with_browser ext world st u c Hc) as Hb.
    unfold ScraperController.scrapeSingleArticle.
    destruct u as [|x u]; [contradiction|]. cbn [truthy negb].
    rewrite Hp. cbn [negb]. rewrite Hf, scrapeArticleContent_pair, Hc, Hcr.
    unfold closeBrowser. rewrite Hb, Hcl.
    cbn [ScraperController.art_status ScraperController.answer
         ScraperController.articles_after ScraperController.browser_after fst].
    rewrite ?Hb, ?Hcl. auto.
Qed.

End SingleArticle.

(** The draft page of the scenarios has a body of five characters: the
    request is answered 404 and the browser launched for it keeps running. *)
Lemma single_request_for_draft_page :
  Scenario.draftUrl <> []
  /\ isAbsoluteUrl Scenario.draftUrl = true
  /\ repo_findByUrl (Scenario.repository Scenario.countingEngine)
       Scenario.emptyDb Scenario.draftUrl = (Scenario.emptyDb, Ok None)
  /\ snd (scrapeArticleContent Scenario.externals Scenario.drafts Scenario.idle
            Scenario.draftUrl) = Ok None
  /\ ScraperController.art_status
       (ScraperController.answer
          (ScraperController.scrapeSingleArticle Scenario.externals
             Scenario.drafts (Scenario.repository Scenario.countingEngine)
             isAbsoluteUrl Scenario.idle Scenario.emptyDb
             (Some Scenario.draftUrl))) = 404%N
  /\ browser
       (ScraperController.browser_after
          (ScraperController.scrapeSingleArticle Scenario.externals
             Scenario.drafts (Scenario.repository Scenario.countingEngine)
             isAbsoluteUrl Scenario.idle Scenario.emptyDb
             (Some Scenario.draftUrl))) = true.
Proof.
  assert (H1 : Scenario.draftUrl <> []) by discriminate.
  assert (H2 : isAbsoluteUrl Scenario.draftUrl = true) by (vm_compute; reflexivity).
  assert (H3 : repo_findByUrl (Scenario.repository Scenario.countingEngine)
                 Scenario.emptyDb Scenario.draftUrl = (Scenario.emptyDb, Ok None))
    by reflexivity.
  assert (H4 : snd (scrapeArticleContent Scenario.externals Scenario.drafts
                      Scenario.idle Scenario.draftUrl) = Ok None)
    by (vm_compute; reflexivity).
  repeat (split; [assumption|]).
  destruct (single_article_404_leaves_browser_running Scenario.externals
              Scenario.drafts Database
              (Scenario.repository Scenario.countingEngine) isAbsoluteUrl
              Scenario.idle Scenario.emptyDb Scenario.emptyDb Scenario.draftUrl
              H1 H2 H3 H4) as (S1 & _ & _ & S2).
  split; [exact S1|]. rewrite S2. reflexivity.
Defined.



(** On the table of the schema with the driver of [connection.ts] both
    requests are answered 500, and the row is stored by the first. *)
Example repeated_request_on_the_uuid_table :
  let handle :=
    ScraperController.scrapeSingleArticle Scenario.externals Scenario.blog
      (Scenario.repository Scenario.uuidEngine) isAbsoluteUrl in
  let first := handle Scenario.idle Scenario.emptyDb
                 (Some Scenario.firstPostUrl) in
  let second :=
    handle (ScraperController.browser_after first)
      (ScraperController.articles_after first)
      (Some Scenario.firstPostUrl) in
  ScraperController.art_error (ScraperController.answer first)
  = Some "Failed to create article - no ID returned"%string
  /\ length (articles (ScraperController.articles_after first)) = 1
  /\ ScraperController.art_status (ScraperController.answer second) = 500%N
  /\ length (articles (ScraperController.articles_after second)) = 1.
Proof. vm_compute. repeat split. Qed.

End ControllerProperties.

Module ServiceProperties.
Import RegExp Article WebScraperService Spec.
Import StringFacts RegExpFacts CleaningFacts SanitizeFacts WordFacts LinkFacts
  ExtractionFacts OrchestrationFacts.

(** *** checkRobotsTxt *)

Lemma startsWith_iff (s p : jstring) :
  startsWith s p = true <-> exists b, s = p ++ b.
Proof.
  revert s. induction p as [|a p IH]; intros s; simpl.
  - split; [intros _; now exists s|intros _; destruct s; reflexivity].
  - destruct s as [|c s]; simpl.
    + split; [discriminate|intros [b H]; discriminate H].
    + rewrite andb_true_iff, N.eqb_eq, IH. split.
      * intros [-> [b ->]]. now exists b.
      * intros [b H]. injection H as -> ->. split; [reflexivity|now exists b].
Qed.

Lemma includes_iff (s p : jstring) :
  includes s p = true <-> exists a b, s = a ++ p ++ b.
Proof.
  induction s as [|c s IH].
  - cbn [includes]. rewrite orb_false_r, startsWith_iff. split.
    + intros [b H]. now exists [], b.
    + intros (a & b & H). destruct a; [now exists b|discriminate H].
  - cbn [includes]. rewrite orb_true_iff, startsWith_iff, IH. split.
    + intros [[b H]|(a & b & H)]; [now exists [], b|].
      exists (c :: a), b. now rewrite H.
    + intros (a & b & H). destruct a as [|x a]; [left; now exists b|right].
      injection H as _ H. now exists a, b.
Qed.

Lemma checkRobotsTxt_false (ext : Externals) (httpGet : jstring -> option jstring)
  (site : jstring) :
  checkRobotsTxt ext httpGet site = false <->
  exists robotsUrl data,
    resolveUrl ext (lit "/robots.txt") site = Some robotsUrl
    /\ httpGet robotsUrl = Some data
    /\ (exists a b, toLowerCase ext data = a ++ lit "user-agent: *" ++ b)
    /\ (exists a b, toLowerCase ext data = a ++ lit "disallow: /" ++ b).
Proof.
  unfold checkRobotsTxt.
  destruct (resolveUrl ext (lit "/robots.txt") site) as [u|].
  - destruct (httpGet u) as [d|] eqn:Hget.
    + cbv zeta.
      destruct (includes (toLowerCase ext d) (lit "user-agent: *")) eqn:Ea;
        [destruct (includes (toLowerCase ext d) (lit "disallow: /")) eqn:Eb|];
        cbn [andb]; split; try discriminate.
      * intros _. exists u, d.
        repeat split; try apply includes_iff; assumption.
      * reflexivity.
      * intros (u' & d' & Hu & Hd & _ & Hb). injection Hu as <-.
        rewrite Hget in Hd. injection Hd as <-.
        apply (proj2 (includes_iff _ _)) in Hb. congruence.
      * intros (u' & d' & Hu & Hd & Ha & _). injection Hu as <-.
        rewrite Hget in Hd. injection Hd as <-.
        apply (proj2 (includes_iff _ _)) in Ha. congruence.
    + split; [discriminate|]. intros (u' & d' & Hu & Hd & _).
      injection Hu as <-. rewrite Hget in Hd. discriminate.
  - split; [discriminate|]. intros (u' & d' & Hu & _). discriminate.
Qed.

(** X17. [checkRobotsTxt] forbids scraping exactly when the robots file
    could be fetched and its lower-cased text holds both 'user-agent: *' and
    'disallow: /' somewhere: a failed fetch allows scraping, and a [Disallow]
    rule for any path, in any section of the file, counts as a rule for the
    whole site. *)
Theorem robots_rule_is_found_anywhere
  (ext : Externals) (httpGet : jstring -> option jstring) (site : jstring) :
  (checkRobotsTxt ext httpGet site = false <->
   exists robotsUrl data,
     resolveUrl ext (lit "/robots.txt") site = Some robotsUrl
     /\ httpGet robotsUrl = Some data
     /\ (exists a b, toLowerCase ext data = a ++ lit "user-agent: *" ++ b)
     /\ (exists a b, toLowerCase ext data = a ++ lit "disallow: /" ++ b))
  /\ (forall robotsUrl data a b path c,
        resolveUrl ext (lit "/robots.txt") site = Some robotsUrl ->
        httpGet robotsUrl = Some data ->
        toLowerCase ext data
        = a ++ lit "user-agent: *" ++ b ++ lit "disallow: /" ++ path ++ c ->
        checkRobotsTxt ext httpGet site = false)
  /\ (forall robotsUrl,
        resolveUrl ext (lit "/robots.txt") site = Some robotsUrl ->
        httpGet robotsUrl = None ->
        checkRobotsTxt ext httpGet site = true).
Proof.
  split; [apply checkRobotsTxt_false|]. split.
  - intros u d a b path c Hu Hd Hl. apply checkRobotsTxt_false.
    exists u, d. repeat split; auto.
    + exists a, (b ++ lit "disallow: /" ++ path ++ c). exact Hl.
    + exists (a ++ lit "user-agent: *" ++ b), (path ++ c). rewrite Hl.
      now rewrite <- !app_assoc.
  - intros u Hu Hd. unfold checkRobotsTxt. rewrite Hu, Hd. reflexivity.
Qed.

Example robots_file_with_one_private_path :
  checkRobotsTxt Scenario.externals
    (fun _ => Some (lit "User-agent: *
Disallow: /admin
"))
    (lit "https://www.beyondchats.com")
  = false.
Proof. vm_compute. reflexivity. Qed.

(** *** cleanArticleContent *)

Lemma wordsFrom_collapse (s : jstring) :
  (forall cur, wordsFrom cur (collapseFrom false s) = wordsFrom cur s)
  /\ wordsFrom [] (collapseFrom true s) = wordsFrom [] s.
Proof.
  induction s as [|c s [IH1 IH2]]; [split; reflexivity|].
  split.
  - intros cur. cbn [collapseFrom wordsFrom]. destruct (is_space c) eqn:E.
    + cbn [wordsFrom]. change (is_space 32) with true. cbv iota.
      rewrite IH2. reflexivity.
    + cbn [wordsFrom]. rewrite E. apply IH1.
  - cbn [collapseFrom wordsFrom]. destruct (is_space c) eqn:E.
    + cbn [truthy]. exact IH2.
    + cbn [wordsFrom]. rewrite E. apply IH1.
Qed.

Lemma singleSpaced_spaces (s : jstring) :
  forall b, singleSpaced b s = true ->
    forall c, In c s -> is_space c = true -> c = 32%N.
Proof.
  induction s as [|x s IH]; intros b H c Hc Hs; [destruct Hc|].
  cbn [singleSpaced] in H. destruct Hc as [<-|Hc].
  - rewrite Hs in H. apply andb_true_iff in H. destruct H as [H _].
    apply andb_true_iff in H. destruct H as [H _]. now apply N.eqb_eq in H.
  - destruct (is_space x).
    + apply andb_true_iff in H. destruct H as [_ H]. exact (IH _ H c Hc Hs).
    + exact (IH _ H c Hc Hs).
Qed.

(** X18. The shape of cleaned content: for every HTML input and every text
    extraction, the result of [cleanArticleContent] has no whitespace but
    single U+0020 spaces between other characters (no line break, no run of
    spaces, nothing at either end), so that the replacement of blank lines
    never applies; the words of the extracted text and their count are
    kept. *)
Theorem cleaned_content_is_single_spaced (ext : Externals) (content : jstring) :
  let extracted := htmlToText ext unwantedSelectors content in
  let cleaned := cleanArticleContent ext content in
  singleSpaced false cleaned = true
  /\ (forall c, In c cleaned -> is_space c = true -> c = 32%N)
  /\ trim cleaned = cleaned
  /\ cleaned = trim (replaceAll re_spaces (lit " ") extracted)
  /\ words cleaned = words extracted
  /\ calculateWordCount cleaned = calculateWordCount extracted.
Proof.
  cbv zeta. unfold cleanArticleContent.
  set (t := htmlToText ext unwantedSelectors content).
  assert (Hs : singleSpaced false (normalizeWhitespace t) = true).
  { rewrite normalizeWhitespace_eq.
    apply (singleSpaced_trim _ false), singleSpaced_collapse. }
  assert (Hw : words (normalizeWhitespace t) = words t).
  { rewrite normalizeWhitespace_eq, words_trim. unfold words.
    apply (proj1 (wordsFrom_collapse t)). }
  repeat split.
  - exact Hs.
  - apply (singleSpaced_spaces _ false Hs).
  - rewrite normalizeWhitespace_eq. apply trim_idem.
  - rewrite normalizeWhitespace_eq, replaceAll_spaces. reflexivity.
  - exact Hw.
  - rewrite !calculateWordCount_words, Hw. reflexivity.
Qed.

(** *** sanitizeArticleContent *)

(** X19. Sanitising only deletes: the result of [sanitizeArticleContent] is
    the content with some code units left out, it is never longer, and it has
    no whitespace at either end; a text without [<], [:] and [=] is only
    trimmed.  One pass does not make the text free of script elements: the
    removal of a script element can put the pieces of another one together,
    and a second pass removes that one. *)
Theorem sanitizing_only_deletes (content : jstring) :
  Subsequence (sanitizeArticleContent content) content
  /\ length (sanitizeArticleContent content) <= length content
  /\ trim (sanitizeArticleContent content) = sanitizeArticleContent content
  /\ (Forall plainChar content ->
      sanitizeArticleContent content = trim content)
  /\ sanitizeArticleContent Scenario.nestedScript
     = lit "<script>alert(1)</script>"
  /\ test re_script (sanitizeArticleContent Scenario.nestedScript) = true
  /\ sanitizeArticleContent (sanitizeArticleContent Scenario.nestedScript) = [].
Proof.
  split; [apply sanitize_deletes|].
  split; [apply Subsequence_length, sanitize_deletes|].
  split; [unfold sanitizeArticleContent; apply trim_idem|].
  split; [apply sanitize_plain|].
  vm_compute. auto.
Qed.

(** *** scrapeOldestArticles *)

Lemma listingPage_throws (ext : Externals) (world : World) (page : Page) :
  (exists e, listingPage ext world page = Throw e) <->
  exists u, findLastPage ext page = Some u /\ u <> [] /\ u <> baseUrl
            /\ navigate world u = None.
Proof.
  unfold listingPage. destruct (findLastPage ext page) as [u|].
  - destruct (truthy u) eqn:Et; cbn [andb].
    + destruct (jstring_eqb u baseUrl) eqn:Eb; cbn [negb].
      * split; [intros [e H]; discriminate H|].
        intros (u' & Hu & _ & Hne & _). injection Hu as <-.
        apply jstring_eqb_eq in Eb. contradiction.
      * destruct (navigate world u) as [pg|] eqn:En.
        -- split; [intros [e H]; discriminate H|].
           intros (u' & Hu & _ & _ & Hn). injection Hu as <-. congruence.
        -- split; [|intros _; eauto].
           intros _. exists u. repeat split; auto.
           ++ now apply truthy_nonempty.
           ++ now apply jstring_eqb_neq.
    + split; [intros [e H]; discriminate H|].
      intros (u' & Hu & Hne & _). injection Hu as <-.
      apply truthy_nonempty in Hne. congruence.
  - split; [intros [e H]; discriminate H|]. intros (u & Hu & _). discriminate.
Qed.

Lemma listingPage_error (ext : Externals) (world : World) (page : Page)
  (e : Exn) :
  listingPage ext world page = Throw e -> e = BrowserError "goto".
Proof.
  unfold listingPage. destruct (findLastPage ext page) as [u|]; [|discriminate].
  destruct (truthy u && negb (jstring_eqb u baseUrl)); [|discriminate].
  destruct (navigate world u); [discriminate|]. intros H. now injection H as <-.
Qed.

Lemma run_outcome (ext : Externals) (world : World) (st : Service) :
  snd (scrapeOldestArticles ext world st)
  = if browser st || launches world then
      if negb (opens (tab world baseUrl))
      then Throw (BrowserError "browser.newPage")
      else if negb (closes (tab world baseUrl))
      then Throw (BrowserError "page.close")
      else if negb (acceptsUserAgent (tab world baseUrl))
      then Throw (BrowserError "page.setUserAgent")
      else if negb (acceptsViewport (tab world baseUrl))
      then Throw (BrowserError "page.setViewport")
      else
        match navigate world baseUrl with
        | None => Throw (BrowserError "goto")
        | Some page =>
            match listingPage ext world page with
            | Throw e => Throw e
            | Ok page' =>
                Ok (flat_map (candidatesAt ext world {| browser := true |})
                      (firstn articlesPerRun (extractArticleLinks page')))
            end
        end
    else Throw (BrowserError "launch").
Proof.
  rewrite scrapeOldestArticles_outcome.
  destruct (browser st || launches world); [|reflexivity]. cbn [snd].
  destruct (opens (tab world baseUrl)); [|reflexivity].
  destruct (closes (tab world baseUrl)); [|reflexivity]. cbn [negb].
  now rewrite (scrapeListing_outcome ext world {| browser := true |} eq_refl).
Qed.

(** X27. A run fails only on the listing: [scrapeOldestArticles] throws
    exactly when no browser runs and none can be launched, or the tab for the
    listing cannot be opened, set up or closed, or the listing page cannot
    be loaded, or the pagination names a last page other than the listing
    page and that page cannot be loaded; what is thrown is the error of that
    step, the failed [page.close()] of the [finally] block taking the place
    of any other.  An article page that fails never makes the run throw. *)
Theorem run_fails_only_on_the_listing
  (ext : Externals) (world : World) (st : Service) :
  ((exists e, snd (scrapeOldestArticles ext world st) = Throw e) <->
   (browser st = false /\ launches world = false)
   \/ ((browser st = true \/ launches world = true)
       /\ (opens (tab world baseUrl) = false
           \/ closes (tab world baseUrl) = false
           \/ acceptsUserAgent (tab world baseUrl) = false
           \/ acceptsViewport (tab world baseUrl) = false
           \/ navigate world baseUrl = None
           \/ exists page u,
                navigate world baseUrl = Some page
                /\ findLastPage ext page = Some u
                /\ u <> [] /\ u <> baseUrl
                /\ navigate world u = None)))
  /\ (forall e, snd (scrapeOldestArticles ext world st) = Throw e ->
        In e [BrowserError "launch"; BrowserError "browser.newPage";
              BrowserError "page.close"; BrowserError "page.setUserAgent";
              BrowserError "page.setViewport"; BrowserError "goto"])
  /\ (forall world',
        launches world' = launches world ->
        tab world' baseUrl = tab world baseUrl ->
        navigate world' baseUrl = navigate world baseUrl ->
        (forall page u, navigate world baseUrl = Some page ->
                        findLastPage ext page = Some u ->
                        navigate world' u = navigate world u) ->
        ((exists e, snd (scrapeOldestArticles ext world' st) = Throw e) <->
         (exists e, snd (scrapeOldestArticles ext world st) = Throw e))).
Proof.
  assert (Hiff : forall w,
    (exists e, snd (scrapeOldestArticles ext w st) = Throw e) <->
    (browser st = false /\ launches w = false)
    \/ ((browser st = true \/ launches w = true)
        /\ (opens (tab w baseUrl) = false
            \/ closes (tab w baseUrl) = false
            \/ acceptsUserAgent (tab w baseUrl) = false
            \/ acceptsViewport (tab w baseUrl) = false
            \/ navigate w baseUrl = None
            \/ exists page u,
                 navigate w baseUrl = Some page
                 /\ findLastPage ext page = Some u
                 /\ u <> [] /\ u <> baseUrl
                 /\ navigate w u = None))).
  { intros w. rewrite run_outcome.
    destruct (browser st || launches w) eqn:Hb.
    - apply orb_true_iff in Hb.
      assert (Hnot : ~ (browser st = false /\ launches w = false))
        by (intros [H1 H2]; destruct Hb; congruence).
      destruct (opens (tab w baseUrl)); cbn [negb];
        [|split; [intros _; right; auto|eauto]].
      destruct (closes (tab w baseUrl)); cbn [negb];
        [|split; [intros _; right; auto|eauto]].
      destruct (acceptsUserAgent (tab w baseUrl)); cbn [negb];
        [|split; [intros _; right; auto|eauto]].
      destruct (acceptsViewport (tab w baseUrl)); cbn [negb];
        [|split; [intros _; right; auto 7|eauto]].
      destruct (navigate w baseUrl) as [page|] eqn:Hn;
        [|split; [intros _; right; auto 8|eauto]].
      pose proof (listingPage_throws ext w page) as Hlp.
      destruct (listingPage ext w page) as [page'|e0] eqn:Hp.
      + split; [intros [e H]; discriminate H|].
        intros [H|[_ [H|[H|[H|[H|[H|(pg & u & Hpg & Hrest)]]]]]]];
          try discriminate H; [destruct (Hnot H)|].
        injection Hpg as <-.
        destruct (proj2 Hlp (ex_intro _ u Hrest)) as [e' He']. discriminate He'.
      + split; [intros _|eauto]. right. split; [exact Hb|].
        do 5 right.
        destruct (proj1 Hlp (ex_intro _ e0 eq_refl)) as (u & Hu).
        exists page, u. auto.
    - apply orb_false_iff in Hb. split; [intros _; left; exact Hb|eauto]. }
  split; [apply Hiff|]. split.
  - rewrite run_outcome.
    destruct (browser st || launches world);
      [|intros e H; injection H as <-; cbn; tauto].
    destruct (opens (tab world baseUrl)); cbn [negb];
      [|intros e H; injection H as <-; cbn; tauto].
    destruct (closes (tab world baseUrl)); cbn [negb];
      [|intros e H; injection H as <-; cbn; tauto].
    destruct (acceptsUserAgent (tab world baseUrl)); cbn [negb];
      [|intros e H; injection H as <-; cbn; tauto].
    destruct (acceptsViewport (tab world baseUrl)); cbn [negb];
      [|intros e H; injection H as <-; cbn; tauto].
    destruct (navigate world baseUrl) as [page|];
      [|intros e H; injection H as <-; cbn; tauto].
    destruct (listingPage ext world page) as [page'|e0] eqn:Hp; [discriminate|].
    intros e H. injection H as <-.
    rewrite (listingPage_error ext world page e0 Hp). cbn. tauto.
  - intros world' Hl Ht Hn Hlast. rewrite (Hiff world'), (Hiff world).
    rewrite Hl, Ht, Hn.
    assert (Hp : (exists page u,
                    navigate world baseUrl = Some page
                    /\ findLastPage ext page = Some u
                    /\ u <> [] /\ u <> baseUrl /\ navigate world' u = None)
                 <-> (exists page u,
                        navigate world baseUrl = Some page
                        /\ findLastPage ext page = Some u
                        /\ u <> [] /\ u <> baseUrl /\ navigate world u = None)).
    { split; intros (page & u & H1 & H2 & H3 & H4 & H5); exists page, u;
        repeat split; auto; [rewrite <- (Hlast page u H1 H2)
                            |rewrite (Hlast page u H1 H2)]; exact H5. }
    rewrite Hp. reflexivity.
Qed.

(** A listing whose article pages all fail: the run returns, with no
    article. *)
Example run_over_failing_article_pages :
  snd (scrapeOldestArticles Scenario.externals Scenario.brokenPosts
         Scenario.idle) = Ok [].
Proof. vm_compute. reflexivity. Qed.

End ServiceProperties.

Module ConnectionProperties.
Import Connection Spec.

Lemma acquired_snoc (t : list Entry) (e : Entry) :
  acquired (t ++ [e]) = acquired t + (if isAcquire e then 1 else 0).
Proof.
  unfold acquired. rewrite filter_app, length_app. simpl.
  destruct (isAcquire e); reflexivity.
Qed.

Lemma released_snoc (t : list Entry) (e : Entry) :
  released (t ++ [e]) = released t + (if isRelease e then 1 else 0).
Proof.
  unfold released. rewrite filter_app, length_app. simpl.
  destruct (isRelease e); reflexivity.
Qed.

Lemma committed_snoc (t : list Entry) (e : Entry) :
  committed (t ++ [e]) = committed t + (if isCommit e then 1 else 0).
Proof.
  unfold committed. rewrite filter_app, length_app. simpl.
  destruct (isCommit e); reflexivity.
Qed.

Lemma rolledBack_snoc (t : list Entry) (e : Entry) :
  rolledBack (t ++ [e]) = rolledBack t + (if isRollback e then 1 else 0).
Proof.
  unfold rolledBack. rewrite filter_app, length_app. simpl.
  destruct (isRollback e); reflexivity.
Qed.

Ltac count_entries :=
  rewrite ?acquired_snoc, ?released_snoc, ?committed_snoc, ?rolledBack_snoc;
  cbn [isAcquire isRelease isCommit isRollback].

(** X20. [initializeDatabase] sets the pool before it tests the connection:
    whatever the outcome, the pool is set afterwards, so that [getDatabase]
    no longer throws and a second [initializeDatabase] returns at once
    without any call on the driver, also after a failed first attempt; when
    the ping of the test rejects, the connection that was taken is not given
    back. *)
Theorem pool_is_set_before_it_is_tested (drv : Driver) (p : Process) :
  let p' := fst (initializeDatabase drv p) in
  let r := snd (initializeDatabase drv p) in
  pool p' = true
  /\ getDatabase p' = Ok tt
  /\ (forall drv', initializeDatabase drv' p' = (p', Ok tt))
  /\ (pool p = true -> p' = p /\ r = Ok tt)
  /\ (pool p = false -> r = Ok tt ->
      acquired (trace p') = S (acquired (trace p))
      /\ released (trace p') = S (released (trace p)))
  /\ (pool p = false -> r = Throw (rejected Ping) ->
      acquired (trace p') = S (acquired (trace p))
      /\ released (trace p') = released (trace p)).
Proof.
  cbv zeta. unfold initializeDatabase.
  destruct (pool p) eqn:Hp.
  - cbn [fst snd]. unfold getDatabase. rewrite Hp.
    repeat split; try discriminate; try (intros drv'; now rewrite Hp).
  - unfold perform, note. cbn [pool trace].
    destruct (succeeds drv _ GetConnection) eqn:Hc; cbn [fst snd pool trace];
      [destruct (succeeds drv _ Ping) eqn:Hg; cbn [fst snd pool trace]|];
      unfold getDatabase; cbn [pool]; repeat split; try discriminate;
      count_entries; try lia.
Qed.

Lemma transaction_counts
  (T : Type) (drv : Driver) (callback : Process -> Process * result T)
  (p : Process) :
  runsStatements callback ->
  let p' := fst (executeTransaction drv callback p) in
  let r := snd (executeTransaction drv callback p) in
  pool p' = pool p
  /\ acquired (trace p') + released (trace p)
     = acquired (trace p) + released (trace p')
  /\ (forall x, r = Ok x ->
        committed (trace p') = S (committed (trace p))
        /\ rolledBack (trace p') = rolledBack (trace p)
        /\ acquired (trace p') = S (acquired (trace p)))
  /\ (forall e, r = Throw e ->
        committed (trace p') = committed (trace p)
        /\ rolledBack (trace p') + acquired (trace p)
           = rolledBack (trace p) + acquired (trace p'))
  /\ (pool p = false -> p' = p /\ r = Throw notInitialized).
Proof.
  intros Hcb. cbv zeta.
  destruct (executeTransaction drv callback p) as [p' r] eqn:E. cbn [fst snd].
  unfold executeTransaction, getDatabase in E.
  destruct (pool p) eqn:Hp.
  2:{ injection E as <- <-. rewrite Hp.
      repeat split; intros; try discriminate; try lia. }
  unfold perform at 1 in E. cbn [pool trace] in E.
  destruct (succeeds drv (trace p) GetConnection) eqn:Hg.
  2:{ injection E as <- <-. cbn [pool trace]. count_entries.
      repeat split; intros; try discriminate; try lia; try congruence; auto. }
  unfold perform at 1 in E. cbn [pool trace] in E.
  destruct (succeeds drv _ BeginTransaction) eqn:Hb.
  2:{ unfold perform, note in E. cbn [pool trace] in E.
      destruct (succeeds drv _ Rollback); injection E as <- <-;
        cbn [pool trace]; count_entries;
        repeat split; intros; try discriminate; try lia; try congruence; auto. }
  match type of E with context [callback ?q0] =>
    destruct (Hcb q0) as (C0 & C1 & C2 & C3 & C4);
    destruct (callback q0) as [q [x|e]] end;
    cbn [fst snd pool trace] in *; revert C1 C2 C3 C4; count_entries;
    intros C1 C2 C3 C4.
  - unfold perform, note in E. cbn [pool trace] in E.
    destruct (succeeds drv (trace q) Commit) eqn:Hc.
    + injection E as <- <-. cbn [pool trace]. count_entries.
      repeat split; intros; try discriminate; try lia; try congruence; auto.
    + destruct (succeeds drv _ Rollback); injection E as <- <-;
        cbn [pool trace]; count_entries;
        repeat split; intros; try discriminate; try lia; try congruence; auto.
  - unfold perform, note in E. cbn [pool trace] in E.
    destruct (succeeds drv (trace q) Rollback); injection E as <- <-;
      cbn [pool trace]; count_entries;
      repeat split; intros; try discriminate; try lia; try congruence; auto.
Qed.

(** On a server that does not answer the ping, the first start fails with
    the connection still out, and a second start reports success without
    trying again. *)
Example starts_on_a_server_that_does_not_answer :
  initializeDatabase Scenario.deafServer Scenario.fresh
  = ({| pool := true;
        trace := [(CreatePool, true); (GetConnection, true); (Ping, false)] |},
     Throw (rejected Ping))
  /\ initializeDatabase Scenario.deafServer
       (fst (initializeDatabase Scenario.deafServer Scenario.fresh))
     = (fst (initializeDatabase Scenario.deafServer Scenario.fresh), Ok tt).
Proof. split; reflexivity. Qed.

(** X21. A transaction gives its connection back and ends one way only: for
    a body that only runs statements, every connection that
    [executeTransaction] takes is released on every path; a transaction that
    returns has committed once and has not rolled back; one that throws has
    committed nothing, and has attempted a roll-back if it had taken a
    connection; without a pool it throws before any call is made. *)
Theorem transaction_is_balanced
  (T : Type) (drv : Driver) (callback : Process -> Process * result T)
  (p : Process) :
  runsStatements callback ->
  let p' := fst (executeTransaction drv callback p) in
  let r := snd (executeTransaction drv callback p) in
  pool p' = pool p
  /\ acquired (trace p') + released (trace p)
     = acquired (trace p) + released (trace p')
  /\ (forall x, r = Ok x ->
        committed (trace p') = S (committed (trace p))
        /\ rolledBack (trace p') = rolledBack (trace p)
        /\ acquired (trace p') = S (acquired (trace p)))
  /\ (forall e, r = Throw e ->
        committed (trace p') = committed (trace p)
        /\ rolledBack (trace p') + acquired (trace p)
           = rolledBack (trace p) + acquired (trace p'))
  /\ (pool p = false -> p' = p /\ r = Throw notInitialized).
Proof. exact (transaction_counts T drv callback p). Qed.

Lemma executeStatements_counts (drv : Driver) (statements : list jstring) :
  forall c,
    pool (fst (Migrations.executeStatements drv statements c)) = pool c
    /\ acquired (trace (fst (Migrations.executeStatements drv statements c)))
       = acquired (trace c)
    /\ released (trace (fst (Migrations.executeStatements drv statements c)))
       = released (trace c)
    /\ committed (trace (fst (Migrations.executeStatements drv statements c)))
       = committed (trace c)
    /\ rolledBack (trace (fst (Migrations.executeStatements drv statements c)))
       = rolledBack (trace c).
Proof.
  induction statements as [|st l IH]; intros c; cbn [Migrations.executeStatements].
  - cbn [fst]. auto.
  - destruct (truthy (trim st)); [|apply IH].
    unfold perform. destruct (succeeds drv (trace c) (Execute st [])).
    + destruct (IH {| pool := pool c; trace := trace c ++ [(Execute st [], true)] |})
        as (H0 & H1 & H2 & H3 & H4).
      cbn [pool trace] in *. revert H1 H2 H3 H4. count_entries.
      rewrite !Nat.add_0_r. auto.
    + cbn [fst pool trace]. count_entries. rewrite !Nat.add_0_r. auto.
Qed.

Lemma oneStatement_runsStatements (drv : Driver) :
  runsStatements (Scenario.oneStatement drv).
Proof. intros q. apply executeStatements_counts. Qed.

(** A transaction of one statement on a server that accepts every call. *)
Lemma transaction_of_one_statement :
  runsStatements (Scenario.oneStatement Scenario.freshServer)
  /\ executeTransaction Scenario.freshServer
       (Scenario.oneStatement Scenario.freshServer) Scenario.ready
     = ({| pool := true;
           trace := [ (GetConnection, true); (BeginTransaction, true);
                      (Execute (lit "DELETE FROM migrations") [], true);
                      (Commit, true); (Release, true) ] |}, Ok tt)
  /\ acquired
       (trace (fst (executeTransaction Scenario.freshServer
                      (Scenario.oneStatement Scenario.freshServer)
                      Scenario.ready)))
     + released (trace Scenario.ready)
     = acquired (trace Scenario.ready)
       + released
           (trace (fst (executeTransaction Scenario.freshServer
                          (Scenario.oneStatement Scenario.freshServer)
                          Scenario.ready))).
Proof.
  split; [apply oneStatement_runsStatements|].
  split; [vm_compute; reflexivity|].
  exact (proj1 (proj2
           (transaction_is_balanced unit Scenario.freshServer
              (Scenario.oneStatement Scenario.freshServer) Scenario.ready
              (oneStatement_runsStatements Scenario.freshServer)))).
Defined.

(** X22. A health check whose ping rejects keeps the connection: the check
    never throws and never changes the pool; a check that answers [true] has
    taken one connection and given it back; a check that answers [false]
    gives nothing back, so that the connection it took is lost when the ping
    rejected. *)
Theorem health_check_keeps_the_connection_on_failure
  (drv : Driver) (p : Process) :
  let p' := fst (checkDatabaseHealth drv p) in
  let healthy := snd (checkDatabaseHealth drv p) in
  pool p' = pool p
  /\ (pool p = false -> p' = p /\ healthy = false)
  /\ (healthy = true ->
      acquired (trace p') = S (acquired (trace p))
      /\ released (trace p') = S (released (trace p)))
  /\ (healthy = false ->
      released (trace p') = released (trace p)
      /\ (pool p = true -> succeeds drv (trace p) GetConnection = true ->
          acquired (trace p') = S (acquired (trace p)))).
Proof.
  cbv zeta. unfold checkDatabaseHealth, getDatabase.
  destruct (pool p) eqn:Hp;
    [|cbn [fst snd]; repeat split; intros; try discriminate; auto].
  unfold perform, note. cbn [pool trace].
  destruct (succeeds drv (trace p) GetConnection) eqn:Hg; cbn [fst snd pool trace];
    [destruct (succeeds drv _ Ping) eqn:Hi; cbn [fst snd pool trace]|];
    count_entries; repeat split; intros; try discriminate; try lia; auto.
Qed.

(** X23. After [closeDatabase] has returned, every entry point answers that
    the database is not initialised, without a call on the driver:
    [executeQuery] and [executeTransaction] throw, [checkDatabaseHealth]
    answers [false], and another [closeDatabase] returns at once; when
    [pool.end()] rejects, the pool stays set. *)
Theorem closed_pool_rejects_every_call (drv : Driver) (p : Process) :
  let p' := fst (closeDatabase drv p) in
  let r := snd (closeDatabase drv p) in
  (r = Ok tt ->
   pool p' = false
   /\ (forall drv' query params,
         executeQuery drv' query params p' = (p', Throw notInitialized))
   /\ (forall (T : Type) drv' (callback : Process -> Process * result T),
         executeTransaction drv' callback p' = (p', Throw notInitialized))
   /\ (forall drv', checkDatabaseHealth drv' p' = (p', false))
   /\ (forall drv', closeDatabase drv' p' = (p', Ok tt)))
  /\ (forall e, r = Throw e -> pool p' = true /\ e = rejected EndPool)
  /\ (pool p = false -> p' = p /\ r = Ok tt).
Proof.
  cbv zeta. unfold closeDatabase.
  destruct (pool p) eqn:Hp.
  - unfold perform. cbn [pool trace].
    destruct (succeeds drv (trace p) EndPool); cbn [fst snd pool trace];
      repeat split; try discriminate; try congruence.
  - cbn [fst snd].
    unfold executeQuery, executeTransaction, checkDatabaseHealth, getDatabase.
    rewrite Hp. repeat split; try discriminate.
Qed.

End ConnectionProperties.

Module MigrationProperties.
Import Connection Migrations Spec.
Import StringFacts LinkFacts ConnectionProperties.

Lemma splitChar_nonempty (sep : N) (s : jstring) : splitChar sep s <> [].
Proof.
  destruct s as [|c s]; simpl; [discriminate|].
  destruct (c =? sep)%N; [discriminate|].
  destruct (splitChar sep s); discriminate.
Qed.

Lemma joinWith_cons (sep : N) (x : jstring) (l : list jstring) :
  l <> [] -> joinWith sep (x :: l) = x ++ sep :: joinWith sep l.
Proof. destruct l; [contradiction|reflexivity]. Qed.

Lemma join_split (sep : N) (s : jstring) : joinWith sep (splitChar sep s) = s.
Proof.
  induction s as [|c s IH]; [reflexivity|]. cbn [splitChar].
  destruct (c =? sep)%N eqn:E.
  - apply N.eqb_eq in E. subst c.
    rewrite joinWith_cons by apply splitChar_nonempty. now rewrite IH.
  - pose proof (splitChar_nonempty sep s) as Hne.
    destruct (splitChar sep s) as [|piece rest]; [contradiction|].
    destruct rest as [|y rest].
    + cbn in *. now rewrite IH.
    + change (joinWith sep ((c :: piece) :: y :: rest))
        with (c :: (piece ++ sep :: joinWith sep (y :: rest))).
      change (joinWith sep (piece :: y :: rest))
        with (piece ++ sep :: joinWith sep (y :: rest)) in IH.
      now rewrite IH.
Qed.

Lemma split_pieces (sep : N) (s : jstring) :
  Forall (fun piece => ~ In sep piece) (splitChar sep s).
Proof.
  induction s as [|c s IH]; cbn [splitChar]; [repeat constructor; auto|].
  destruct (c =? sep)%N eqn:E.
  - constructor; [auto|exact IH].
  - destruct (splitChar sep s) as [|piece rest]; [repeat constructor|].
    + intros [H|[]]. apply N.eqb_neq in E. congruence.
    + inversion IH; subst. constructor; [|assumption].
      intros [H|H]; [apply N.eqb_neq in E; congruence|contradiction].
Qed.

Lemma dropWhile_nil (p : N -> bool) (s : jstring) :
  dropWhile p s = [] -> forallb p s = true.
Proof.
  induction s as [|c s IH]; simpl; [reflexivity|].
  destruct (p c); [exact IH|discriminate].
Qed.

Lemma trim_blank (s : jstring) : truthy (trim s) = negb (isBlank s).
Proof.
  unfold isBlank. destruct (forallb is_space s) eqn:E.
  - unfold trim, trimStart. rewrite (dropWhile_all _ _ E). reflexivity.
  - destruct (trim s) as [|c t] eqn:Et; [|reflexivity]. exfalso.
    unfold trim, trimStart in Et.
    destruct (trimEnd_split (dropWhile is_space s)) as (w & Hw & Hb).
    rewrite Et in Hw. cbn in Hw.
    assert (Hd : dropWhile is_space s = []).
    { destruct (dropWhile is_space s) as [|x d] eqn:Ed; [reflexivity|].
      assert (Hx : is_space x = false).
      { clear -Ed. induction s as [|y s IH]; simpl in Ed; [discriminate|].
        destruct (is_space y) eqn:Ey; [exact (IH Ed)|].
        injection Ed as -> _. exact Ey. }
      subst w. cbn in Hb. rewrite Hx in Hb. discriminate. }
    apply dropWhile_nil in Hd. congruence.
Qed.

Lemma executeStatements_reliable (drv : Driver) (statements : list jstring) :
  reliable drv ->
  Forall (fun st => isBlank st = false) statements ->
  forall c,
    executeStatements drv statements c
    = ({| pool := pool c; trace := trace c ++ map sent statements |}, Ok tt).
Proof.
  intros Hr. induction 1 as [|st l Hst Hl IH]; intros c; cbn [executeStatements map].
  - rewrite app_nil_r. destruct c; reflexivity.
  - rewrite trim_blank, Hst. cbn [negb]. unfold perform. rewrite Hr.
    rewrite IH. cbn [pool trace]. rewrite <- app_assoc. reflexivity.
Qed.

Lemma statementsOf_not_blank (sql : jstring) :
  Forall (fun st => isBlank st = false) (statementsOf sql).
Proof.
  unfold statementsOf. apply Forall_forall. intros st Hst.
  apply filter_In in Hst. destruct Hst as [_ Hst]. rewrite trim_blank in Hst.
  now apply negb_true_iff in Hst.
Qed.

Example pieces_between_semicolons :
  splitChar 59 (lit "a;b;;c") = [lit "a"; lit "b"; []; lit "c"]
  /\ splitChar 59 [] = [[]]
  /\ splitChar 59 (lit ";") = [[]; []].
Proof. repeat split; reflexivity. Qed.

(** X24. The statements of a migration are the pieces of its text between
    semicolons that are not blank: joining the pieces with semicolons gives
    the text back, no piece holds a semicolon (a semicolon inside a string
    literal or a comment splits too), the blank pieces are left out, and on a
    server that accepts every call the statements are run one by one, in
    order and untrimmed. *)
Theorem migration_statements_are_the_segments (sql : jstring) :
  joinWith 59 (splitChar 59 sql) = sql
  /\ Forall (fun piece => ~ In 59%N piece) (splitChar 59 sql)
  /\ (forall st, In st (statementsOf sql) <->
                 In st (splitChar 59 sql) /\ isBlank st = false)
  /\ (forall drv c,
        reliable drv ->
        executeStatements drv (statementsOf sql) c
        = ({| pool := pool c;
              trace := trace c ++ map sent (statementsOf sql) |}, Ok tt)).
Proof.
  repeat split.
  - apply join_split.
  - apply split_pieces.
  - unfold statementsOf in H. apply filter_In in H. tauto.
  - unfold statementsOf in H. apply filter_In in H. destruct H as [_ H].
    rewrite trim_blank in H. now apply negb_true_iff in H.
  - intros [H1 H2]. unfold statementsOf. apply filter_In. split; [exact H1|].
    rewrite trim_blank, H2. reflexivity.
  - intros drv c Hr. apply executeStatements_reliable; [exact Hr|].
    apply statementsOf_not_blank.
Qed.

Example statements_of_two_tables :
  statementsOf Scenario.twoTables
  = [lit "CREATE TABLE a (x INT)"; lit "CREATE TABLE b (y INT)"].
Proof. vm_compute. reflexivity. Qed.

Lemma migrationBody_runsStatements (drv : Driver) (migration : Migration) :
  runsStatements (migrationBody drv migration).
Proof.
  intros q. unfold migrationBody.
  pose proof (executeStatements_counts drv (statementsOf (sql migration)) q) as H.
  destruct (executeStatements drv (statementsOf (sql migration)) q) as [c1 [[]|e]];
    cbn [fst] in *; [|exact H].
  unfold perform.
  destruct (succeeds drv (trace c1) _); cbn [fst pool trace];
    destruct H as (H0 & H1 & H2 & H3 & H4);
    rewrite acquired_snoc, released_snoc, committed_snoc, rolledBack_snoc;
    cbn [isAcquire isRelease isCommit isRollback]; rewrite !Nat.add_0_r; auto.
Qed.

(** X25. A migration runs in one transaction: on a server that accepts every
    call, [executeMigration] takes a connection, begins, runs the statements
    of the migration in order, records the version, commits and releases, and
    makes no other call; on any server, a migration that throws has committed
    nothing, and the connection it took is given back. *)
Theorem migration_runs_in_one_transaction
  (drv : Driver) (migration : Migration) (p : Process) :
  pool p = true ->
  (reliable drv ->
   executeMigration drv migration p
   = ({| pool := true;
         trace :=
           trace p
           ++ [(GetConnection, true); (BeginTransaction, true)]
           ++ map sent (statementsOf (sql migration))
           ++ [(Execute insertVersion [version migration; description migration],
                true);
               (Commit, true); (Release, true)] |},
      Ok tt))
  /\ (forall e, snd (executeMigration drv migration p) = Throw e ->
        committed (trace (fst (executeMigration drv migration p)))
        = committed (trace p))
  /\ acquired (trace (fst (executeMigration drv migration p)))
     + released (trace p)
     = acquired (trace p)
       + released (trace (fst (executeMigration drv migration p))).
Proof.
  intros Hp.
  destruct (transaction_counts unit drv (migrationBody drv migration) p
              (migrationBody_runsStatements drv migration))
    as (_ & Hbal & _ & Hthrow & _).
  split; [|split].
  - intros Hr. unfold executeMigration, executeTransaction, getDatabase.
    rewrite Hp. unfold perform at 1. rewrite Hr. unfold perform at 1. rewrite Hr.
    cbn [pool trace]. unfold migrationBody.
    rewrite executeStatements_reliable;
      [|exact Hr|apply statementsOf_not_blank].
    unfold perform, note. rewrite !Hr. cbn [pool trace]. rewrite Hp.
    f_equal. f_equal. rewrite <- !app_assoc. reflexivity.
  - intros e He. exact (proj1 (Hthrow e He)).
  - exact Hbal.
Qed.

(** The schema of two tables, on a server that accepts every call. *)
Lemma migration_of_two_tables :
  pool Scenario.ready = true
  /\ reliable Scenario.freshServer
  /\ executeMigration Scenario.freshServer (schemaMigration Scenario.twoTables)
       Scenario.ready
     = ({| pool := true;
           trace :=
             trace Scenario.ready
             ++ [(GetConnection, true); (BeginTransaction, true)]
             ++ map sent
                  (statementsOf (sql (schemaMigration Scenario.twoTables)))
             ++ [(Execute insertVersion
                    [version (schemaMigration Scenario.twoTables);
                     description (schemaMigration Scenario.twoTables)], true);
                 (Commit, true); (Release, true)] |},
        Ok tt).
Proof.
  assert (H1 : pool Scenario.ready = true) by reflexivity.
  assert (H2 : reliable Scenario.freshServer) by (intros t c; reflexivity).
  split; [exact H1|]. split; [exact H2|].
  exact (proj1 (migration_runs_in_one_transaction Scenario.freshServer
                  (schemaMigration Scenario.twoTables) Scenario.ready H1) H2).
Defined.

Lemma runMigrations_pending (drv : Driver) (sql : jstring) (p : Process)
  (ok : bool) (rows : list jstring) :
  pool p = true ->
  succeeds drv (trace p) (Execute createTableQuery []) = true ->
  succeeds drv (trace p ++ [(Execute createTableQuery [], true)])
    (Execute selectVersions []) = ok ->
  rows = (if ok
          then rowsOf drv (trace p ++ [(Execute createTableQuery [], true)])
                 selectVersions
          else []) ->
  runMigrations drv (Some sql) p
  = runPending drv rows [schemaMigration sql]
      {| pool := true;
         trace := (trace p ++ [(Execute createTableQuery [], true)])
                  ++ [(Execute selectVersions [], ok)] |}.
Proof.
  intros Hp Hc Hs Hrows.
  unfold runMigrations, createMigrationsTable, getExecutedMigrations,
    executeQuery, getDatabase.
  rewrite Hp. unfold perform at 1. rewrite Hc. cbn [pool trace].
  rewrite Hp. cbn [pool trace]. unfold perform. cbn [pool trace].
  rewrite Hs. subst rows. destruct ok; reflexivity.
Qed.

Lemma includes_version (rows : list jstring) :
  existsb (jstring_eqb schemaVersion) rows = true <-> In schemaVersion rows.
Proof.
  rewrite existsb_exists. split.
  - intros (x & Hx & E). apply jstring_eqb_eq in E. now subst.
  - intros H. exists schemaVersion. split; [exact H|apply jstring_eqb_refl].
Qed.

(** X26. A migration that is recorded is not run again, and one whose record
    cannot be read is: when the pool is set and the migrations table can be
    created, [runMigrations] makes two calls and returns if the query of the
    versions answers with '001_initial_schema' among them; if the version is
    not among them, or if the query fails (which is taken as no migration
    executed), it goes on with [executeMigration] of the schema. *)
Theorem executed_migration_is_not_run_again
  (drv : Driver) (sql : jstring) (p : Process) :
  pool p = true ->
  succeeds drv (trace p) (Execute createTableQuery []) = true ->
  let t1 := trace p ++ [(Execute createTableQuery [], true)] in
  (succeeds drv t1 (Execute selectVersions []) = true ->
   In schemaVersion (rowsOf drv t1 selectVersions) ->
   runMigrations drv (Some sql) p
   = ({| pool := true; trace := t1 ++ [(Execute selectVersions [], true)] |},
      Ok tt))
  /\ (succeeds drv t1 (Execute selectVersions []) = true ->
      ~ In schemaVersion (rowsOf drv t1 selectVersions) ->
      runMigrations drv (Some sql) p
      = executeMigration drv (schemaMigration sql)
          {| pool := true; trace := t1 ++ [(Execute selectVersions [], true)] |})
  /\ (succeeds drv t1 (Execute selectVersions []) = false ->
      runMigrations drv (Some sql) p
      = executeMigration drv (schemaMigration sql)
          {| pool := true; trace := t1 ++ [(Execute selectVersions [], false)] |}).
Proof.
  intros Hp Hc t1. unfold t1. clear t1. repeat split.
  - intros Hs Hi.
    rewrite (runMigrations_pending drv sql p true _ Hp Hc Hs eq_refl).
    cbn [runPending version schemaMigration].
    rewrite (proj2 (includes_version _) Hi). reflexivity.
  - intros Hs Hi.
    rewrite (runMigrations_pending drv sql p true _ Hp Hc Hs eq_refl).
    cbn [runPending version schemaMigration].
    destruct (existsb _ _) eqn:E; [apply includes_version in E; contradiction|].
    cbn [negb]. destruct (executeMigration _ _ _) as [q [[]|e]]; reflexivity.
  - intros Hs.
    rewrite (runMigrations_pending drv sql p false _ Hp Hc Hs eq_refl).
    cbn [runPending existsb negb].
    destruct (executeMigration _ _ _) as [q [[]|e]]; reflexivity.
Qed.

(** A second start on a server that holds the record of the schema
    migration. *)
Lemma second_start_on_migrated_server :
  pool Scenario.ready = true
  /\ succeeds Scenario.migratedServer (trace Scenario.ready)
       (Execute createTableQuery []) = true
  /\ runMigrations Scenario.migratedServer (Some Scenario.twoTables)
       Scenario.ready
     = ({| pool := true;
           trace := [ (Execute createTableQuery [], true);
                      (Execute selectVersions [], true) ] |}, Ok tt)
  /\ snd (checkMigrationStatus Scenario.migratedServer Scenario.ready) = true.
Proof.
  assert (H1 : pool Scenario.ready = true) by reflexivity.
  assert (H2 : succeeds Scenario.migratedServer (trace Scenario.ready)
                 (Execute createTableQuery []) = true) by reflexivity.
  split; [exact H1|]. split; [exact H2|]. split.
  - exact (proj1 (executed_migration_is_not_run_again Scenario.migratedServer
                    Scenario.twoTables Scenario.ready H1 H2)
             eq_refl (or_introl eq_refl)).
  - vm_compute. reflexivity.
Defined.

End MigrationProperties.
